(** * CanonBracketTool: exposure arithmetic and capture orchestration

    A shallow embedding of [camera/exposure_calculator.py] and
    [camera/capture_controller.py], with the properties of the design
    document stated and settled against it.

    Numbers.  Python integers are [Z].  A Python float that comes from the
    plan, from a table or from a shutter string is a rational [Q], and the
    four operations on it are exact; comparisons follow Python's [==] and
    [<], that is [Qeq_bool] and [Qlt_bool].  An exposure value is the result
    of [math.log2] and lives in [R]; [2 ** ev] is [Rpower 2 ev] and
    [math.sqrt] is [sqrt].  Rounding, overflow, infinities and NaN of
    binary64 are outside the model. *)

From Stdlib Require Import ZArith QArith Qabs List String Ascii Bool Lia.
From Stdlib Require Import Reals Lra.
Import ListNotations.

Set Implicit Arguments.

(* ------------------------------------------------------------------ *)
(** ** Python built-ins used by the two modules *)

Module Py.

Local Open Scope Z_scope.

(** [c in s] for a one-character [c]. *)
Fixpoint contains (c : ascii) (s : string) : bool :=
  match s with
  | EmptyString => false
  | String d rest => Ascii.eqb d c || contains c rest
  end.

(** [s.split(c)]: always at least one piece, empty pieces are kept. *)
Fixpoint split (c : ascii) (s : string) : list string :=
  match s with
  | EmptyString => [EmptyString]
  | String d rest =>
      if Ascii.eqb d c then EmptyString :: split c rest
      else match split c rest with
           | h :: t => String d h :: t
           | [] => [String d EmptyString]
           end
  end.

Definition is_digit (c : ascii) : bool :=
  let n := nat_of_ascii c in (48 <=? n)%nat && (n <=? 57)%nat.

Definition digit_val (c : ascii) : Z := Z.of_nat (nat_of_ascii c) - 48.

(** Whitespace that [float] strips on both sides: space, \t, \n, \v, \f, \r. *)
Definition is_space (c : ascii) : bool :=
  let n := nat_of_ascii c in (n =? 32)%nat || ((9 <=? n)%nat && (n <=? 13)%nat).

Fixpoint lstrip (l : list ascii) : list ascii :=
  match l with
  | c :: l' => if is_space c then lstrip l' else l
  | [] => []
  end.

Definition strip (l : list ascii) : list ascii := rev (lstrip (rev (lstrip l))).

(** Reads a run of digits: the number read so far, how many digits were
    read, and what follows. *)
Fixpoint digits (l : list ascii) (acc : Z) (n : Z) : Z * Z * list ascii :=
  match l with
  | c :: l' => if is_digit c then digits l' (10 * acc + digit_val c) (n + 1)
               else (acc, n, l)
  | [] => (acc, n, [])
  end.

Definition sign (l : list ascii) : Z * list ascii :=
  match l with
  | "-"%char :: l' => (-1, l')
  | "+"%char :: l' => (1, l')
  | _ => (1, l)
  end.

(** The exponent part: nothing, or [e]/[E], an optional sign and at least
    one digit, up to the end of the text. *)
Definition exponent (l : list ascii) : option Z :=
  match l with
  | [] => Some 0
  | c :: l' =>
      if Ascii.eqb c "e" || Ascii.eqb c "E" then
        let '(sg, l1) := sign l' in
        let '(e, n, l2) := digits l1 0 0 in
        match l2 with
        | [] => if 0 <? n then Some (sg * e) else None
        | _ :: _ => None
        end
      else None
  end.

(** [float(s)] on finite decimal literals: optional surrounding whitespace,
    optional sign, digits with an optional point (at least one digit), an
    optional exponent.  [None] is [ValueError].  The spellings of infinity
    and NaN and digit-group underscores are not covered and read as
    [None]. *)
Definition float (s : string) : option Q :=
  let '(sg, l1) := sign (strip (list_ascii_of_string s)) in
  let '(ip, ni, l2) := digits l1 0 0 in
  let '(mant, nf, l3) :=
    match l2 with
    | "."%char :: l2' => let '(m, n, l3) := digits l2' ip 0 in (m, n, l3)
    | _ => (ip, 0, l2)
    end in
  if 0 <? ni + nf then
    match exponent l3 with
    | Some e => Some (Qred (inject_Z (sg * mant) * Qpower 10 (e - nf)))
    | None => None
    end
  else None.

(** [min(l, key=...)]: the first element whose key is not beaten by a later
    strictly smaller one; [None] is the [ValueError] on an empty list. *)
Fixpoint min_from {A K : Type} (lt : K -> K -> bool) (key : A -> K)
    (best : A) (l : list A) : A :=
  match l with
  | [] => best
  | x :: l' => if lt (key x) (key best) then min_from lt key x l'
               else min_from lt key best l'
  end.

Definition min_by {A K : Type} (lt : K -> K -> bool) (key : A -> K)
    (l : list A) : option A :=
  match l with
  | [] => None
  | x :: l' => Some (min_from lt key x l')
  end.

(** [range(n)] *)
Definition range (n : Z) : list Z := map Z.of_nat (seq 0 (Z.to_nat n)).

End Py.

(** The arithmetic that the nearest-entry searches need, at the two number
    types they are called with: rationals when the value comes from the
    caller, reals when it was solved from an exposure value. *)
Class PyFloat (F : Type) : Type := {
  of_Q : Q -> F;
  fsub : F -> F -> F;
  fabs : F -> F;
  flt : F -> F -> bool
}.

#[export] Instance PyFloat_Q : PyFloat Q := {
  of_Q := fun q => q;
  fsub := Qminus;
  fabs := Qabs;
  flt := fun a b => negb (Qle_bool b a)
}.

#[export] Instance PyFloat_R : PyFloat R := {
  of_Q := Q2R;
  fsub := Rminus;
  fabs := Rabs;
  flt := fun a b => if Rlt_dec a b then true else false
}.

(* ------------------------------------------------------------------ *)
(** ** Bracket dictionaries and the store they live in *)

(** A bracket is a Python dictionary.  Each key the two modules read or
    write is a field, [None] when the key is absent; the values have the
    types of the plan schema. *)
Record bracket : Type := mk_bracket {
  b_name : option string;
  b_iso : option Q;
  b_aperture : option Q;
  b_shutter_speed : option string;
  b_frames : option Z;
  b_delay : option Q;
  b_additional_settings : option (list (string * string));
  b_ev : option R
}.

Definition set_iso (b : bracket) (v : Q) : bracket :=
  mk_bracket (b_name b) (Some v) (b_aperture b) (b_shutter_speed b)
    (b_frames b) (b_delay b) (b_additional_settings b) (b_ev b).

Definition set_aperture (b : bracket) (v : Q) : bracket :=
  mk_bracket (b_name b) (b_iso b) (Some v) (b_shutter_speed b)
    (b_frames b) (b_delay b) (b_additional_settings b) (b_ev b).

Definition set_shutter_speed (b : bracket) (v : string) : bracket :=
  mk_bracket (b_name b) (b_iso b) (b_aperture b) (Some v)
    (b_frames b) (b_delay b) (b_additional_settings b) (b_ev b).

Definition set_ev (b : bracket) (v : R) : bracket :=
  mk_bracket (b_name b) (b_iso b) (b_aperture b) (b_shutter_speed b)
    (b_frames b) (b_delay b) (b_additional_settings b) (Some v).

(** Dictionaries are objects: a list of brackets is a list of references
    into a store, and two references may name the same dictionary. *)
Definition ref : Type := nat.
Definition heap : Type := ref -> bracket.

Definition upd (h : heap) (r : ref) (b : bracket) : heap :=
  fun r' => if Nat.eqb r' r then b else h r'.

(* ------------------------------------------------------------------ *)
(** ** camera/exposure_calculator.py *)

Module ExposureCalculator.

Local Open Scope Q_scope.
Local Open Scope string_scope.

(** Standard full-stop values. *)
Definition ISO_VALUES : list Q :=
  [50; 100; 200; 400; 800; 1600; 3200; 6400; 12800; 25600; 51200; 102400].

Definition APERTURE_VALUES : list Q :=
  [1.0; 1.4; 2.0; 2.8; 4.0; 5.6; 8.0; 11.0; 16.0; 22.0; 32.0].

Definition SHUTTER_SPEEDS : list string :=
  ["512"; "256"; "128"; "64"; "30"; "15"; "8"; "4"; "2"; "1"; "1/2"; "1/4";
   "1/8"; "1/15"; "1/30"; "1/60"; "1/125"; "1/250"; "1/500"; "1/1000";
   "1/2000"; "1/4000"; "1/8000"].

(** Third-stop values. *)
Definition ISO_VALUES_THIRD : list Q :=
  [50; 64; 80; 100; 125; 160; 200; 250; 320; 400; 500; 640; 800; 1000; 1250;
   1600; 2000; 2500; 3200; 4000; 5000; 6400; 8000; 10000; 12800; 16000;
   20000; 25600; 32000; 40000; 51200; 64000; 80000; 102400].

Definition APERTURE_VALUES_THIRD : list Q :=
  [1.0; 1.1; 1.2; 1.4; 1.6; 1.8; 2.0; 2.2; 2.5; 2.8; 3.2; 3.5; 4.0; 4.5; 5.0;
   5.6; 6.3; 7.1; 8.0; 9.0; 10.0; 11.0; 13.0; 14.0; 16.0; 18.0; 20.0; 22.0;
   25.0; 29.0; 32.0].

Definition SHUTTER_SPEEDS_THIRD : list string :=
  ["512"; "400"; "320"; "256"; "200"; "160"; "128"; "100"; "80"; "64"; "50";
   "40"; "30"; "25"; "20"; "15"; "13"; "10"; "8"; "6"; "5"; "4"; "3.2";
   "2.5"; "2"; "1.6"; "1.3"; "1"; "0.8"; "0.6"; "0.5"; "0.4"; "0.3"; "1/4";
   "1/5"; "1/6"; "1/8"; "1/10"; "1/13"; "1/15"; "1/20"; "1/25"; "1/30";
   "1/40"; "1/50"; "1/60"; "1/80"; "1/100"; "1/125"; "1/160"; "1/200";
   "1/250"; "1/320"; "1/400"; "1/500"; "1/640"; "1/800"; "1/1000"; "1/1250";
   "1/1600"; "1/2000"; "1/2500"; "1/3200"; "1/4000"; "1/5000"; "1/6400";
   "1/8000"].

(** [x in table] on numbers ([==]) and on strings. *)
Definition in_Q (x : Q) (table : list Q) : bool := existsb (Qeq_bool x) table.
Definition in_str (x : string) (table : list string) : bool :=
  existsb (String.eqb x) table.

(** The conversion of a shutter speed to seconds that the module repeats
    wherever it reads one:
<<
    if "/" in s: parts = s.split("/"); float(parts[0]) / float(parts[1])
    else:        float(s)
>>
    [None] stands for the exception ([ValueError], [ZeroDivisionError]). *)
Definition shutter_seconds (s : string) : option Q :=
  if Py.contains "/" s then
    match Py.split "/" s with
    | p0 :: p1 :: _ =>
        match Py.float p0, Py.float p1 with
        | Some n, Some d => if Qeq_bool d 0 then None else Some (n / d)
        | _, _ => None
        end
    | _ => None
    end
  else Py.float s.

Definition log2 (x : R) : R := (ln x / ln 2)%R.

(** The argument of [math.log2] in [calculate_ev]; [None] when the
    division raises. *)
Definition ev_argument (iso aperture : Q) (shutter_speed : string) : option Q :=
  match shutter_seconds shutter_speed with
  | None => None
  | Some secs =>
      let den := secs * iso in
      if Qeq_bool den 0 then None
      else Some (Qred ((aperture * aperture * 100) / den))
  end.

(** [calculate_ev]: [None] is the [None] the [except] branch returns;
    [math.log2] raises on an argument that is not positive. *)
Definition calculate_ev (iso aperture : Q) (shutter_speed : string) : option R :=
  match ev_argument iso aperture shutter_speed with
  | None => None
  | Some x => if Qle_bool x 0 then None else Some (log2 (Q2R x))
  end.

(** [_find_closest_shutter_speed]; the table it searches is the full-stop
    one.  [None] stands for an exception, which the constant table never
    causes. *)
Definition speeds_in_seconds (table : list string) : option (list Q) :=
  fold_right (fun speed acc =>
                match shutter_seconds speed, acc with
                | Some q, Some l => Some (q :: l)
                | _, _ => None
                end) (Some []) table.

Definition _find_closest_shutter_speed {F : Type} `{PyFloat F} (seconds : F)
  : option string :=
  match speeds_in_seconds SHUTTER_SPEEDS with
  | None => None
  | Some secs =>
      match Py.min_by flt
              (fun i => fabs (fsub (of_Q (List.nth i secs 0)) seconds))
              (seq 0 (List.length secs)) with
      | Some closest_idx => nth_error SHUTTER_SPEEDS closest_idx
      | None => None
      end
  end.

(** [min(table, key=lambda x: abs(x - target))] *)
Definition closest {F : Type} `{PyFloat F} (table : list Q) (target : F)
  : option Q :=
  Py.min_by flt (fun x => fabs (fsub (of_Q x) target)) table.

Record settings : Type := mk_settings {
  st_iso : Q;
  st_aperture : Q;
  st_shutter_speed : string;
  st_display_shutter : string
}.

(** Float division: [None] is [ZeroDivisionError]. *)
Definition rdiv (a b : R) : option R :=
  if Req_dec_T b 0 then None else Some (a / b)%R.

(** [math.sqrt]: [None] is the [ValueError] on a negative argument. *)
Definition rsqrt (a : R) : option R :=
  if Rlt_dec a 0 then None else Some (sqrt a).

Definition pow2 (ev : R) : R := Rpower 2 ev.

(** [get_settings_for_ev]; [None] is the [None] of the [except] branch. *)
Definition get_settings_for_ev (ev : R) (iso : Q) (priority : string)
    (preferred_aperture : Q) : option settings :=
  if String.eqb priority "aperture" then
    match closest APERTURE_VALUES preferred_aperture with
    | None => None
    | Some aperture =>
        match rdiv (Q2R aperture * Q2R aperture * 100)
                   (Q2R iso * pow2 ev) with
        | None => None
        | Some secs =>
            (* the calibration factor for exposures over 30 s is 1.0 *)
            let secs := if Rlt_dec 30 secs then (secs * 1)%R else secs in
            match _find_closest_shutter_speed secs with
            | None => None
            | Some shutter_speed =>
                Some (mk_settings iso aperture shutter_speed shutter_speed)
            end
        end
    end
  else if String.eqb priority "shutter" then
    let preferred_shutter := "1/60" in
    match shutter_seconds preferred_shutter with
    | None => None
    | Some preferred_seconds =>
        match rsqrt (Q2R iso * Q2R preferred_seconds * pow2 ev / 100) with
        | None => None
        | Some aperture_value =>
            match closest APERTURE_VALUES aperture_value with
            | None => None
            | Some aperture =>
                Some (mk_settings iso aperture preferred_shutter
                        preferred_shutter)
            end
        end
    end
  else
    let aperture := 8.0 in
    let shutter_speed := "1/125" in
    match shutter_seconds shutter_speed with
    | None => None
    | Some secs =>
        match rdiv (Q2R aperture * Q2R aperture * 100)
                   (Q2R secs * pow2 ev) with
        | None => None
        | Some iso_value =>
            match closest ISO_VALUES iso_value with
            | None => None
            | Some iso' =>
                Some (mk_settings iso' aperture shutter_speed shutter_speed)
            end
        end
    end.

(** [adjust_exposure] *)
Definition adjust_exposure (s : settings) (ev_change : R) (priority : string)
  : option settings :=
  match calculate_ev (st_iso s) (st_aperture s) (st_shutter_speed s) with
  | None => None
  | Some current_ev =>
      get_settings_for_ev (current_ev - ev_change) (st_iso s) priority
        (st_aperture s)
  end.

(** The name of a generated bracket; the text [f"Under {d:.1f}EV"] is kept
    as its constructor and its number. *)
Inductive bracket_name : Type :=
| Under (ev_diff : R)
| Over (abs_ev_diff : R)
| Base_Exposure.

Record ev_bracket : Type := mk_ev_bracket {
  eb_settings : settings;
  eb_name : bracket_name;
  eb_ev_diff : R
}.

(** The ladder of [generate_brackets_by_ev]. *)
Definition start_ev (base_ev ev_steps : R) (num_brackets : Z) : R :=
  if (num_brackets mod 2 =? 1)%Z then
    (base_ev + ev_steps * IZR (num_brackets / 2))%R
  else
    (base_ev + ev_steps * IZR ((num_brackets - 1) / 2) + ev_steps / 2)%R.

Definition ev_values (base_ev ev_steps : R) (num_brackets : Z) : list R :=
  map (fun i => (start_ev base_ev ev_steps num_brackets - IZR i * ev_steps)%R)
      (Py.range num_brackets).

Definition name_of (ev_diff : R) : bracket_name :=
  if Rlt_dec 0 ev_diff then Under ev_diff
  else if Rlt_dec ev_diff 0 then Over (Rabs ev_diff)
  else Base_Exposure.

Fixpoint brackets_for (base_ev : R) (iso : Q) (priority : string)
    (aperture : Q) (evs : list R) : list ev_bracket :=
  match evs with
  | [] => []
  | ev :: evs' =>
      match get_settings_for_ev ev iso priority aperture with
      | Some bracket_settings =>
          let ev_diff := (base_ev - ev)%R in
          mk_ev_bracket bracket_settings (name_of ev_diff) ev_diff
            :: brackets_for base_ev iso priority aperture evs'
      | None => brackets_for base_ev iso priority aperture evs'
      end
  end.

(** [generate_brackets_by_ev]; [base_settings] is read at its three keys. *)
Definition generate_brackets_by_ev (iso aperture : Q) (shutter_speed : string)
    (ev_steps : R) (num_brackets : Z) (priority : string) : list ev_bracket :=
  match calculate_ev iso aperture shutter_speed with
  | None => []
  | Some base_ev =>
      brackets_for base_ev iso priority aperture
        (ev_values base_ev ev_steps num_brackets)
  end.


(** One turn of the loop of [generate_brackets_direct] on the dictionary
    [b]: the dictionary as the turn leaves it, and how the turn ends. *)
Inductive verdict : Type :=
| Accept   (* appended to [validated_brackets] *)
| Skip     (* [continue] *)
| Raise.   (* an exception reaches the outer [except] *)

Definition validate_bracket (b : bracket) : bracket * verdict :=
  match b_iso b, b_aperture b, b_shutter_speed b with
  | Some iso, Some aperture, Some shutter_speed =>
      match (if in_Q iso ISO_VALUES_THIRD then Some iso
             else closest ISO_VALUES_THIRD iso) with
      | None => (b, Raise)
      | Some iso =>
          let b := set_iso b iso in
          match (if in_Q aperture APERTURE_VALUES_THIRD then Some aperture
                 else closest APERTURE_VALUES_THIRD aperture) with
          | None => (b, Raise)
          | Some aperture =>
              let b := set_aperture b aperture in
              match (if in_str shutter_speed SHUTTER_SPEEDS_THIRD
                     then Some shutter_speed
                     else match shutter_seconds shutter_speed with
                          | Some seconds => _find_closest_shutter_speed seconds
                          | None => None
                          end) with
              | None => (b, Skip)
              | Some shutter_speed =>
                  let b := set_shutter_speed b shutter_speed in
                  match calculate_ev iso aperture shutter_speed with
                  | Some ev => (set_ev b ev, Accept)
                  | None => (b, Accept)
                  end
              end
          end
      end
  | _, _, _ => (b, Skip)
  end.

(** [generate_brackets_direct]: the store after the call and the list
    returned.  The loop writes into the dictionary each reference names. *)
Fixpoint direct_loop (h : heap) (brackets_data validated : list ref)
  : heap * list ref :=
  match brackets_data with
  | [] => (h, validated)
  | r :: rest =>
      let '(b, v) := validate_bracket (h r) in
      let h := upd h r b in
      match v with
      | Accept => direct_loop h rest (validated ++ [r])
      | Skip => direct_loop h rest validated
      | Raise => (h, [])
      end
  end.

Definition generate_brackets_direct (h : heap) (brackets_data : list ref)
  : heap * list ref :=
  direct_loop h brackets_data [].

(** The nearest entry of the third-stop shutter table, as the design
    document words the snapping of a directly specified shutter speed. *)
Definition spec_closest_third_stop_shutter (seconds : Q) : option string :=
  match speeds_in_seconds SHUTTER_SPEEDS_THIRD with
  | None => None
  | Some secs =>
      match Py.min_by flt
              (fun i => fabs (fsub (of_Q (List.nth i secs 0)) seconds))
              (seq 0 (List.length secs)) with
      | Some closest_idx => nth_error SHUTTER_SPEEDS_THIRD closest_idx
      | None => None
      end
  end.

End ExposureCalculator.

(* ------------------------------------------------------------------ *)
(** ** camera/capture_controller.py *)

Module CaptureController.

Local Open Scope string_scope.
Local Open Scope Z_scope.

(** *** The plan and the session record *)

Inductive status : Type :=
| initializing | running | stopping | stopped | downloading | completed
| error.

Definition status_eqb (a b : status) : bool :=
  match a, b with
  | initializing, initializing | running, running | stopping, stopping
  | stopped, stopped | downloading, downloading | completed, completed
  | error, error => true
  | _, _ => false
  end.

Record focus_stack_cfg : Type := mk_focus_stack {
  fs_enabled : option bool;
  fs_steps : option Z;
  fs_step_size : option Z;
  fs_speed : option Z;
  fs_direction : option string
}.

Record capture_data : Type := mk_capture_data {
  capture_mode : option string;
  save_directory : option string;
  brackets : option (list bracket);
  focus_stack : option focus_stack_cfg
}.

(** [d.get(key, default)] *)
Definition get {A : Type} (v : option A) (default : A) : A :=
  match v with
  | Some a => a
  | None => default
  end.

(** [capture_data.get('focus_stack', {}).get(key, default)] *)
Definition fs_get {A : Type} (d : capture_data)
    (key : focus_stack_cfg -> option A) (default : A) : A :=
  match focus_stack d with
  | Some fs => get (key fs) default
  | None => default
  end.

(** [_calculate_total_frames] *)
Definition _calculate_total_frames (d : capture_data) : Z :=
  let focus_stack_enabled := fs_get d fs_enabled false in
  let focus_stack_steps := fs_get d fs_steps 10 in
  fold_left
    (fun total_frames b =>
       let frames_in_bracket := get (b_frames b) 0 in
       if focus_stack_enabled
       then total_frames + frames_in_bracket * (focus_stack_steps + 1)
       else total_frames + frames_in_bracket)
    (get (brackets d) []) 0.

Record progress : Type := mk_progress {
  current_bracket : Z;
  total_brackets : Z;
  current_frame : Z;
  total_frames : Z;
  completed_frames : Z;
  failed_frames : Z
}.

(** Exceptions that can cross the body of the worker, and the entries of
    the [errors] list; the text of a message is kept as its constructor and
    the values formatted into it. *)
Inductive exn : Type :=
| OSError
| UnboundLocalError (name : string).

Inductive err : Type :=
| Failed_to_start_capture_session
| Failed_to_apply_settings (bracket_no : Z) (message : string)
| Failed_to_take_picture (frame_no : Z) (focus_no : option Z)
    (bracket_no : Z) (message : string)
| Failed_to_adjust_focus (message : string)
| Failed_to_start_session_for_download
| Failed_to_download_images (message : string)
| Error_executing_capture (e : exn).

Record capture_info : Type := mk_capture_info {
  id : string;
  start_time : string;
  status_of : status;
  data : capture_data;
  progress_of : progress;
  results : list string;
  errors : list err;
  end_time : option string;
  images_before_capture : option Z
}.

Definition with_status (s : status) (ci : capture_info) : capture_info :=
  mk_capture_info (id ci) (start_time ci) s (data ci) (progress_of ci)
    (results ci) (errors ci) (end_time ci) (images_before_capture ci).

Definition with_progress (p : progress) (ci : capture_info) : capture_info :=
  mk_capture_info (id ci) (start_time ci) (status_of ci) (data ci) p
    (results ci) (errors ci) (end_time ci) (images_before_capture ci).

Definition with_results (r : list string) (ci : capture_info) : capture_info :=
  mk_capture_info (id ci) (start_time ci) (status_of ci) (data ci)
    (progress_of ci) r (errors ci) (end_time ci) (images_before_capture ci).

Definition with_error (e : err) (ci : capture_info) : capture_info :=
  mk_capture_info (id ci) (start_time ci) (status_of ci) (data ci)
    (progress_of ci) (results ci) (errors ci ++ [e]) (end_time ci)
    (images_before_capture ci).

Definition with_end_time (t : string) (ci : capture_info) : capture_info :=
  mk_capture_info (id ci) (start_time ci) (status_of ci) (data ci)
    (progress_of ci) (results ci) (errors ci) (Some t)
    (images_before_capture ci).

Definition with_images_before (n : Z) (ci : capture_info) : capture_info :=
  mk_capture_info (id ci) (start_time ci) (status_of ci) (data ci)
    (progress_of ci) (results ci) (errors ci) (end_time ci) (Some n).

Definition set_current_bracket (n : Z) (p : progress) : progress :=
  mk_progress n (total_brackets p) (current_frame p) (total_frames p)
    (completed_frames p) (failed_frames p).

Definition set_current_frame (n : Z) (p : progress) : progress :=
  mk_progress (current_bracket p) (total_brackets p) n (total_frames p)
    (completed_frames p) (failed_frames p).

Definition incr_completed (p : progress) : progress :=
  mk_progress (current_bracket p) (total_brackets p) (current_frame p)
    (total_frames p) (completed_frames p + 1) (failed_frames p).

Definition incr_failed (p : progress) : progress :=
  mk_progress (current_bracket p) (total_brackets p) (current_frame p)
    (total_frames p) (completed_frames p) (failed_frames p + 1).

(** The record [start_capture] stores for a new session. *)
Definition new_capture_info (capture_id now : string) (d : capture_data)
  : capture_info :=
  mk_capture_info capture_id now initializing d
    (mk_progress 0 (Z.of_nat (List.length (get (brackets d) []))) 0
       (_calculate_total_frames d) 0 0)
    [] [] None None.

(** *** The collaborators *)

(** The settings dictionary handed to [apply_settings]. *)
Record device_settings : Type := mk_device_settings {
  ds_iso : option Q;
  ds_aperture : option Q;
  ds_shutter_speed : option string;
  ds_additional : list (string * string)
}.

(** The record [_save_capture_info] writes. *)
Record save_info : Type := mk_save_info {
  si_id : string;
  si_start_time : string;
  si_end_time : string;
  si_status : status;
  si_capture_mode : string;
  si_brackets : list bracket;
  si_progress : progress;
  si_errors : list err;
  si_version : string
}.

(** What the worker does to the outside, in the order it does it. *)
Inductive event : Type :=
| MakeDirs (dir : string) (ok : bool)
| StartSession (ok : bool)
| CountImages (n : option Z)
| SetupDownloadHandler (dir : string)
| ApplySettings (s : device_settings) (ok : bool)
| TakePicture (save_to_camera : bool) (ok : bool)
| AdjustFocus (step_value : Z) (ok : bool)
| BulkDownload (dir : string) (max_images : Z) (ok : bool)
| SaveCaptureInfo (dir : string) (si : save_info)
| SendUpdate (s : status) (p : progress).

(** The camera interface, the file system and the clock, over a state [C]
    of their own.  An operation that the source guards with [try] answers
    [None] or [false] when it raises.  [stop_requested] tells whether
    another thread called [stop_capture] while the worker was blocked in
    the operation that led to this state. *)
Record Env (C : Type) : Type := mk_env {
  makedirs : string -> C -> bool * C;
  start_capture_session : C -> bool * C;
  get_image_count_on_camera : C -> option Z * C;
  setup_download_handler : string -> C -> C;
  apply_settings : device_settings -> C -> (bool * string) * C;
  take_picture : bool -> C -> (bool * string) * C;
  adjust_focus : Z -> C -> (bool * string) * C;
  bulk_download : string -> Z -> C -> (bool * string * list string) * C;
  write_capture_info : string -> save_info -> C -> C;
  now : C -> string;
  stop_requested : C -> bool
}.

(** The branch of [stop_capture] for a session that exists: the answer and
    the record afterwards. *)
Definition request_stop (ci : capture_info) : bool * capture_info :=
  if status_eqb (status_of ci) running
  then (true, with_status stopping ci)
  else (false, ci).

(** The registry [active_captures]. *)
Definition registry : Type := string -> option capture_info.

Definition reg_set (reg : registry) (k : string) (ci : capture_info)
  : registry :=
  fun k' => if String.eqb k' k then Some ci else reg k'.

(** [start_capture]: the id and the time come from [uuid4] and the clock;
    the worker thread it starts is [_execute_capture_sequence] below. *)
Definition start_capture (reg : registry) (capture_id now : string)
    (d : capture_data) : string * registry :=
  (capture_id, reg_set reg capture_id (new_capture_info capture_id now d)).

(** [stop_capture]: the answer, the registry afterwards and the updates
    sent. *)
Definition stop_capture (reg : registry) (capture_id : string)
  : bool * registry * list event :=
  match reg capture_id with
  | Some ci =>
      let '(ok, ci') := request_stop ci in
      if ok
      then (true, reg_set reg capture_id ci',
            [SendUpdate (status_of ci') (progress_of ci')])
      else (false, reg, [])
  | None => (false, reg, [])
  end.

(** [get_capture_status]: [None] is the not-found dictionary. *)
Definition get_capture_status (reg : registry) (capture_id : string)
  : option capture_info :=
  reg capture_id.

(** *** The worker *)

Section Worker.

Context {C : Type} (E : Env C).

(** The state the worker runs in: the session record (the object the
    registry holds), the collaborators, what was done to them so far, and
    every value the [progress] dictionary has had, oldest first. *)
Record world : Type := mk_world {
  info : capture_info;
  env : C;
  trace : list event;
  writes : list progress
}.

(** How a piece of the body ends: it falls through with a value, the
    function returns, or an exception is raised. *)
Inductive outcome (A : Type) : Type :=
| Normal (a : A)
| Return
| Raised (e : exn).

Arguments Return {A}.
Arguments Raised {A} e.

Definition M (A : Type) : Type := world -> outcome A * world.

Definition ret {A : Type} (a : A) : M A := fun w => (Normal a, w).

Definition bind {A B : Type} (m : M A) (f : A -> M B) : M B :=
  fun w =>
    match m w with
    | (Normal a, w') => f a w'
    | (Return, w') => (Return, w')
    | (Raised e, w') => (Raised e, w')
    end.

Notation "x <- m ;; k" := (bind m (fun x => k))
  (at level 61, m at next level, right associativity).
Notation "m ;; k" := (bind m (fun _ => k))
  (at level 61, right associativity).

Definition return_ {A : Type} : M A := fun w => (Return, w).
Definition raise {A : Type} (e : exn) : M A := fun w => (Raised e, w).

Definition get_info : M capture_info := fun w => (Normal (info w), w).

Definition modify (f : capture_info -> capture_info) : M unit :=
  fun w => (Normal tt, mk_world (f (info w)) (env w) (trace w) (writes w)).

Definition set_status (s : status) : M unit := modify (with_status s).
Definition append_error (e : err) : M unit := modify (with_error e).
Definition set_results (r : list string) : M unit := modify (with_results r).

Definition set_end_time : M unit :=
  fun w => modify (with_end_time (now E (env w))) w.

(** An assignment into [capture_info['progress']]. *)
Definition set_progress (f : progress -> progress) : M unit :=
  fun w =>
    let p := f (progress_of (info w)) in
    (Normal tt,
     mk_world (with_progress p (info w)) (env w) (trace w) (writes w ++ [p])).

Definition emit (e : event) : M unit :=
  fun w => (Normal tt, mk_world (info w) (env w) (trace w ++ [e]) (writes w)).

(** [_send_update] *)
Definition _send_update : M unit :=
  fun w => emit (SendUpdate (status_of (info w)) (progress_of (info w))) w.

(** The other thread: when it called [stop_capture] meanwhile, the record
    the worker holds has been flipped and an update was sent. *)
Definition poll_stop : M unit :=
  fun w =>
    if stop_requested E (env w) then
      let '(ok, ci) := request_stop (info w) in
      if ok
      then (Normal tt,
            mk_world ci (env w)
              (trace w ++ [SendUpdate (status_of ci) (progress_of ci)])
              (writes w))
      else (Normal tt, w)
    else (Normal tt, w).

(** A call that blocks the worker. *)
Definition blocking {A : Type} (op : C -> A * C) (ev : A -> event) : M A :=
  fun w =>
    let '(a, c) := op (env w) in
    (poll_stop ;; ret a)
      (mk_world (info w) c (trace w ++ [ev a]) (writes w)).

Fixpoint for_each {A : Type} (l : list A) (body : A -> M unit) : M unit :=
  match l with
  | [] => ret tt
  | x :: l' => body x ;; for_each l' body
  end.

(** [enumerate(l)] *)
Definition enumerate {A : Type} (l : list A) : list (Z * A) :=
  combine (Py.range (Z.of_nat (List.length l))) l.

(** One exposure and its bookkeeping.  The error text is formatted after
    [failed_frames] is counted; [inl] is the exception that formatting
    raises. *)
Definition shoot (fast_mode : bool) (error_msg : string -> exn + err)
  : M unit :=
  r <- blocking (take_picture E fast_mode)
         (fun r => TakePicture fast_mode (fst r)) ;;
  (if fst r then set_progress incr_completed
   else
     set_progress incr_failed ;;
     match error_msg (snd r) with
     | inr e => append_error e
     | inl x => raise x
     end) ;;
  _send_update.

Definition step_value_of (step_direction focus_stack_speed : Z) : Z :=
  if 0 <? Z.abs step_direction
  then (if 0 <? step_direction then 1 else -1) * focus_stack_speed
  else step_direction.

(** The loop over the focus positions of one frame, from the positions
    still to visit: it yields [total_movement] and the last value of
    [focus_idx].  Not recursing is the [break]. *)
Fixpoint focus_loop (fast_mode : bool) (bracket_idx frame_idx : Z)
    (focus_stack_steps step_direction focus_stack_speed : Z)
    (positions : list Z) (total_movement : Z) (last_idx : option Z)
  : M (Z * option Z) :=
  match positions with
  | [] => ret (total_movement, last_idx)
  | focus_idx :: rest =>
      shoot fast_mode
        (fun message =>
           inr (Failed_to_take_picture (frame_idx + 1) (Some (focus_idx + 1))
                  (bracket_idx + 1) message)) ;;
      if focus_idx <? focus_stack_steps - 1 then
        let step_value := step_value_of step_direction focus_stack_speed in
        r <- blocking (adjust_focus E step_value)
               (fun r => AdjustFocus step_value (fst r)) ;;
        if negb (fst r) then
          append_error (Failed_to_adjust_focus (snd r)) ;;
          ret (total_movement, Some focus_idx)
        else
          focus_loop fast_mode bracket_idx frame_idx focus_stack_steps
            step_direction focus_stack_speed rest
            (total_movement + step_value) (Some focus_idx)
      else
        focus_loop fast_mode bracket_idx frame_idx focus_stack_steps
          step_direction focus_stack_speed rest total_movement
          (Some focus_idx)
  end.

(** The focus stack of one frame. *)
Definition focus_stack_frame (fast_mode : bool) (d : capture_data)
    (bracket_idx frame_idx : Z) : M unit :=
  let focus_stack_steps := fs_get d fs_steps 10 in
  let focus_stack_step_size := fs_get d fs_step_size 3 in
  let focus_stack_speed := fs_get d fs_speed 2 in
  let focus_stack_direction := fs_get d fs_direction "near" in
  let step_direction :=
    if String.eqb focus_stack_direction "near"
    then focus_stack_step_size else - focus_stack_step_size in
  r <- focus_loop fast_mode bracket_idx frame_idx focus_stack_steps
         step_direction focus_stack_speed (Py.range focus_stack_steps)
         0 None ;;
  let total_movement := fst r in
  let last_idx := snd r in
  (if negb (total_movement =? 0) then
     let reset_value := - total_movement in
     blocking (adjust_focus E reset_value)
       (fun r => AdjustFocus reset_value (fst r)) ;;
     ret tt
   else ret tt) ;;
  shoot fast_mode
    (fun message =>
       match last_idx with
       | Some focus_idx =>
           inr (Failed_to_take_picture (frame_idx + 1) (Some (focus_idx + 1))
                  (bracket_idx + 1) message)
       | None => inl (UnboundLocalError "focus_idx")
       end) ;;
  blocking (adjust_focus E 0) (fun r => AdjustFocus 0 (fst r)) ;;
  ret tt.

(** One turn of the loop over the frames of a bracket. *)
Definition frame_body (fast_mode : bool) (d : capture_data)
    (bracket_idx frame_idx : Z) : M unit :=
  ci <- get_info ;;
  if status_eqb (status_of ci) stopping then
    set_status stopped ;;
    _send_update ;;
    return_
  else
    set_progress (set_current_frame (frame_idx + 1)) ;;
    _send_update ;;
    if fs_get d fs_enabled false
    then focus_stack_frame fast_mode d bracket_idx frame_idx
    else
      shoot fast_mode
        (fun message =>
           inr (Failed_to_take_picture (frame_idx + 1) None
                  (bracket_idx + 1) message)).

(** One turn of the loop over the brackets. *)
Definition bracket_body (fast_mode : bool) (d : capture_data)
    (ib : Z * bracket) : M unit :=
  let '(bracket_idx, b) := ib in
  set_progress (set_current_bracket (bracket_idx + 1)) ;;
  set_progress (set_current_frame 0) ;;
  _send_update ;;
  let settings :=
    mk_device_settings (b_iso b) (b_aperture b) (b_shutter_speed b)
      (get (b_additional_settings b) []) in
  r <- blocking (apply_settings E settings)
         (fun r => ApplySettings settings (fst r)) ;;
  if negb (fst r) then
    append_error (Failed_to_apply_settings (bracket_idx + 1) (snd r)) ;;
    _send_update
  else
    let frames := get (b_frames b) 0 in
    for_each (Py.range frames) (frame_body fast_mode d bracket_idx).

(** The bulk download of fast mode. *)
Definition bulk_download_phase (save_dir : string) : M unit :=
  set_status downloading ;;
  _send_update ;;
  ok <- blocking (start_capture_session E) StartSession ;;
  (if negb ok then append_error Failed_to_start_session_for_download
   else ret tt) ;;
  counted <- blocking (get_image_count_on_camera E) CountImages ;;
  match counted with
  | Some images_after =>
      ci <- get_info ;;
      let images_before := get (images_before_capture ci) 0 in
      let new_images := images_after - images_before in
      if new_images <=? 0 then
        set_status completed ;;
        set_end_time ;;
        _send_update ;;
        return_
      else
        let new_images := images_after - images_before in
        if 0 <? new_images then
          r <- blocking (bulk_download E save_dir new_images)
                 (fun r => BulkDownload save_dir new_images (fst (fst r))) ;;
          let '(success, message, downloaded_files) := r in
          if success then set_results downloaded_files
          else append_error (Failed_to_download_images message)
        else ret tt
  | None =>
      (* The handler of the try sets new_images = 0; the statement after
         the try then reads images_after, which was never bound. *)
      raise (UnboundLocalError "images_after")
  end.

(** [_save_capture_info] *)
Definition _save_capture_info (save_dir : string) : M unit :=
  fun w =>
    let ci := info w in
    let si :=
      mk_save_info (id ci) (start_time ci) (now E (env w)) (status_of ci)
        (get (capture_mode (data ci)) "standard")
        (get (brackets (data ci)) []) (progress_of ci) (errors ci) "1.1" in
    (blocking (fun c => (tt, write_capture_info E save_dir si c))
       (fun _ => SaveCaptureInfo save_dir si)) w.

(** The body of the [try] of [_execute_capture_sequence], from the point
    where the save directory is known. *)
Definition capture_into (capture_data : capture_data) (save_dir : string)
  : M unit :=
  made <- blocking (makedirs E save_dir) (MakeDirs save_dir) ;;
  (if made then ret tt else raise OSError) ;;
  let fast_mode :=
    String.eqb (get (capture_mode capture_data) "standard") "fast" in
  started <- blocking (start_capture_session E) StartSession ;;
  if negb started then
    append_error Failed_to_start_capture_session ;;
    set_status error ;;
    _send_update ;;
    return_
  else
    (if fast_mode then
       counted <- blocking (get_image_count_on_camera E) CountImages ;;
       modify (with_images_before (get counted 0))
     else
       blocking (fun c => (tt, setup_download_handler E save_dir c))
         (fun _ => SetupDownloadHandler save_dir)) ;;
    for_each (enumerate (get (brackets capture_data) []))
      (bracket_body fast_mode capture_data) ;;
    (if fast_mode then bulk_download_phase save_dir else ret tt) ;;
    _save_capture_info save_dir ;;
    set_status completed ;;
    set_end_time ;;
    _send_update.

(** The body of the [try] of [_execute_capture_sequence]; the default
    save directory is named after the time of the call. *)
Definition capture_sequence : M unit :=
  set_status running ;;
  _send_update ;;
  ci <- get_info ;;
  let capture_data := data ci in
  fun w =>
    capture_into capture_data
      (get (save_directory capture_data) ("capture_" ++ now E (env w))%string)
      w.

(** The worker on the session record: the [try] and its handler. *)
Definition worker (w : world) : world :=
  match capture_sequence w with
  | (Raised e, w') =>
      snd ((append_error (Error_executing_capture e) ;;
            set_status error ;;
            set_end_time ;;
            _send_update) w')
  | (_, w') => w'
  end.

(** [_execute_capture_sequence]: nothing happens for an unknown id;
    otherwise the worker runs on the record the registry holds. *)
Definition initial_world (ci : capture_info) (c : C) : world :=
  mk_world ci c [] [progress_of ci].

Definition _execute_capture_sequence (reg : registry) (capture_id : string)
    (c : C) : registry * option world :=
  match reg capture_id with
  | None => (reg, None)
  | Some ci =>
      let w := worker (initial_world ci c) in
      (reg_set reg capture_id (info w), Some w)
  end.

End Worker.

Arguments world : clear implicits.
Arguments M : clear implicits.
Arguments Return {A}.
Arguments Raised {A} e.

(** *** A scripted camera

    A stand-in for the collaborators that answers from a script: each kind
    of call consumes the next answer of its list and succeeds once the list
    is used up; [stop_at] is the number of completed calls after which the
    other thread calls [stop_capture]. *)
Record script : Type := mk_script {
  dirs_ok : bool;
  sessions : list bool;
  counts : list (option Z);
  applies : list bool;
  pictures : list bool;
  moves : list bool;
  download : option (list string);
  stop_at : option nat;
  calls : nat
}.

Definition next {A : Type} (l : list A) (default : A) : A * list A :=
  match l with
  | [] => (default, [])
  | a :: l' => (a, l')
  end.

Definition message_of (ok : bool) : string :=
  if ok then "ok" else "rejected".

Definition scripted : Env script :=
  let tick (c : script) := S (calls c) in
  mk_env
    (fun _ c =>
       (dirs_ok c,
        mk_script (dirs_ok c) (sessions c) (counts c) (applies c)
          (pictures c) (moves c) (download c) (stop_at c) (tick c)))
    (fun c =>
       let '(a, l) := next (sessions c) true in
       (a, mk_script (dirs_ok c) l (counts c) (applies c) (pictures c)
             (moves c) (download c) (stop_at c) (tick c)))
    (fun c =>
       let '(a, l) := next (counts c) (Some 0) in
       (a, mk_script (dirs_ok c) (sessions c) l (applies c) (pictures c)
             (moves c) (download c) (stop_at c) (tick c)))
    (fun _ c =>
       mk_script (dirs_ok c) (sessions c) (counts c) (applies c)
         (pictures c) (moves c) (download c) (stop_at c) (tick c))
    (fun _ c =>
       let '(a, l) := next (applies c) true in
       ((a, message_of a),
        mk_script (dirs_ok c) (sessions c) (counts c) l (pictures c)
          (moves c) (download c) (stop_at c) (tick c)))
    (fun _ c =>
       let '(a, l) := next (pictures c) true in
       ((a, message_of a),
        mk_script (dirs_ok c) (sessions c) (counts c) (applies c) l
          (moves c) (download c) (stop_at c) (tick c)))
    (fun _ c =>
       let '(a, l) := next (moves c) true in
       ((a, message_of a),
        mk_script (dirs_ok c) (sessions c) (counts c) (applies c)
          (pictures c) l (download c) (stop_at c) (tick c)))
    (fun _ _ c =>
       (match download c with
        | Some files => (true, "ok", files)
        | None => (false, "rejected", [])
        end,
        mk_script (dirs_ok c) (sessions c) (counts c) (applies c)
          (pictures c) (moves c) (download c) (stop_at c) (tick c)))
    (fun _ _ c =>
       mk_script (dirs_ok c) (sessions c) (counts c) (applies c)
         (pictures c) (moves c) (download c) (stop_at c) (tick c))
    (fun _ => "now")
    (fun c =>
       match stop_at c with
       | Some n => Nat.eqb (calls c) n
       | None => false
       end).

(** A camera on which everything succeeds. *)
Definition all_ok : script :=
  mk_script true [] [] [] [] [] (Some []) None 0.

(** A plan bracket with the keys of the schema that matter here. *)
Definition plan_bracket (iso aperture : Q) (shutter_speed : string)
    (frames : Z) : bracket :=
  mk_bracket None (Some iso) (Some aperture) (Some shutter_speed)
    (Some frames) None None None.

(** A session as [start_capture] creates it, run by the worker. *)
Definition run {C : Type} (E : Env C) (d : capture_data) (c : C) : world C :=
  worker E (initial_world (new_capture_info "id" "start" d) c).

End CaptureController.

(* ------------------------------------------------------------------ *)
(** ** Vocabulary of the exposure properties *)

Module ExposureSpec.
Import ExposureCalculator.
Local Open Scope string_scope.




Fixpoint index_of (s : string) (l : list string) : option nat :=
  match l with
  | [] => None
  | x :: l' => if String.eqb s x then Some 0%nat
               else option_map S (index_of s l')
  end.

Definition table_seconds (i : nat) : option Q :=
  match nth_error SHUTTER_SPEEDS i with
  | Some s => shutter_seconds s
  | None => None
  end.

(** [returned] is an entry of the full-stop shutter table and [original]
    is no further from it than its two neighbours in the table (the table
    runs from long to short exposures). *)
Definition within_one_step (original returned : string) : bool :=
  match shutter_seconds original, index_of returned SHUTTER_SPEEDS with
  | Some o, Some j =>
      match table_seconds j with
      | Some r =>
          let longer := match table_seconds (Nat.pred j) with
                        | Some x => x | None => r end in
          let shorter := match table_seconds (S j) with
                         | Some x => x | None => r end in
          Qle_bool shorter o && Qle_bool o longer
      | None => false
      end
  | _, _ => false
  end.

End ExposureSpec.

Module DirectSpec.
Import ExposureCalculator.
Local Open Scope string_scope.

(** The three settings of a dictionary are table values: ISO and aperture
    of the third-stop tables, the shutter speed of the third-stop table
    (kept verbatim) or of the full-stop table (what
    [_find_closest_shutter_speed] answers). *)
Definition snapped (b : bracket) : bool :=
  match b_iso b, b_aperture b, b_shutter_speed b with
  | Some i, Some a, Some s =>
      in_Q i ISO_VALUES_THIRD && in_Q a APERTURE_VALUES_THIRD
      && (in_str s SHUTTER_SPEEDS_THIRD || in_str s SHUTTER_SPEEDS)
  | _, _, _ => false
  end.

(** A snapped dictionary that also carries the exposure value of its three
    settings under the key [ev]. *)
Definition validated (b : bracket) : Prop :=
  snapped b = true /\
  exists iso aperture shutter_speed ev,
    b_iso b = Some iso /\ b_aperture b = Some aperture /\
    b_shutter_speed b = Some shutter_speed /\
    calculate_ev iso aperture shutter_speed = Some ev /\
    b_ev b = Some ev.

(** A dictionary the loop skips: a key is missing, or the shutter speed is
    neither in the third-stop table nor a number. *)
Definition rejected (b : bracket) : Prop :=
  b_iso b = None \/ b_aperture b = None \/ b_shutter_speed b = None \/
  exists s, b_shutter_speed b = Some s /\
            in_str s SHUTTER_SPEEDS_THIRD = false /\
            shutter_seconds s = None.

(** A first character with which no text is a number to Python's [float]:
    a letter other than the [i] and the [n] that start the spellings of
    infinity and NaN. *)
Definition not_a_number_start (c : ascii) : bool :=
  let n := nat_of_ascii c in
  (((65 <=? n) && (n <=? 90)) || ((97 <=? n) && (n <=? 122)))%nat
  && negb (existsb (Ascii.eqb c) ["i"; "I"; "n"; "N"]%char).

Definition positive_seconds (s : string) : bool :=
  match shutter_seconds s with
  | Some q => negb (Qle_bool q 0)
  | None => false
  end.

(** A store in which every reference names a dictionary with the given
    settings and no other key. *)
Definition direct_input (iso aperture : Q) (shutter_speed : string) : heap :=
  fun _ =>
    mk_bracket None (Some iso) (Some aperture) (Some shutter_speed)
      None None None None.

End DirectSpec.

(* ------------------------------------------------------------------ *)
(** ** Vocabulary of the controller properties *)

Module ControllerSpec.
Import CaptureController.
Local Open Scope string_scope.
Local Open Scope Z_scope.

(** The sum of [f] over the brackets of a plan. *)
Definition sum_over (f : bracket -> Z) (bs : list bracket) : Z :=
  fold_right (fun b acc => f b + acc) 0 bs.

(** A call to a collaborator, as opposed to a status update. *)
Definition is_call (e : event) : bool :=
  match e with
  | SendUpdate _ _ => false
  | _ => true
  end.

Definition device_calls (t : list event) : list event := filter is_call t.


Definition is_save (e : event) : bool :=
  match e with
  | SaveCaptureInfo _ _ => true
  | _ => false
  end.

(** The signed steps of the focus moves that succeeded, summed. *)
Definition applied_move (e : event) : Z :=
  match e with
  | AdjustFocus v true => v
  | _ => 0
  end.

Definition total_applied (t : list event) : Z :=
  fold_right (fun e acc => applied_move e + acc) 0 t.

Definition is_failed_move (e : event) : bool :=
  match e with
  | AdjustFocus _ false => true
  | _ => false
  end.

(** The fallback triple of the design document. *)
Definition fallback_settings : device_settings :=
  mk_device_settings (Some 100%Q) (Some 8.0%Q) (Some "1/125") [].

(** One write to the progress dictionary that takes nothing back: no
    counter goes down and the totals stay. *)
Definition advances (p q : progress) : Prop :=
  current_bracket p <= current_bracket q /\
  completed_frames p <= completed_frames q /\
  failed_frames p <= failed_frames q /\
  total_brackets p = total_brackets q /\
  total_frames p = total_frames q.

(** The same, and [current_frame] either does not go down or is reset
    to 0. *)
Definition advances_or_resets (p q : progress) : Prop :=
  advances p q /\
  (current_frame p <= current_frame q \/ current_frame q = 0).

(** Every value of a history is related to the one before it. *)
Definition chain (R : progress -> progress -> Prop) (l : list progress)
  : Prop :=
  forall i p q,
    nth_error l i = Some p -> nth_error l (S i) = Some q -> R p q.

(** The histories of writes the loops over the brackets and the frames
    can build, one write at a time.  A history starts with the dictionary
    of a new session.  A bracket starts with a write that raises
    [current_bracket], and the very next write resets [current_frame] to
    0; every other write raises [current_frame] or counts one more
    completed or one more failed frame.  The flag is [true] for a history
    that ends with the write raising [current_bracket], the reset still
    to come. *)
Inductive written : bool -> list progress -> Prop :=
| written_first p : written false [p]
| written_bracket hist p n :
    written false (hist ++ [p]) ->
    current_bracket p < n ->
    written true ((hist ++ [p]) ++ [set_current_bracket n p])
| written_reset hist p :
    written true (hist ++ [p]) ->
    written false ((hist ++ [p]) ++ [set_current_frame 0 p])
| written_frame hist p n :
    written false (hist ++ [p]) ->
    current_frame p < n ->
    written false ((hist ++ [p]) ++ [set_current_frame n p])
| written_completed hist p :
    written false (hist ++ [p]) ->
    written false ((hist ++ [p]) ++ [incr_completed p])
| written_failed hist p :
    written false (hist ++ [p]) ->
    written false ((hist ++ [p]) ++ [incr_failed p]).

(** Every write that raises [current_bracket] is followed at once by the
    reset of [current_frame]. *)
Definition reset_follows_bracket (l : list progress) : Prop :=
  forall i p q,
    nth_error l i = Some p -> nth_error l (S i) = Some q ->
    current_bracket p < current_bracket q ->
    nth_error l (S (S i)) = Some (set_current_frame 0 q).

(** A write that lowers [current_frame] is that reset: it sets
    [current_frame] to 0, changes nothing else, and the write before it
    raised [current_bracket]. *)
Definition lowered_only_by_reset (l : list progress) : Prop :=
  forall i p q,
    nth_error l i = Some p -> nth_error l (S i) = Some q ->
    current_frame q < current_frame p ->
    q = set_current_frame 0 p /\
    (exists k o,
       i = S k /\ nth_error l k = Some o /\
       current_bracket o < current_bracket p).

(** What the flag of [written] says in terms of positions: in a history
    that is not waiting for a reset, every write raising
    [current_bracket] has its reset; in one that is, the last write is
    the one without. *)
Definition resets_in_place (pending : bool) (l : list progress) : Prop :=
  lowered_only_by_reset l /\
  (forall i p q,
     nth_error l i = Some p -> nth_error l (S i) = Some q ->
     current_bracket p < current_bracket q ->
     (if pending then (S (S i) < List.length l)%nat ->
                      nth_error l (S (S i)) = Some (set_current_frame 0 q)
      else nth_error l (S (S i)) = Some (set_current_frame 0 q))) /\
  (pending = true ->
   exists hist o p,
     l = ((hist ++ [o]) ++ [p])%list /\
     current_bracket o < current_bracket p).

(** *** What a piece of the worker did to the collaborators *)

(** From [w] to [w'] the trace grew, and the calls it grew by are [cs]. *)
Definition adds {C : Type} (w w' : world C) (cs : list event) : Prop :=
  exists new, trace w' = (trace w ++ new)%list /\ device_calls new = cs.

(** A call of the loop over the focus positions: an exposure or a move. *)
Definition is_stack_call (e : event) : bool :=
  match e with
  | TakePicture _ _ | AdjustFocus _ _ => true
  | _ => false
  end.

(** Nothing follows a failed move. *)
Definition ends_at_failure (cs : list event) : Prop :=
  forall pre e post,
    cs = (pre ++ e :: post)%list -> is_failed_move e = true -> post = [].

(** *** Assertions on the history of progress writes

    An assertion speaks of the history of writes and of the current
    progress dictionary; a triple says what a piece of the worker
    establishes when it falls through ([Qn]) and when it returns or raises
    ([Qx]). *)
Section Assertions.

Context {C : Type}.

Definition assertion : Type := list progress -> progress -> Prop.

Definition holds (P : assertion) (w : world C) : Prop :=
  P (writes w) (progress_of (info w)).

Definition triple {A : Type} (P : assertion) (m : M C A)
    (Qn Qx : assertion) : Prop :=
  forall w, holds P w ->
    match m w with
    | (Normal _, w') => holds Qn w'
    | (_, w') => holds Qx w'
    end.

(** A piece of the worker that writes nothing to the progress
    dictionary. *)
Definition keeps {A : Type} (m : M C A) : Prop :=
  forall w,
    writes (snd (m w)) = writes w /\
    progress_of (info (snd (m w))) = progress_of (info w).

(** The world a frame iteration leaves when it finds the session
    stopping. *)
Definition stopped_world (w : world C) : world C :=
  mk_world (with_status stopped (info w)) (env w)
    (trace w ++ [SendUpdate stopped (progress_of (info w))]) (writes w).

(** Pieces that call no collaborator. *)
Definition silent {A : Type} (m : M C A) : Prop :=
  forall w, adds w (snd (m w)) [].

End Assertions.

(** The history is a chain of writes that take nothing back, it is one
    the loops can build, and its last value is the current progress
    dictionary. *)
Definition history (pending : bool) : assertion :=
  fun l p =>
    chain advances_or_resets l /\ written pending l /\
    exists hist, l = (hist ++ [p])%list.

Definition good : assertion := history false.

(** The same, with [current_bracket] and [current_frame] bounded. *)
Definition bounded (bmax fmax : Z) : assertion :=
  fun l p => good l p /\ current_bracket p <= bmax /\ current_frame p <= fmax.

Definition bracket_bounded (bmax : Z) : assertion :=
  fun l p => good l p /\ current_bracket p <= bmax.

(** Between the two writes at the start of a bracket. *)
Definition bracket_started (bmax : Z) : assertion :=
  fun l p => history true l p /\ current_bracket p <= bmax.

(** A fast-mode plan of one bracket of one frame with a focus stack of
    four positions, and a standard plan of two brackets of one frame. *)
Definition fast_stack_plan : capture_data :=
  mk_capture_data (Some "fast") (Some "dir")
    (Some [plan_bracket 100 8.0 "1/125" 1])
    (Some (mk_focus_stack (Some true) (Some 4) (Some 3) None (Some "near"))).

Definition two_bracket_plan : capture_data :=
  mk_capture_data (Some "standard") (Some "dir")
    (Some [plan_bracket 400 5.6 "1/250" 1; plan_bracket 100 8.0 "1/125" 1])
    None.


(** A camera with five images on the card whose second count, the one of
    the download phase, raises; and one whose two counts are equal. *)
Definition count_fails_after : script :=
  mk_script true [] [Some 5; None] [] [] [] (Some []) None 0.

Definition no_new_images : script :=
  mk_script true [] [Some 5; Some 5] [] [] [] (Some []) None 0.

Definition download_fails : script :=
  mk_script true [] [Some 5; Some 10] [] [] [] None None 0.

End ControllerSpec.
(* ------------------------------------------------------------------ *)
(** ** Vocabulary of the worker invariants *)

Module WorkerSpec.
Import CaptureController ControllerSpec.
Local Open Scope string_scope.
Local Open Scope Z_scope.

(** The exposures of a trace that succeeded ([ok = true]) or failed. *)
Definition is_picture (ok : bool) (e : event) : bool :=
  match e with
  | TakePicture _ ok' => Bool.eqb ok ok'
  | _ => false
  end.

Definition pictures_taken (ok : bool) (t : list event) : Z :=
  Z.of_nat (List.length (filter (is_picture ok) t)).

(** The statuses the monitoring loop of a caller waits for. *)
Definition terminal (s : status) : bool :=
  match s with
  | completed | error | stopped => true
  | _ => false
  end.

(** The update a frame iteration sends when it finds the session
    stopping. *)
Definition is_stopped_update (e : event) : bool :=
  match e with
  | SendUpdate stopped _ => true
  | _ => false
  end.

(** The calls that only fast mode makes. *)
Definition fast_only (e : event) : bool :=
  match e with
  | CountImages _ | BulkDownload _ _ _ => true
  | _ => false
  end.

(** The status written into a summary record is not [completed]. *)
Definition saved_before_completion (e : event) : bool :=
  match e with
  | SaveCaptureInfo _ si => negb (status_eqb (si_status si) completed)
  | _ => true
  end.

(** The events that are neither an exposure nor the writing of the
    summary record; counting and downloading belong to fast mode. *)
Definition plain_event (fast_mode : bool) (e : event) : bool :=
  match e with
  | TakePicture _ _ | SaveCaptureInfo _ _ => false
  | CountImages _ | BulkDownload _ _ _ => fast_mode
  | _ => true
  end.

Section Worlds.

Context {C : Type}.

(** A change of the session record, and a call to a collaborator. *)
Definition upd_info (f : capture_info -> capture_info) (w : world C)
  : world C :=
  mk_world (f (info w)) (env w) (trace w) (writes w).

Definition log (c : C) (e : event) (w : world C) : world C :=
  mk_world (info w) c (trace w ++ [e]) (writes w).

(** What a piece of the worker establishes from [P]: [Qn] when it falls
    through, [Qx] when it returns or raises. *)
Definition hoare {A : Type} (P : world C -> Prop) (m : M C A)
    (Qn Qx : world C -> Prop) : Prop :=
  forall w, P w ->
    match m w with
    | (Normal _, w') => Qn w'
    | (_, w') => Qx w'
    end.

(** The same with the three ways out kept apart: [Qn] when the piece
    falls through, [Qr] when it makes the worker return, [Qe] when it
    raises. *)
Definition ends {A : Type} (P : world C -> Prop) (m : M C A)
    (Qn Qr Qe : world C -> Prop) : Prop :=
  forall w, P w ->
    match m w with
    | (Normal _, w') => Qn w'
    | (Return, w') => Qr w'
    | (Raised _, w') => Qe w'
    end.

(** The worker has not stopped: the status is not [stopped] and no update
    ever said so. *)
Definition not_stopped (w : world C) : Prop :=
  status_of (info w) <> stopped /\
  forallb (fun e => negb (is_stopped_update e)) (trace w) = true.

(** The worker has stopped and did nothing after: the status is
    [stopped], and the update that said so is the last entry of the trace,
    the only one of its kind, and carries the progress as it is now. *)
Definition stopped_last (w : world C) : Prop :=
  status_of (info w) = stopped /\
  exists before,
    trace w
    = (before ++ [SendUpdate stopped (progress_of (info w))])%list /\
    forallb (fun e => negb (is_stopped_update e)) before = true.

(** A piece of the worker that leaves the session not stopped, unless it
    makes the worker return right after it stopped. *)
Definition stop_is_final {A : Type} (m : M C A) : Prop :=
  ends not_stopped m not_stopped
    (fun w => not_stopped w \/ stopped_last w) not_stopped.

(** The two counters of the progress dictionary agree with the exposures
    made so far. *)
Definition accounted (w : world C) : Prop :=
  completed_frames (progress_of (info w)) = pictures_taken true (trace w) /\
  failed_frames (progress_of (info w)) = pictures_taken false (trace w).

(** A session that keeps away from the card: nothing counted, nothing
    downloaded, no result recorded. *)
Definition off_the_card (w : world C) : Prop :=
  results (info w) = [] /\ images_before_capture (info w) = None /\
  forallb (fun e => negb (fast_only e)) (trace w) = true.

(** No summary record written so far carries the status [completed]. *)
Definition saves_precede_completion (w : world C) : Prop :=
  forallb saved_before_completion (trace w) = true.

(** The summary record [_save_capture_info] builds in [w]. *)
Definition summary_record (E : Env C) (w : world C) : save_info :=
  mk_save_info (id (info w)) (start_time (info w)) (now E (env w))
    (status_of (info w)) (get (capture_mode (data (info w))) "standard")
    (get (brackets (data (info w))) []) (progress_of (info w))
    (errors (info w)) "1.1".

(** The session is not completed and no summary record says so. *)
Definition not_yet_completed (w : world C) : Prop :=
  status_of (info w) <> completed /\ saves_precede_completion w.

(** A piece of the worker that, when it makes the worker return, leaves a
    terminal status; and one that, when it falls through, leaves the
    status [completed]. *)
Definition leaves_terminal {A : Type} (m : M C A) : Prop :=
  forall w, fst (m w) = Return ->
            terminal (status_of (info (snd (m w)))) = true.

Definition falls_completed {A : Type} (m : M C A) : Prop :=
  forall w a, fst (m w) = Normal a ->
              status_of (info (snd (m w))) = completed.

(** The exposures counted so far, and a piece of the worker that counts
    at most [k] more. *)
Definition shots (w : world C) : Z :=
  completed_frames (progress_of (info w))
  + failed_frames (progress_of (info w)).

Definition at_most {A : Type} (k : Z) (m : M C A) : Prop :=
  forall w, shots (snd (m w)) <= shots w + k.

(** The parts of the session record [start_capture] fixed are what they
    were in [ci], and the errors of [ci] are still there, in place. *)
Definition same_session (ci : capture_info) (w : world C) : Prop :=
  id (info w) = id ci /\ start_time (info w) = start_time ci /\
  data (info w) = data ci /\
  total_brackets (progress_of (info w)) = total_brackets (progress_of ci) /\
  total_frames (progress_of (info w)) = total_frames (progress_of ci) /\
  exists more, errors (info w) = (errors ci ++ more)%list.

End Worlds.

(** An invariant [I] of the worker with the weaker [X] left at a return
    or an exception: what the two must be closed under. *)
Record worker_invariant {C : Type} (E : Env C) (fast_mode : bool)
    (I X : world C -> Prop) : Prop := mk_worker_invariant {
  wi_exit : forall w, I w -> X w;
  wi_status : forall w s, s <> completed -> I w ->
                          I (upd_info (with_status s) w);
  wi_error : forall w e, I w -> I (upd_info (with_error e) w);
  wi_event : forall w c e, plain_event fast_mode e = true -> I w ->
                           I (log c e w);
  wi_frame : forall w n, I w ->
                         I (snd (@set_progress C (set_current_frame n) w));
  wi_bracket : forall w n, I w ->
                           I (snd (@set_progress C (set_current_bracket n) w));
  wi_shoot : forall error_msg, hoare I (shoot E fast_mode error_msg) I X;
  wi_save : forall dir, hoare I (_save_capture_info E dir) I X;
  wi_images : fast_mode = true ->
              forall w n, I w -> I (upd_info (with_images_before n) w);
  wi_results : fast_mode = true ->
               forall w r, I w -> I (upd_info (with_results r) w);
  wi_x_status : forall w s, X w -> X (upd_info (with_status s) w);
  wi_x_error : forall w e, X w -> X (upd_info (with_error e) w);
  wi_x_end_time : forall w t, X w -> X (upd_info (with_end_time t) w);
  wi_x_update : forall w s p, X w -> X (log (env w) (SendUpdate s p) w)
}.

(** The mode a plan asks for. *)
Definition fast_mode_of (d : capture_data) : bool :=
  String.eqb (get (capture_mode d) "standard") "fast".

(** The exposures one bracket of a plan can take: its frames, each with
    one exposure per focus position and one more when stacking. *)
Definition exposures_of (d : capture_data) (b : bracket) : Z :=
  Z.max 0 (get (b_frames b) 0)
  * (if fs_get d fs_enabled false
     then Z.max 0 (fs_get d fs_steps 10) + 1 else 1).

(** A plan whose frame counts, and step count when stacking, are not
    negative. *)
Definition sane_plan (d : capture_data) : Prop :=
  Forall (fun b => 0 <= get (b_frames b) 0) (get (brackets d) []) /\
  (fs_get d fs_enabled false = true -> 0 <= fs_get d fs_steps 10).

End WorkerSpec.

(* ------------------------------------------------------------------ *)
(** * Properties of the exposure calculator *)

Module ExposureFacts.
Import ExposureCalculator.
Local Open Scope string_scope.

Lemma min_from_In {A K : Type} (lt : K -> K -> bool) (key : A -> K) (l : list A) :
  forall best, In (Py.min_from lt key best l) (best :: l).
Proof.
  induction l as [|x l IH]; intros best; simpl.
  - now left.
  - destruct (lt (key x) (key best)).
    + right. apply IH.
    + destruct (IH best) as [H|H]; [now left | now right; right].
Qed.

Lemma min_by_In {A K : Type} (lt : K -> K -> bool) (key : A -> K) (l : list A) x :
  Py.min_by lt key l = Some x -> In x l.
Proof.
  destruct l as [|y l]; simpl; [discriminate|].
  intros H; injection H as <-. apply min_from_In.
Qed.

Lemma closest_In {F : Type} `{PyFloat F} (table : list Q) (target : F) x :
  closest table target = Some x -> In x table.
Proof. apply min_by_In. Qed.

Lemma closest_APERTURE_some {F : Type} `{PyFloat F} (target : F) :
  exists a, closest APERTURE_VALUES target = Some a.
Proof. unfold closest, APERTURE_VALUES, Py.min_by. eauto. Qed.

Lemma pow2_pos ev : (0 < pow2 ev)%R.
Proof. unfold pow2, Rpower. apply exp_pos. Qed.

Lemma shutter_priority_settings ev iso preferred_aperture :
  (0 <= Q2R iso)%R ->
  exists a, In a APERTURE_VALUES /\
    get_settings_for_ev ev iso "shutter" preferred_aperture
    = Some (mk_settings iso a "1/60" "1/60").
Proof.
  intros Hiso. unfold get_settings_for_ev.
  change (String.eqb "shutter" "aperture") with false.
  change (String.eqb "shutter" "shutter") with true.
  cbv iota.
  change (shutter_seconds "1/60") with (Some (Qdiv 1 60)).
  cbv iota beta zeta.
  unfold rsqrt.
  destruct (Rlt_dec _ 0) as [Hneg|_].
  - exfalso. pose proof (pow2_pos ev) as Hp.
    assert (0 < Q2R (1 / 60))%R as Hs.
    { replace 0%R with (Q2R 0) by (unfold Q2R; simpl; lra).
      apply Qreals.Qlt_Rlt. reflexivity. }
    assert (0 <= Q2R iso * Q2R (1 / 60) * pow2 ev)%R.
    { apply Rmult_le_pos; [apply Rmult_le_pos|]; lra. }
    lra.
  - destruct (closest_APERTURE_some (sqrt (Q2R iso * Q2R (1 / 60) * pow2 ev / 100))) as [a Ha].
    rewrite Ha. exists a. split; [|reflexivity].
    eapply closest_In; eauto.
Qed.
End ExposureFacts.
Import ExposureCalculator ExposureSpec ExposureFacts.
Local Open Scope string_scope.




Lemma ev_values_length base_ev s N :
  List.length (ev_values base_ev s N) = Z.to_nat N.
Proof. unfold ev_values, Py.range. now rewrite !length_map, length_seq. Qed.







Import DirectSpec.

Lemma within_one_step_anchor shutter_speed :
  within_one_step shutter_speed "1/60" = true <->
  exists o, shutter_seconds shutter_speed = Some o /\
            ((1 # 125) <= o /\ o <= (1 # 30))%Q.
Proof.
  unfold within_one_step.
  destruct (shutter_seconds shutter_speed) as [o|].
  - change (index_of "1/60" SHUTTER_SPEEDS) with (Some 15%nat). cbv iota.
    change (table_seconds 15) with (Some (1 # 60)%Q).
    change (table_seconds (Nat.pred 15)) with (Some (1 # 30)%Q).
    change (table_seconds 16) with (Some (1 # 125)%Q).
    cbv iota beta zeta.
    rewrite andb_true_iff, !Qle_bool_iff.
    split.
    + intros H. exists o. now split.
    + intros [o' [Ho H]]. injection Ho as <-. exact H.
  - split; [discriminate|]. intros [o [Ho _]]. discriminate.
Qed.

(** C8, as the code has it.  Under shutter priority the shutter speed
    returned is the fixed anchor 1/60 s whatever the original was (the ISO
    is kept and the aperture is a full-stop table value); so it is within
    one table step of the original exactly when the original lies between
    1/125 s and 1/30 s. *)
Theorem C8_shutter_priority_returns_anchor iso aperture shutter_speed ev :
  calculate_ev iso aperture shutter_speed = Some ev ->
  (0 < iso)%Q ->
  exists st,
    get_settings_for_ev ev iso "shutter" aperture = Some st /\
    st_iso st = iso /\
    In (st_aperture st) APERTURE_VALUES /\
    st_shutter_speed st = "1/60" /\
    (within_one_step shutter_speed (st_shutter_speed st) = true <->
     exists o, shutter_seconds shutter_speed = Some o /\
               ((1 # 125) <= o /\ o <= (1 # 30))%Q).
Proof.
  intros _ Hiso.
  destruct (shutter_priority_settings ev aperture (iso:=iso)) as [a [Ha Hst]].
  - replace 0%R with (Q2R 0) by (unfold Q2R; simpl; lra).
    apply Qreals.Qle_Rle. now apply Qlt_le_weak.
  - eexists. split; [exact Hst|]. simpl.
    repeat split; try assumption; apply within_one_step_anchor.
Qed.

(** C8 at ISO 100, f/8, 1/125 s. *)
Lemma C8_shutter_priority_returns_anchor_witness :
  exists st,
    get_settings_for_ev (log2 (Q2R 8000)) 100 "shutter" 8 = Some st /\
    st_iso st = 100%Q /\
    In (st_aperture st) APERTURE_VALUES /\
    st_shutter_speed st = "1/60" /\
    (within_one_step "1/125" (st_shutter_speed st) = true <->
     exists o, shutter_seconds "1/125" = Some o /\
               ((1 # 125) <= o /\ o <= (1 # 30))%Q).
Proof.
  apply (@C8_shutter_priority_returns_anchor 100 8 "1/125" (log2 (Q2R 8000))).
  - reflexivity.
  - reflexivity.
Defined.

(** C8 as stated fails at ISO 100, f/8, 1/1000 s: the round trip answers
    1/60 s, four table steps away. *)
Lemma C8_counterexample :
  exists ev st,
    calculate_ev 100 8 "1/1000" = Some ev /\
    get_settings_for_ev ev 100 "shutter" 8 = Some st /\
    within_one_step "1/1000" (st_shutter_speed st) = false.
Proof.
  exists (log2 (Q2R 64000)).
  destruct (shutter_priority_settings (log2 (Q2R 64000)) 8 (iso:=100)) as [a [_ Hst]].
  - unfold Q2R; simpl; lra.
  - eexists. split; [reflexivity|]. split; [exact Hst|]. reflexivity.
Qed.

(** C5 at the input of one entry with ISO 100, f/8.0 and shutter speed
    1/90: the shutter speed is not in the third-stop table, the entry is
    kept, and the code writes the nearest full-stop entry 1/125 where the
    nearest third-stop entry is 1/100. *)
Theorem C5_shutter_snaps_to_full_stop_table :
  let '(h, out) := generate_brackets_direct (direct_input 100 8.0 "1/90") [0%nat] in
  in_str "1/90" SHUTTER_SPEEDS_THIRD = false /\
  out = [0%nat] /\
  b_shutter_speed (h 0%nat) = Some "1/125" /\
  spec_closest_third_stop_shutter (1 / 90) = Some "1/100".
Proof. vm_compute. repeat split. Qed.

(** Scenario C: an entry whose shutter speed is not a number is dropped. *)
Lemma scenario_C_garbage_dropped :
  snd (generate_brackets_direct (direct_input 100 8.0 "garbage") [0%nat]) = [].
Proof. reflexivity. Qed.

Lemma in_Q_pos x table :
  forallb (fun t => negb (Qle_bool t 0)) table = true ->
  in_Q x table = true -> (0 < x)%Q.
Proof.
  intros Hall Hin. unfold in_Q in Hin.
  apply existsb_exists in Hin as [t [Ht Heq]].
  apply Qeq_bool_iff in Heq.
  rewrite forallb_forall in Hall. specialize (Hall t Ht).
  apply negb_true_iff in Hall.
  rewrite Heq. apply Qnot_le_lt. intros Hle.
  apply Qle_bool_iff in Hle. congruence.
Qed.

Lemma in_Q_In x table : In x table -> in_Q x table = true.
Proof.
  intros H. apply existsb_exists. exists x. split; [exact H|].
  apply Qeq_bool_iff. reflexivity.
Qed.

Lemma in_str_In x table : In x table <-> in_str x table = true.
Proof.
  unfold in_str. rewrite existsb_exists. split.
  - intros H. exists x. split; [exact H | apply String.eqb_refl].
  - intros [y [Hy He]]. apply String.eqb_eq in He. now subst.
Qed.

Lemma table_shutter_seconds s :
  in_str s SHUTTER_SPEEDS_THIRD || in_str s SHUTTER_SPEEDS = true ->
  exists secs, shutter_seconds s = Some secs /\ (0 < secs)%Q.
Proof.
  intros H.
  assert (positive_seconds s = true) as Hp.
  { apply orb_true_iff in H as [H|H]; apply in_str_In in H;
      revert s H; apply forallb_forall; vm_compute; reflexivity. }
  unfold positive_seconds in Hp.
  destruct (shutter_seconds s) as [q|]; [|discriminate].
  exists q. split; [reflexivity|].
  apply negb_true_iff in Hp. apply Qnot_le_lt. intros Hle.
  apply Qle_bool_iff in Hle. congruence.
Qed.

Lemma calculate_ev_some iso aperture s :
  (0 < iso)%Q -> (0 < aperture)%Q ->
  in_str s SHUTTER_SPEEDS_THIRD || in_str s SHUTTER_SPEEDS = true ->
  exists ev, calculate_ev iso aperture s = Some ev.
Proof.
  intros Hi Ha Hs.
  destruct (table_shutter_seconds s Hs) as [secs [Hsecs Hpos]].
  unfold calculate_ev, ev_argument. rewrite Hsecs.
  assert (0 < secs * iso)%Q as Hden.
  { rewrite <- (Qmult_0_l iso). apply Qmult_lt_compat_r; assumption. }
  destruct (Qeq_bool (secs * iso) 0) eqn:Hz.
  { apply Qeq_bool_iff in Hz. rewrite Hz in Hden. discriminate. }
  destruct (Qle_bool _ 0) eqn:Hle; [|eauto].
  exfalso. apply Qle_bool_iff in Hle. rewrite Qred_correct in Hle.
  assert (0 < aperture * aperture * 100)%Q as Hnum.
  { rewrite <- (Qmult_0_l 100). apply Qmult_lt_compat_r; [reflexivity|].
    rewrite <- (Qmult_0_l aperture). apply Qmult_lt_compat_r; assumption. }
  assert (0 < aperture * aperture * 100 / (secs * iso))%Q as Hx.
  { apply Qlt_shift_div_l; [exact Hden|]. rewrite Qmult_0_l. exact Hnum. }
  exact (Qlt_not_le _ _ Hx Hle).
Qed.

Lemma find_closest_Q (seconds : Q) :
  exists s, _find_closest_shutter_speed seconds = Some s /\
            in_str s SHUTTER_SPEEDS = true.
Proof.
  unfold _find_closest_shutter_speed.
  assert (exists secs, speeds_in_seconds SHUTTER_SPEEDS = Some secs /\
                       List.length secs = List.length SHUTTER_SPEEDS)
    as [secs [-> Hlen]]
    by (eexists; split; vm_compute; reflexivity).
  rewrite Hlen.
  destruct (Py.min_by _ _ _) as [idx|] eqn:Hmin; [|discriminate].
  apply min_by_In, in_seq in Hmin.
  destruct (nth_error SHUTTER_SPEEDS idx) as [s|] eqn:Hs.
  - exists s. split; [reflexivity|].
    apply in_str_In. eapply nth_error_In; eauto.
  - apply nth_error_None in Hs. lia.
Qed.

Lemma snap_Q_in x T y :
  (if in_Q x T then Some x else closest T x) = Some y -> in_Q y T = true.
Proof.
  destruct (in_Q x T) eqn:Hin; intros H.
  - injection H as <-. exact Hin.
  - apply in_Q_In. exact (@closest_In Q _ T x y H).
Qed.

Lemma snap_Q_some x T :
  T <> [] -> (if in_Q x T then Some x else closest T x) <> None.
Proof.
  intros HT. destruct (in_Q x T); [discriminate|].
  destruct T; [congruence | discriminate].
Qed.

Lemma snap_shutter_in s s2 :
  (if in_str s SHUTTER_SPEEDS_THIRD then Some s
   else match shutter_seconds s with
        | Some seconds => _find_closest_shutter_speed seconds
        | None => None
        end) = Some s2 ->
  in_str s2 SHUTTER_SPEEDS_THIRD || in_str s2 SHUTTER_SPEEDS = true.
Proof.
  destruct (in_str s SHUTTER_SPEEDS_THIRD) eqn:H3; intros H.
  - injection H as <-. rewrite H3. reflexivity.
  - destruct (shutter_seconds s) as [q|]; [|discriminate].
    destruct (find_closest_Q q) as [s' [Hs' Hin]].
    rewrite Hs' in H. injection H as <-. rewrite Hin. apply orb_true_r.
Qed.

Lemma snap_shutter_none s :
  (if in_str s SHUTTER_SPEEDS_THIRD then Some s
   else match shutter_seconds s with
        | Some seconds => _find_closest_shutter_speed seconds
        | None => None
        end) = None ->
  in_str s SHUTTER_SPEEDS_THIRD = false /\ shutter_seconds s = None.
Proof.
  destruct (in_str s SHUTTER_SPEEDS_THIRD); [discriminate|].
  destruct (shutter_seconds s) as [q|]; [|auto].
  destruct (find_closest_Q q) as [s' [Hs' _]]. rewrite Hs'. discriminate.
Qed.

Lemma ISO_VALUES_THIRD_nonempty : ISO_VALUES_THIRD <> [].
Proof. discriminate. Qed.

Lemma APERTURE_VALUES_THIRD_nonempty : APERTURE_VALUES_THIRD <> [].
Proof. discriminate. Qed.

Lemma ISO_VALUES_THIRD_positive :
  forallb (fun t => negb (Qle_bool t 0)) ISO_VALUES_THIRD = true.
Proof. vm_compute. reflexivity. Qed.

Lemma APERTURE_VALUES_THIRD_positive :
  forallb (fun t => negb (Qle_bool t 0)) APERTURE_VALUES_THIRD = true.
Proof. vm_compute. reflexivity. Qed.

Lemma snapped_false_bad_shutter b s :
  b_shutter_speed b = Some s ->
  in_str s SHUTTER_SPEEDS_THIRD = false -> shutter_seconds s = None ->
  snapped b = false.
Proof.
  intros Hs H3 Hp. unfold snapped. rewrite Hs.
  destruct (b_iso b); [|reflexivity]. destruct (b_aperture b); [|reflexivity].
  rewrite H3.
  destruct (in_str s SHUTTER_SPEEDS) eqn:H1; [|apply andb_false_r].
  destruct (table_shutter_seconds s) as [q' [Hq _]];
    [rewrite H1; apply orb_true_r | congruence].
Qed.

Lemma rejected_not_snapped b : rejected b -> snapped b = false.
Proof.
  intros [H|[H|[H|[s [Hs [H3 Hp]]]]]].
  - unfold snapped. now rewrite H.
  - unfold snapped. rewrite H. now destruct (b_iso b).
  - unfold snapped. rewrite H. now destruct (b_iso b), (b_aperture b).
  - eapply snapped_false_bad_shutter; eauto.
Qed.

Lemma validate_bracket_run b b' v :
  validate_bracket b = (b', v) ->
  (v = Accept /\ validated b') \/ (v = Skip /\ rejected b').
Proof.
  unfold validate_bracket.
  destruct (b_iso b) as [i|] eqn:Ei;
    [|intros H; injection H as <- <-; right; split; [reflexivity | now left]].
  destruct (b_aperture b) as [a|] eqn:Ea;
    [|intros H; injection H as <- <-; right; split;
      [reflexivity | now right; left]].
  destruct (b_shutter_speed b) as [s|] eqn:Es;
    [|intros H; injection H as <- <-; right; split;
      [reflexivity | now right; right; left]].
  destruct (if in_Q i ISO_VALUES_THIRD then Some i
            else closest ISO_VALUES_THIRD i) as [i2|] eqn:Hi2;
    [|exfalso; exact (snap_Q_some i ISO_VALUES_THIRD_nonempty Hi2)].
  destruct (if in_Q a APERTURE_VALUES_THIRD then Some a
            else closest APERTURE_VALUES_THIRD a) as [a2|] eqn:Ha2;
    [|exfalso; exact (snap_Q_some a APERTURE_VALUES_THIRD_nonempty Ha2)].
  apply snap_Q_in in Hi2. apply snap_Q_in in Ha2.
  destruct (if in_str s SHUTTER_SPEEDS_THIRD then Some s
            else match shutter_seconds s with
                 | Some seconds => _find_closest_shutter_speed seconds
                 | None => None
                 end) as [s2|] eqn:Hs2.
  - apply snap_shutter_in in Hs2.
    destruct (@calculate_ev_some i2 a2 s2) as [ev Hev].
    + exact (@in_Q_pos i2 ISO_VALUES_THIRD ISO_VALUES_THIRD_positive Hi2).
    + exact (@in_Q_pos a2 APERTURE_VALUES_THIRD APERTURE_VALUES_THIRD_positive Ha2).
    + exact Hs2.
    + rewrite Hev. intros H; injection H as <- <-. left.
      split; [reflexivity|]. split.
      * unfold snapped, set_ev, set_shutter_speed, set_aperture, set_iso.
        cbn [b_iso b_aperture b_shutter_speed].
        rewrite Hi2, Ha2, Hs2. reflexivity.
      * exists i2, a2, s2, ev. repeat split. exact Hev.
  - apply snap_shutter_none in Hs2 as [H3 Hp].
    intros H; injection H as <- <-. right. split; [reflexivity|].
    right; right; right. exists s. repeat split; assumption.
Qed.

Lemma validate_bracket_cases b :
  (snd (validate_bracket b) = Accept /\ validated (fst (validate_bracket b)))
  \/ (snd (validate_bracket b) = Skip /\ rejected (fst (validate_bracket b))).
Proof.
  destruct (validate_bracket b) as [b' v] eqn:Hrun.
  exact (@validate_bracket_run b b' v Hrun).
Qed.

Lemma validated_accepted b :
  snapped b = true -> snd (validate_bracket b) = Accept.
Proof.
  intros Hs.
  destruct (validate_bracket_cases b) as [[Hv _]|[Hv Hr]]; [exact Hv|].
  exfalso. revert Hv. unfold snapped in Hs. unfold validate_bracket.
  destruct (b_iso b) as [i|]; [|discriminate].
  destruct (b_aperture b) as [a|]; [|discriminate].
  destruct (b_shutter_speed b) as [s|]; [|discriminate].
  apply andb_true_iff in Hs as [Hs Hsh]. apply andb_true_iff in Hs as [Hi Ha].
  rewrite Hi, Ha.
  destruct (in_str s SHUTTER_SPEEDS_THIRD) eqn:H3.
  - destruct (calculate_ev i a s); discriminate.
  - rewrite orb_false_l in Hsh.
    destruct (table_shutter_seconds s) as [q [Hq _]];
      [rewrite Hsh; apply orb_true_r|].
    rewrite Hq. destruct (find_closest_Q q) as [s2 [Hs2 _]].
    rewrite Hs2. destruct (calculate_ev i a s2); discriminate.
Qed.

Lemma rejected_skipped b :
  rejected b -> snd (validate_bracket b) = Skip.
Proof.
  intros Hr.
  destruct (validate_bracket_cases b) as [[_ Hv]|[Hv _]]; [|exact Hv].
  exfalso. destruct Hv as [Hs _]. revert Hs Hr.
  destruct (validate_bracket b) as [b' v] eqn:Hrun. cbn [fst].
  intros Hs Hr. revert Hrun. unfold validate_bracket.
  destruct (b_iso b) as [i|] eqn:Ei.
  2: { intros H; injection H as <- <-.
       unfold snapped in Hs. rewrite Ei in Hs. discriminate. }
  destruct (b_aperture b) as [a|] eqn:Ea.
  2: { intros H; injection H as <- <-.
       unfold snapped in Hs. rewrite Ei, Ea in Hs. discriminate. }
  destruct (b_shutter_speed b) as [s|] eqn:Es.
  2: { intros H; injection H as <- <-.
       unfold snapped in Hs. rewrite Ei, Ea, Es in Hs. discriminate. }
  destruct Hr as [H|[H|[H|[s' [Hs' [H3 Hp]]]]]]; try congruence.
  assert (s' = s) as -> by congruence. clear Hs'.
  destruct (if in_Q i ISO_VALUES_THIRD then Some i
            else closest ISO_VALUES_THIRD i) as [i2|];
    [|intros H; injection H as <- <-;
      rewrite (@snapped_false_bad_shutter b s Es H3 Hp) in Hs; discriminate].
  destruct (if in_Q a APERTURE_VALUES_THIRD then Some a
            else closest APERTURE_VALUES_THIRD a) as [a2|];
    [|intros H; injection H as <- <-;
      rewrite (@snapped_false_bad_shutter (set_iso b i2) s Es H3 Hp) in Hs;
      discriminate].
  rewrite H3, Hp. intros H; injection H as <- <-.
  rewrite (@snapped_false_bad_shutter (set_aperture (set_iso b i2) a2) s
             Es H3 Hp) in Hs.
  discriminate.
Qed.

(** A dictionary the loop has been through: validated for good or
    rejected for good. *)
Lemma validate_bracket_settles b :
  validated (fst (validate_bracket b)) \/ rejected (fst (validate_bracket b)).
Proof. destruct (validate_bracket_cases b) as [[_ H]|[_ H]]; auto. Qed.

Lemma validate_bracket_no_raise b : snd (validate_bracket b) <> Raise.
Proof. destruct (validate_bracket_cases b) as [[H _]|[H _]]; congruence. Qed.

Lemma validate_bracket_verdict b :
  snapped (fst (validate_bracket b))
  = match snd (validate_bracket b) with Accept => true | _ => false end.
Proof.
  destruct (validate_bracket_cases b) as [[Hv [Hs _]]|[Hv Hr]]; rewrite Hv.
  - exact Hs.
  - now apply rejected_not_snapped.
Qed.

Lemma validate_bracket_stable b :
  validated b \/ rejected b ->
  snapped (fst (validate_bracket b)) = snapped b.
Proof.
  intros [[Hs _]|Hr]; rewrite validate_bracket_verdict.
  - now rewrite (@validated_accepted b Hs), Hs.
  - now rewrite (@rejected_skipped b Hr), (@rejected_not_snapped b Hr).
Qed.

Lemma upd_same h r b : upd h r b r = b.
Proof. unfold upd. now rewrite Nat.eqb_refl. Qed.

Lemma upd_other h r b r' : r' <> r -> upd h r b r' = h r'.
Proof. unfold upd. intros H. apply Nat.eqb_neq in H. now rewrite H. Qed.

Lemma direct_loop_spec brackets_data :
  forall h validated_refs h' out,
    direct_loop h brackets_data validated_refs = (h', out) ->
    out = (validated_refs ++ filter (fun r => snapped (h' r)) brackets_data)%list /\
    (forall r, In r brackets_data -> validated (h' r) \/ rejected (h' r)) /\
    (forall r, ~ In r brackets_data -> h' r = h r) /\
    (forall r, validated (h r) \/ rejected (h r) ->
               (validated (h' r) \/ rejected (h' r)) /\
               snapped (h' r) = snapped (h r)).
Proof.
  induction brackets_data as [|r0 rest IH]; intros h acc h' out Hrun; simpl in Hrun.
  - injection Hrun as <- <-. repeat split; auto.
    + now rewrite app_nil_r.
    + intros r [].
  - destruct (validate_bracket (h r0)) as [b v] eqn:Hval.
    pose proof (validate_bracket_settles (h r0)) as Hset.
    pose proof (validate_bracket_verdict (h r0)) as Hver.
    pose proof (validate_bracket_no_raise (h r0)) as Hnr.
    pose proof (@validate_bracket_stable (h r0)) as Hst.
    rewrite Hval in Hset, Hver, Hnr, Hst. simpl in Hset, Hver, Hnr, Hst.
    set (h1 := upd h r0 b) in *.
    assert (forall r, validated (h r) \/ rejected (h r) ->
                      (validated (h1 r) \/ rejected (h1 r)) /\
                      snapped (h1 r) = snapped (h r)) as Hstep.
    { intros r Hr. unfold h1. destruct (Nat.eq_dec r r0) as [->|Hne].
      - rewrite upd_same. split; [exact Hset | now apply Hst].
      - rewrite upd_other by exact Hne. now split. }
    assert (exists acc', direct_loop h1 rest acc' = (h', out) /\
                         acc' = (acc ++ (if snapped b then [r0] else []))%list)
      as [acc' [Hrec Hacc]].
    { destruct v; simpl in Hver; rewrite Hver.
      - eexists; split; [exact Hrun | reflexivity].
      - eexists; split; [exact Hrun | now rewrite app_nil_r].
      - congruence. }
    destruct (IH _ _ _ _ Hrec) as [Hout [Hin [Hframe Hkeep]]].
    assert (snapped (h' r0) = snapped b) as Hr0.
    { destruct (Hkeep r0) as [_ ->]; unfold h1; rewrite upd_same; auto. }
    repeat split.
    + rewrite Hout, Hacc. simpl. rewrite Hr0, <- app_assoc.
      now destruct (snapped b).
    + intros r [<-|Hr]; [|now apply Hin].
      apply Hkeep. unfold h1. now rewrite upd_same.
    + intros r Hr. rewrite Hframe by (intros H; apply Hr; now right).
      unfold h1. apply upd_other. intros ->. apply Hr. now left.
    + apply Hkeep. now apply Hstep.
    + destruct (Hkeep r (proj1 (Hstep r H))) as [_ ->]. now apply Hstep.
Qed.

Lemma set_iso_same b v : b_iso b = Some v -> set_iso b v = b.
Proof. destruct b; unfold set_iso; simpl; congruence. Qed.

Lemma set_aperture_same b v : b_aperture b = Some v -> set_aperture b v = b.
Proof. destruct b; unfold set_aperture; simpl; congruence. Qed.

Lemma set_shutter_speed_same b v :
  b_shutter_speed b = Some v -> set_shutter_speed b v = b.
Proof. destruct b; unfold set_shutter_speed; simpl; congruence. Qed.

Lemma set_ev_same b v : b_ev b = Some v -> set_ev b v = b.
Proof. destruct b; unfold set_ev; simpl; congruence. Qed.

(** An entry of the full-stop shutter table is its own nearest entry. *)
Lemma full_stop_shutter_fixed s :
  In s SHUTTER_SPEEDS ->
  exists q, shutter_seconds s = Some q /\
            _find_closest_shutter_speed q = Some s.
Proof.
  intros H. unfold SHUTTER_SPEEDS in H.
  repeat (destruct H as [<-|H];
          [eexists; split; [vm_compute; reflexivity|vm_compute; reflexivity]|]).
  destruct H.
Qed.

Lemma snap_shutter_fixed s :
  in_str s SHUTTER_SPEEDS_THIRD || in_str s SHUTTER_SPEEDS = true ->
  (if in_str s SHUTTER_SPEEDS_THIRD then Some s
   else match shutter_seconds s with
        | Some seconds => _find_closest_shutter_speed seconds
        | None => None
        end) = Some s.
Proof.
  intros H. destruct (in_str s SHUTTER_SPEEDS_THIRD) eqn:H3; [reflexivity|].
  rewrite orb_false_l in H. apply in_str_In in H.
  destruct (full_stop_shutter_fixed H) as [q [-> Hq]]. exact Hq.
Qed.





(** The caller's dictionary before and after: ISO 110 and 1/90 s are
    replaced in place and [ev] appears. *)
Lemma direct_mutation_example :
  let h := direct_input 110 8.0 "1/90" in
  let '(h', out) := generate_brackets_direct h [0%nat] in
  out = [0%nat] /\
  b_iso (h 0%nat) = Some 110%Q /\ b_iso (h' 0%nat) = Some 100%Q /\
  b_shutter_speed (h' 0%nat) = Some "1/125" /\
  b_ev (h 0%nat) = None /\ b_ev (h' 0%nat) <> None.
Proof. repeat split. discriminate. Qed.

(* ------------------------------------------------------------------ *)
(** * Further properties of the exposure calculator *)

(** ** Nearest-entry search *)

Lemma Qflt_lt (a b : Q) : flt a b = true <-> (a < b)%Q.
Proof.
  cbn. rewrite negb_true_iff. split.
  - intros H. apply Qnot_le_lt. intros Hle.
    apply Qle_bool_iff in Hle. congruence.
  - intros H. destruct (Qle_bool b a) eqn:Hle; [|reflexivity].
    apply Qle_bool_iff in Hle. exfalso. exact (Qlt_not_le _ _ H Hle).
Qed.

Lemma Qflt_ge (a b : Q) : flt a b = false <-> (b <= a)%Q.
Proof.
  cbn. rewrite negb_false_iff. apply Qle_bool_iff.
Qed.

(** Where [min] with a rational key stops: at the first element whose key
    no other element beats. *)
Lemma min_from_split {A : Type} (key : A -> Q) (l : list A) :
  forall best,
    (Py.min_from flt key best l = best /\
     forall t, In t l -> (key best <= key t)%Q) \/
    (exists pre post,
        l = (pre ++ Py.min_from flt key best l :: post)%list /\
        (key (Py.min_from flt key best l) < key best)%Q /\
        (forall t, In t pre -> (key (Py.min_from flt key best l) < key t)%Q) /\
        (forall t, In t post ->
                   (key (Py.min_from flt key best l) <= key t)%Q)).
Proof.
  induction l as [|x l IH]; intros best.
  - left. split; [reflexivity|]. intros t [].
  - change (Py.min_from flt key best (x :: l))
      with (if flt (key x) (key best) then Py.min_from flt key x l
            else Py.min_from flt key best l).
    destruct (flt (key x) (key best)) eqn:Hlt.
    + apply Qflt_lt in Hlt. right.
      destruct (IH x) as [[Hm Hall]|[pre [post [Hl [Hk [Hpre Hpost]]]]]].
      * exists [], l. rewrite Hm. split; [reflexivity|].
        split; [exact Hlt|]. split; [intros t []|exact Hall].
      * exists (x :: pre), post. split; [cbn; now f_equal|].
        split; [eapply Qlt_trans; eauto|].
        split; [|exact Hpost].
        intros t [<-|Ht]; auto.
    + apply Qflt_ge in Hlt.
      destruct (IH best) as [[Hm Hall]|[pre [post [Hl [Hk [Hpre Hpost]]]]]].
      * left. split; [exact Hm|]. intros t [<-|Ht]; auto.
      * right. exists (x :: pre), post. split; [cbn; now f_equal|].
        split; [exact Hk|]. split; [|exact Hpost].
        intros t [<-|Ht]; auto. eapply Qlt_le_trans; eauto.
Qed.

Lemma min_by_split {A : Type} (key : A -> Q) (l : list A) m :
  Py.min_by flt key l = Some m ->
  exists pre post,
    l = (pre ++ m :: post)%list /\
    (forall t, In t pre -> (key m < key t)%Q) /\
    (forall t, In t post -> (key m <= key t)%Q).
Proof.
  destruct l as [|x l]; [discriminate|].
  intros H.
  assert (Hmx : m = Py.min_from flt key x l)
    by (injection H as H; symmetry; exact H).
  clear H.
  destruct (min_from_split key l x)
    as [[Hm Hall]|[pre [post [Hl [Hk [Hpre Hpost]]]]]].
  - rewrite Hm in Hmx. subst m. exists [], l. split; [reflexivity|].
    split; [intros t []|exact Hall].
  - rewrite <- Hmx in *. exists (x :: pre), post.
    split; [cbn; now f_equal|].
    split; [|exact Hpost].
    intros t [<-|Ht]; auto.
Qed.

(** An empty table has no nearest entry ([min] raises), any other has
    one. *)
Lemma closest_none_iff (table : list Q) (x : Q) :
  closest table x = None <-> table = [].
Proof.
  destruct table; cbn; split; congruence.
Qed.

(** X1. The snapping of an integer ISO to the third-stop table: the entry
    chosen is an entry of the table, no entry is nearer to the number by
    absolute difference, and every entry before it in the table is
    strictly further away (the first of several nearest entries wins). *)
Theorem closest_iso_is_first_nearest (n : Z) :
  exists y pre post,
    closest ISO_VALUES_THIRD (inject_Z n) = Some y /\
    ISO_VALUES_THIRD = (pre ++ y :: post)%list /\
    (forall t, In t pre ->
               (Qabs (y - inject_Z n) < Qabs (t - inject_Z n))%Q) /\
    (forall t, In t post ->
               (Qabs (y - inject_Z n) <= Qabs (t - inject_Z n))%Q).
Proof.
  destruct (closest ISO_VALUES_THIRD (inject_Z n)) as [y|] eqn:H.
  - destruct (min_by_split (fun t => Qabs (t - inject_Z n)) ISO_VALUES_THIRD H)
      as [pre [post [Ht [Hpre Hpost]]]].
    exists y, pre, post. repeat split; assumption.
  - apply closest_none_iff in H. discriminate.
Qed.


(** ** The direct generator on the caller's dictionaries *)

(** A validated dictionary passes the loop unchanged. *)
Lemma validated_fixed b : validated b -> validate_bracket b = (b, Accept).
Proof.
  intros [Hs [iso [aperture [shutter_speed [ev [Hi [Ha [Hsh [Hev Hb]]]]]]]]].
  unfold snapped in Hs. rewrite Hi, Ha, Hsh in Hs.
  apply andb_true_iff in Hs as [Hs Hs3].
  apply andb_true_iff in Hs as [Hs1 Hs2].
  unfold validate_bracket. rewrite Hi, Ha, Hsh, Hs1, Hs2.
  rewrite (snap_shutter_fixed _ Hs3), Hev.
  rewrite (set_iso_same _ Hi), (set_aperture_same _ Ha),
    (set_shutter_speed_same _ Hsh), (set_ev_same _ Hb).
  reflexivity.
Qed.

Lemma direct_loop_fixed out :
  forall (h h1 : heap) acc,
    (forall r, h1 r = h r) ->
    (forall r, In r out -> validated (h r)) ->
    snd (direct_loop h1 out acc) = (acc ++ out)%list /\
    forall r, fst (direct_loop h1 out acc) r = h r.
Proof.
  induction out as [|r0 rest IH]; intros h h1 acc Heq Hval; simpl.
  - split; [now rewrite app_nil_r | exact Heq].
  - rewrite Heq, (validated_fixed (Hval r0 (or_introl eq_refl))).
    destruct (IH h (upd h1 r0 (h r0)) (acc ++ [r0])%list) as [Hout Hh].
    + intros r. unfold upd. destruct (Nat.eqb_spec r r0); [now subst|apply Heq].
    + intros r Hr. apply Hval. now right.
    + split; [|exact Hh]. rewrite Hout, <- app_assoc. reflexivity.
Qed.

(** X2. Validating the result of [generate_brackets_direct] once more
    changes nothing: the second call returns the same list and writes no
    new value into any dictionary. *)
Theorem generate_brackets_direct_idempotent (h : heap) (brackets_data : list ref) :
  let '(h', out) := generate_brackets_direct h brackets_data in
  let '(h'', out') := generate_brackets_direct h' out in
  out' = out /\ forall r, h'' r = h' r.
Proof.
  destruct (generate_brackets_direct h brackets_data) as [h' out] eqn:Hrun.
  unfold generate_brackets_direct in Hrun.
  destruct (@direct_loop_spec brackets_data h [] h' out Hrun)
    as [Hout [Hin _]].
  simpl in Hout.
  assert (Hval : forall r, In r out -> validated (h' r)).
  { intros r Hr. rewrite Hout in Hr. apply filter_In in Hr as [Hr Hs].
    destruct (Hin r Hr) as [Hv|Hrej]; [exact Hv|].
    rewrite (@rejected_not_snapped (h' r) Hrej) in Hs. discriminate. }
  destruct (@direct_loop_fixed out h' h' [] (fun r => eq_refl) Hval)
    as [H1 H2].
  unfold generate_brackets_direct.
  destruct (direct_loop h' out []) as [h'' out']. simpl in H1, H2.
  split; [exact H1 | exact H2].
Qed.

(** The keys the loop never writes. *)
Lemma validate_bracket_other_keys b :
  b_name (fst (validate_bracket b)) = b_name b /\
  b_frames (fst (validate_bracket b)) = b_frames b /\
  b_delay (fst (validate_bracket b)) = b_delay b /\
  b_additional_settings (fst (validate_bracket b)) = b_additional_settings b.
Proof.
  unfold validate_bracket.
  repeat match goal with
         | |- context [match ?x with _ => _ end] => destruct x
         end; simpl; auto.
Qed.

Lemma direct_loop_other_keys brackets_data :
  forall (h : heap) acc r,
    b_name (fst (direct_loop h brackets_data acc) r) = b_name (h r) /\
    b_frames (fst (direct_loop h brackets_data acc) r) = b_frames (h r) /\
    b_delay (fst (direct_loop h brackets_data acc) r) = b_delay (h r) /\
    b_additional_settings (fst (direct_loop h brackets_data acc) r)
    = b_additional_settings (h r).
Proof.
  induction brackets_data as [|r0 rest IH]; intros h acc r; simpl; [auto|].
  pose proof (validate_bracket_other_keys (h r0)) as Hk.
  destruct (validate_bracket (h r0)) as [b v]. simpl in Hk.
  assert (Hu : b_name (upd h r0 b r) = b_name (h r) /\
               b_frames (upd h r0 b r) = b_frames (h r) /\
               b_delay (upd h r0 b r) = b_delay (h r) /\
               b_additional_settings (upd h r0 b r)
               = b_additional_settings (h r)).
  { unfold upd. destruct (Nat.eqb_spec r r0); [subst; exact Hk|auto]. }
  destruct v; simpl.
  - destruct (IH (upd h r0 b) (acc ++ [r0])%list r) as [? [? [? ?]]].
    destruct Hu as [? [? [? ?]]]. repeat split; congruence.
  - destruct (IH (upd h r0 b) acc r) as [? [? [? ?]]].
    destruct Hu as [? [? [? ?]]]. repeat split; congruence.
  - exact Hu.
Qed.

(** X3. [generate_brackets_direct] writes only under [iso], [aperture],
    [shutter_speed] and [ev]: the name, the frame count, the delay and the
    additional settings of every dictionary are what the caller put
    there. *)
Theorem generate_brackets_direct_keeps_other_keys
    (h : heap) (brackets_data : list ref) (r : ref) :
  let h' := fst (generate_brackets_direct h brackets_data) in
  b_name (h' r) = b_name (h r) /\
  b_frames (h' r) = b_frames (h r) /\
  b_delay (h' r) = b_delay (h r) /\
  b_additional_settings (h' r) = b_additional_settings (h r).
Proof.
  exact (direct_loop_other_keys brackets_data h [] r).
Qed.

(** A text that starts with such a letter is no shutter speed: it is
    not in the third-stop table and [float] raises on it, or on what
    precedes its first [/]. *)
Lemma lstrip_keeps_last (l : list ascii) (c : ascii) :
  Py.is_space c = false ->
  exists l', Py.lstrip (l ++ [c]) = (l' ++ [c])%list.
Proof.
  intros Hc. induction l as [|d l IH].
  - exists []. cbn. now rewrite Hc.
  - cbn. destruct (Py.is_space d); [exact IH|].
    now exists (d :: l).
Qed.

Lemma strip_keeps_first (l : list ascii) (c : ascii) :
  Py.is_space c = false ->
  exists l', Py.strip (c :: l) = c :: l'.
Proof.
  intros Hc. unfold Py.strip.
  cbn [Py.lstrip]. rewrite Hc. cbn [rev].
  destruct (@lstrip_keeps_last (rev l) c Hc) as [l' ->].
  exists (rev l'). now rewrite rev_app_distr.
Qed.

Lemma not_a_number_start_no_space c :
  not_a_number_start c = true -> Py.is_space c = false.
Proof.
  destruct c as [[] [] [] [] [] [] [] []];
    intros H; vm_compute in H; try discriminate H; reflexivity.
Qed.

Lemma float_of_letter c (s : string) :
  not_a_number_start c = true -> Py.float (String c s) = None.
Proof.
  intros H. unfold Py.float. cbn [list_ascii_of_string].
  destruct (@strip_keeps_first (list_ascii_of_string s) c
              (@not_a_number_start_no_space c H)) as [l' ->].
  destruct c as [[] [] [] [] [] [] [] []];
    vm_compute in H; try discriminate H; reflexivity.
Qed.

Lemma split_of_letter c (s : string) :
  not_a_number_start c = true ->
  exists p0 rest, Py.split "/" (String c s) = String c p0 :: rest.
Proof.
  intros H. cbn [Py.split].
  assert (Ascii.eqb c "/" = false) as ->
    by (destruct c as [[] [] [] [] [] [] [] []];
        vm_compute in H; try discriminate H; reflexivity).
  destruct (Py.split "/" s) as [|p0 rest]; eauto.
Qed.

Lemma shutter_seconds_of_letter c (s : string) :
  not_a_number_start c = true -> shutter_seconds (String c s) = None.
Proof.
  intros H. unfold shutter_seconds.
  destruct (Py.contains "/" (String c s)); [|now apply float_of_letter].
  destruct (@split_of_letter c s H) as [p0 [rest ->]].
  destruct rest as [|p1 rest]; [reflexivity|].
  now rewrite (@float_of_letter c p0 H).
Qed.

Lemma letter_not_in_table c (s : string) :
  not_a_number_start c = true ->
  in_str (String c s) SHUTTER_SPEEDS_THIRD = false.
Proof.
  intros H.
  destruct c as [[] [] [] [] [] [] [] []];
    vm_compute in H; try discriminate H; reflexivity.
Qed.

(** X4. An entry that is dropped for its shutter speed (here: a text
    starting with a letter that no number starts with) has been written
    to all the same: its ISO and aperture are table values in the
    caller's dictionary afterwards, although nothing is returned. *)
Theorem dropped_entry_is_still_rewritten
    (h : heap) (r : ref) (iso aperture : Q) (c : ascii) (rest : string) :
  b_iso (h r) = Some iso ->
  b_aperture (h r) = Some aperture ->
  b_shutter_speed (h r) = Some (String c rest) ->
  not_a_number_start c = true ->
  exists iso' aperture',
    generate_brackets_direct h [r]
    = (upd h r (set_aperture (set_iso (h r) iso') aperture'), []) /\
    in_Q iso' ISO_VALUES_THIRD = true /\
    in_Q aperture' APERTURE_VALUES_THIRD = true.
Proof.
  intros Hi Ha Hs Hc.
  pose proof (@letter_not_in_table c rest Hc) as H3.
  pose proof (@shutter_seconds_of_letter c rest Hc) as Hsec.
  unfold generate_brackets_direct, direct_loop, validate_bracket.
  rewrite Hi, Ha, Hs.
  destruct (if in_Q iso ISO_VALUES_THIRD then Some iso
            else closest ISO_VALUES_THIRD iso) as [iso'|] eqn:Hiso;
    [|exfalso; exact (@snap_Q_some iso ISO_VALUES_THIRD
                        ISO_VALUES_THIRD_nonempty Hiso)].
  destruct (if in_Q aperture APERTURE_VALUES_THIRD then Some aperture
            else closest APERTURE_VALUES_THIRD aperture)
    as [aperture'|] eqn:Hap;
    [|exfalso; exact (@snap_Q_some aperture APERTURE_VALUES_THIRD
                        APERTURE_VALUES_THIRD_nonempty Hap)].
  rewrite H3, Hsec.
  exists iso', aperture'. split; [reflexivity|].
  split; [exact (@snap_Q_in iso ISO_VALUES_THIRD iso' Hiso)|].
  exact (@snap_Q_in aperture APERTURE_VALUES_THIRD aperture' Hap).
Qed.

(** X4 at ISO 110, f/8 and the shutter speed [garbage]: nothing is
    returned and the caller's ISO and aperture are table values
    afterwards. *)
Lemma dropped_entry_is_still_rewritten_witness :
  exists iso' aperture',
    generate_brackets_direct (direct_input 110 8.0 "garbage") [0%nat]
    = (upd (direct_input 110 8.0 "garbage") 0%nat
         (set_aperture (set_iso (direct_input 110 8.0 "garbage" 0%nat) iso')
            aperture'), []) /\
    in_Q iso' ISO_VALUES_THIRD = true /\
    in_Q aperture' APERTURE_VALUES_THIRD = true.
Proof.
  apply (@dropped_entry_is_still_rewritten
           (direct_input 110 8.0 "garbage") 0%nat 110 8.0 "g" "arbage");
    reflexivity.
Defined.


(** ** The exposure value and back *)

Lemma pow2_log2 x : (0 < x)%R -> pow2 (log2 x) = x.
Proof.
  intros Hx. unfold pow2, log2, Rpower.
  assert (ln 2 <> 0)%R as H2.
  { assert (0 < ln 2)%R; [|lra]. rewrite <- ln_1. apply ln_increasing; lra. }
  replace (ln x / ln 2 * ln 2)%R with (ln x) by (field; exact H2).
  now apply exp_ln.
Qed.

Lemma Q2R_100 : Q2R 100 = 100%R.
Proof. unfold Q2R. simpl. lra. Qed.

Lemma Q2R_0 : Q2R 0 = 0%R.
Proof. unfold Q2R. simpl. lra. Qed.

Lemma calculate_ev_intro iso aperture shutter_speed secs :
  shutter_seconds shutter_speed = Some secs ->
  ~ (secs * iso == 0)%Q ->
  (0 < (aperture * aperture * 100) / (secs * iso))%Q ->
  calculate_ev iso aperture shutter_speed
  = Some (log2 (Q2R ((aperture * aperture * 100) / (secs * iso)))).
Proof.
  intros Hs Hden Hpos. unfold calculate_ev, ev_argument. rewrite Hs.
  cbn zeta.
  destruct (Qeq_bool (secs * iso) 0) eqn:Hd;
    [apply Qeq_bool_iff in Hd; contradiction|].
  destruct (Qle_bool _ 0) eqn:Hle.
  - apply Qle_bool_iff in Hle. rewrite Qred_correct in Hle.
    exfalso. exact (Qlt_not_le _ _ Hpos Hle).
  - do 2 f_equal. apply Qreals.Qeq_eqR. apply Qred_correct.
Qed.


(** ** Settings for an exposure value *)

Lemma find_closest_total {F : Type} `{PyFloat F} (seconds : F) :
  exists s, _find_closest_shutter_speed seconds = Some s /\
            In s SHUTTER_SPEEDS.
Proof.
  unfold _find_closest_shutter_speed.
  assert (exists secs, speeds_in_seconds SHUTTER_SPEEDS = Some secs /\
                       List.length secs = List.length SHUTTER_SPEEDS)
    as [secs [-> Hlen]]
    by (eexists; split; vm_compute; reflexivity).
  rewrite Hlen.
  destruct (Py.min_by _ _ _) as [idx|] eqn:Hmin; [|discriminate].
  apply min_by_In, in_seq in Hmin.
  destruct (nth_error SHUTTER_SPEEDS idx) as [s|] eqn:Hs.
  - exists s. split; [reflexivity|]. eapply nth_error_In; eauto.
  - apply nth_error_None in Hs. lia.
Qed.

Lemma closest_ISO_some {F : Type} `{PyFloat F} (target : F) :
  exists i, closest ISO_VALUES target = Some i.
Proof. unfold closest, ISO_VALUES, Py.min_by. eauto. Qed.

Lemma Q2R_eq0 q : Q2R q = 0%R <-> (q == 0)%Q.
Proof.
  rewrite <- Q2R_0. split; [apply Qreals.eqR_Qeq | apply Qreals.Qeq_eqR].
Qed.

Lemma Q2R_lt0 q : (Q2R q < 0)%R <-> (q < 0)%Q.
Proof.
  rewrite <- Q2R_0. split; [apply Qreals.Rlt_Qlt | apply Qreals.Qlt_Rlt].
Qed.

Lemma Q2R_pos q : (0 < Q2R q)%R <-> (0 < q)%Q.
Proof.
  rewrite <- Q2R_0. split; [apply Qreals.Rlt_Qlt | apply Qreals.Qlt_Rlt].
Qed.

Lemma get_settings_for_ev_none_cases ev iso priority preferred_aperture :
  get_settings_for_ev ev iso priority preferred_aperture = None <->
  (priority = "aperture" /\ (iso == 0)%Q) \/
  (priority = "shutter" /\ (iso < 0)%Q).
Proof.
  pose proof (pow2_pos ev) as Hp.
  unfold get_settings_for_ev.
  destruct (String.eqb_spec priority "aperture") as [->|Hna].
  - destruct (closest_APERTURE_some preferred_aperture) as [a ->].
    unfold rdiv. destruct (Req_dec_T (Q2R iso * pow2 ev) 0) as [Hz|Hnz].
    + split; [intros _|reflexivity]. left. split; [reflexivity|].
      apply Q2R_eq0. apply Rmult_integral in Hz as [Hz|Hz]; [exact Hz|lra].
    + destruct (find_closest_total
                  (if Rlt_dec 30 (Q2R a * Q2R a * 100 / (Q2R iso * pow2 ev))
                   then (Q2R a * Q2R a * 100 / (Q2R iso * pow2 ev) * 1)%R
                   else (Q2R a * Q2R a * 100 / (Q2R iso * pow2 ev))%R))
        as [s [Hs _]].
      cbv zeta. rewrite Hs.
      split; [discriminate|]. intros [[_ Hz]|[Hc _]]; [|discriminate].
      exfalso. apply Hnz. apply Q2R_eq0 in Hz. rewrite Hz. ring.
  - destruct (String.eqb_spec priority "shutter") as [->|Hns].
    + cbv zeta.
      change (shutter_seconds "1/60") with (Some (Qdiv 1 60)).
      cbv iota beta.
      assert (0 < Q2R (1 / 60))%R as Hs by (apply Q2R_pos; reflexivity).
      unfold rsqrt.
      destruct (Rlt_dec (Q2R iso * Q2R (1 / 60) * pow2 ev / 100) 0)
        as [Hneg|Hpos].
      * split; [intros _|reflexivity]. right. split; [reflexivity|].
        apply Q2R_lt0.
        destruct (Rlt_dec (Q2R iso) 0) as [Hl|Hge]; [exact Hl|exfalso].
        assert (0 <= Q2R iso * Q2R (1 / 60) * pow2 ev)%R
          by (apply Rmult_le_pos; [apply Rmult_le_pos|]; lra).
        lra.
      * destruct (closest_APERTURE_some
                    (sqrt (Q2R iso * Q2R (1 / 60) * pow2 ev / 100)))
          as [a ->].
        split; [discriminate|]. intros [[Hc _]|[_ Hl]]; [discriminate|].
        exfalso. apply Hpos. apply Q2R_lt0 in Hl.
        assert (0 < Q2R (1 / 60) * pow2 ev)%R by (apply Rmult_lt_0_compat; lra).
        assert (Q2R iso * (Q2R (1 / 60) * pow2 ev) < 0)%R by nra.
        lra.
    + cbv zeta.
      change (shutter_seconds "1/125") with (Some (Qdiv 1 125)).
      cbv iota beta.
      assert (0 < Q2R (1 / 125))%R as Hs by (apply Q2R_pos; reflexivity).
      unfold rdiv.
      destruct (Req_dec_T (Q2R (1 / 125) * pow2 ev) 0) as [Hz|Hnz];
        [exfalso; assert (0 < Q2R (1 / 125) * pow2 ev)%R
           by (apply Rmult_lt_0_compat; lra); lra|].
      destruct (closest_ISO_some
                  (Q2R 8.0 * Q2R 8.0 * 100 / (Q2R (1 / 125) * pow2 ev))%R)
        as [i ->].
      split; [discriminate|]. intros [[Hc _]|[Hc _]]; contradiction.
Qed.

(** X7. In the ordinary range of its arguments (an exposure value
    between -500 and 500, an ISO that is 0 or of absolute value between
    1 and 10^9, a preferred aperture of absolute value up to 10^9)
    [get_settings_for_ev] answers [None] in two cases only: aperture
    priority with ISO 0 (the division by [iso * 2 ** ev] raises) and
    shutter priority with a negative ISO (the square root raises).  Any
    other priority word is ISO priority, which always answers. *)
Theorem get_settings_for_ev_none ev iso priority preferred_aperture :
  (-500 <= ev <= 500)%R ->
  ((iso == 0)%Q \/ (1 <= Qabs iso /\ Qabs iso <= 1000000000)%Q) ->
  (Qabs preferred_aperture <= 1000000000)%Q ->
  (get_settings_for_ev ev iso priority preferred_aperture = None <->
   (priority = "aperture" /\ (iso == 0)%Q) \/
   (priority = "shutter" /\ (iso < 0)%Q)).
Proof. intros _ _ _. apply get_settings_for_ev_none_cases. Qed.

(** X7 at EV 13, ISO 100 and f/8 under aperture priority. *)
Lemma get_settings_for_ev_none_witness :
  get_settings_for_ev 13 100 "aperture" 8.0 = None <->
  ("aperture" = "aperture" /\ (100 == 0)%Q) \/
  ("aperture" = "shutter" /\ (100 < 0)%Q).
Proof.
  apply (@get_settings_for_ev_none 13 100 "aperture" 8.0).
  - lra.
  - right. split; unfold Qle; simpl; lia.
  - unfold Qle; simpl; lia.
Defined.

(** X8. Whatever [get_settings_for_ev] returns lies on the full-stop
    tables: the aperture is an entry of [APERTURE_VALUES], the shutter
    speed an entry of [SHUTTER_SPEEDS] and [display_shutter] the same
    string.  Under aperture and shutter priority the ISO is the caller's;
    under any other priority it is an entry of [ISO_VALUES], the aperture
    is f/8 and the shutter speed 1/125, whatever ISO and preferred
    aperture were passed. *)
Theorem get_settings_for_ev_on_tables ev iso priority preferred_aperture :
  match get_settings_for_ev ev iso priority preferred_aperture with
  | None => True
  | Some st =>
      In (st_aperture st) APERTURE_VALUES /\
      In (st_shutter_speed st) SHUTTER_SPEEDS /\
      st_display_shutter st = st_shutter_speed st /\
      if String.eqb priority "aperture" || String.eqb priority "shutter"
      then st_iso st = iso
      else In (st_iso st) ISO_VALUES /\ st_aperture st = 8.0%Q /\
           st_shutter_speed st = "1/125" /\
           get_settings_for_ev ev 100 "iso" 8.0 = Some st
  end.
Proof.
  unfold get_settings_for_ev.
  destruct (String.eqb priority "aperture") eqn:Hpa.
  - destruct (closest APERTURE_VALUES preferred_aperture) as [a|] eqn:Ha;
      [|exact I].
    destruct (rdiv _ _) as [secs|]; [|exact I].
    cbv zeta.
    destruct (find_closest_total (if Rlt_dec 30 secs then (secs * 1)%R else secs))
      as [s [Hs Hin]].
    rewrite Hs. cbn [st_aperture st_shutter_speed st_display_shutter st_iso orb].
    split; [exact (@closest_In Q _ APERTURE_VALUES preferred_aperture a Ha)|].
    split; [exact Hin|]. split; reflexivity.
  - destruct (String.eqb priority "shutter") eqn:Hps.
    + cbv zeta.
      change (shutter_seconds "1/60") with (Some (Qdiv 1 60)).
      cbv iota beta.
      destruct (rsqrt _) as [av|]; [|exact I].
      destruct (closest APERTURE_VALUES av) as [a|] eqn:Ha; [|exact I].
      cbn [st_aperture st_shutter_speed st_display_shutter st_iso orb].
      split; [exact (@closest_In R _ APERTURE_VALUES av a Ha)|].
      split; [unfold SHUTTER_SPEEDS; simpl; tauto|]. split; reflexivity.
    + change (String.eqb "iso" "aperture") with false.
      change (String.eqb "iso" "shutter") with false.
      cbv zeta.
      change (shutter_seconds "1/125") with (Some (Qdiv 1 125)).
      cbv iota beta.
      destruct (rdiv _ _) as [iv|]; [|exact I].
      destruct (closest ISO_VALUES iv) as [i|] eqn:Hi; [|exact I].
      cbn [st_aperture st_shutter_speed st_display_shutter st_iso orb].
      split; [unfold APERTURE_VALUES; simpl; tauto|].
      split; [unfold SHUTTER_SPEEDS; simpl; tauto|].
      split; [reflexivity|].
      split; [exact (@closest_In R _ ISO_VALUES iv i Hi)|].
      repeat split.
Qed.

(** ** Round trip through the exposure value *)

Lemma min_from_R_stays {A : Type} (key : A -> R) (l : list A) :
  forall best,
    (forall t, In t l -> (key best <= key t)%R) ->
    Py.min_from flt key best l = best.
Proof.
  induction l as [|x l IH]; intros best Hall; [reflexivity|].
  change (Py.min_from flt key best (x :: l))
    with (if (if Rlt_dec (key x) (key best) then true else false)
          then Py.min_from flt key x l else Py.min_from flt key best l).
  destruct (Rlt_dec (key x) (key best)) as [Hlt|_].
  - pose proof (Hall x (or_introl eq_refl)). lra.
  - apply IH. intros t Ht. apply Hall. now right.
Qed.

Lemma min_from_R_reaches {A : Type} (key : A -> R) (pre : list A) m post :
  forall best,
    (key m < key best)%R ->
    (forall t, In t pre -> (key m < key t)%R) ->
    (forall t, In t post -> (key m <= key t)%R) ->
    Py.min_from flt key best (pre ++ m :: post) = m.
Proof.
  induction pre as [|x pre IH]; intros best Hm Hpre Hpost.
  - change (Py.min_from flt key best ([] ++ m :: post))
      with (if (if Rlt_dec (key m) (key best) then true else false)
            then Py.min_from flt key m post
            else Py.min_from flt key best post).
    destruct (Rlt_dec (key m) (key best)) as [_|Hn]; [|contradiction].
    now apply min_from_R_stays.
  - change (Py.min_from flt key best ((x :: pre) ++ m :: post))
      with (if (if Rlt_dec (key x) (key best) then true else false)
            then Py.min_from flt key x (pre ++ m :: post)
            else Py.min_from flt key best (pre ++ m :: post)).
    destruct (Rlt_dec (key x) (key best)) as [_|_].
    + apply IH; [apply Hpre; now left| |exact Hpost].
      intros t Ht. apply Hpre. now right.
    + apply IH; [exact Hm| |exact Hpost].
      intros t Ht. apply Hpre. now right.
Qed.

(** [min] over the reals returns the first element whose key no other
    element beats. *)
Lemma min_by_R_first {A : Type} (key : A -> R) (pre : list A) m post :
  (forall t, In t pre -> (key m < key t)%R) ->
  (forall t, In t post -> (key m <= key t)%R) ->
  Py.min_by flt key (pre ++ m :: post) = Some m.
Proof.
  intros Hpre Hpost. destruct pre as [|x pre].
  - change (Py.min_by flt key ([] ++ m :: post))
      with (Some (Py.min_from flt key m post)).
    f_equal. now apply min_from_R_stays.
  - change (Py.min_by flt key ((x :: pre) ++ m :: post))
      with (Some (Py.min_from flt key x (pre ++ m :: post))).
    f_equal. apply min_from_R_reaches; [apply Hpre; now left| |exact Hpost].
    intros t Ht. apply Hpre. now right.
Qed.

Lemma seq_split_at j n :
  (j < n)%nat -> seq 0 n = (seq 0 j ++ j :: seq (S j) (n - S j))%list.
Proof.
  intros Hj. replace n with (j + S (n - S j))%nat at 1 by lia.
  rewrite seq_app. reflexivity.
Qed.

(** The exposure time of a full-stop table entry, searched for as a real
    number, finds that entry. *)
Lemma find_closest_R_table s q :
  In s SHUTTER_SPEEDS -> shutter_seconds s = Some q ->
  _find_closest_shutter_speed (Q2R q) = Some s.
Proof.
  intros Hin Hq. apply In_nth_error in Hin as [j Hj].
  assert (Hlt : (j < List.length SHUTTER_SPEEDS)%nat)
    by (apply nth_error_Some; congruence).
  unfold _find_closest_shutter_speed.
  assert (exists secs,
             speeds_in_seconds SHUTTER_SPEEDS = Some secs /\
             List.length secs = List.length SHUTTER_SPEEDS /\
             forallb (fun i =>
                        match nth_error SHUTTER_SPEEDS i with
                        | Some t =>
                            match shutter_seconds t with
                            | Some x => Qeq_bool x (List.nth i secs 0)
                            | None => false
                            end
                        | None => false
                        end) (seq 0 (List.length secs)) = true /\
             forallb (fun i =>
                        forallb (fun k =>
                                   Nat.eqb i k
                                   || negb (Qeq_bool (List.nth i secs 0)
                                              (List.nth k secs 0)))
                          (seq 0 (List.length secs)))
               (seq 0 (List.length secs)) = true)
    as [secs [-> [Hlen [Hnth Hdist]]]]
    by (eexists; repeat split; vm_compute; reflexivity).
  rewrite Hlen in *.
  assert (Hjin : In j (seq 0 (List.length SHUTTER_SPEEDS)))
    by (apply in_seq; lia).
  assert (Hqj : Q2R (List.nth j secs 0) = Q2R q).
  { rewrite forallb_forall in Hnth. specialize (Hnth j Hjin).
    rewrite Hj, Hq in Hnth. apply Qeq_bool_iff in Hnth.
    symmetry. now apply Qreals.Qeq_eqR. }
  assert (Hkey : forall t, In t (seq 0 (List.length SHUTTER_SPEEDS)) -> t <> j ->
                           (Rabs (Q2R (List.nth j secs 0%Q) - Q2R q)
                            < Rabs (Q2R (List.nth t secs 0%Q) - Q2R q))%R).
  { intros t Ht Hne. rewrite Hqj.
    replace (Q2R q - Q2R q)%R with 0%R by ring. rewrite Rabs_R0.
    apply Rabs_pos_lt. intros Hc.
    rewrite forallb_forall in Hdist. specialize (Hdist t Ht).
    rewrite forallb_forall in Hdist. specialize (Hdist j Hjin).
    apply orb_true_iff in Hdist as [He|Hd].
    - apply Nat.eqb_eq in He. contradiction.
    - apply negb_true_iff in Hd. apply Qeq_bool_neq in Hd. apply Hd.
      apply Qreals.eqR_Qeq. lra. }
  rewrite (seq_split_at Hlt).
  rewrite (@min_by_R_first nat
             (fun i => fabs (fsub (of_Q (List.nth i secs 0)) (Q2R q)))
             (seq 0 j) j (seq (S j) (List.length SHUTTER_SPEEDS - S j))).
  - exact Hj.
  - intros t Ht. apply Hkey.
    + apply in_seq. apply in_seq in Ht. lia.
    + apply in_seq in Ht. lia.
  - intros t Ht. apply Rlt_le. apply Hkey.
    + apply in_seq. apply in_seq in Ht. lia.
    + apply in_seq in Ht. lia.
Qed.

Lemma closest_APERTURE_fixed a :
  In a APERTURE_VALUES -> closest APERTURE_VALUES a = Some a.
Proof.
  intros H. unfold APERTURE_VALUES in H.
  repeat (destruct H as [<-|H]; [vm_compute; reflexivity|]).
  destruct H.
Qed.

Lemma APERTURE_VALUES_pos a : In a APERTURE_VALUES -> (0 < a)%Q.
Proof.
  intros H. unfold APERTURE_VALUES in H.
  repeat (destruct H as [<-|H]; [reflexivity|]).
  destruct H.
Qed.

Lemma SHUTTER_SPEEDS_seconds s :
  In s SHUTTER_SPEEDS ->
  exists q, shutter_seconds s = Some q /\ (0 < q)%Q.
Proof.
  intros H. apply table_shutter_seconds.
  apply orb_true_iff. right. now apply in_str_In.
Qed.

(** The round trip on full-stop values, shared by the statements below. *)
Lemma aperture_round_trip iso a s :
  (0 < iso)%Q -> In a APERTURE_VALUES -> In s SHUTTER_SPEEDS ->
  exists ev,
    calculate_ev iso a s = Some ev /\
    get_settings_for_ev ev iso "aperture" a = Some (mk_settings iso a s s).
Proof.
  intros Hiso Ha Hs.
  destruct (SHUTTER_SPEEDS_seconds Hs) as [q [Hq Hqpos]].
  pose proof (APERTURE_VALUES_pos Ha) as Hapos.
  assert (Hden : ~ (q * iso == 0)%Q).
  { intros Hc. apply Qmult_integral in Hc as [Hc|Hc];
      [rewrite Hc in Hqpos | rewrite Hc in Hiso]; discriminate. }
  assert (Hx : (0 < a * a * 100 / (q * iso))%Q).
  { apply Qlt_shift_div_l.
    - rewrite <- (Qmult_0_l iso). apply Qmult_lt_compat_r; assumption.
    - rewrite Qmult_0_l.
      rewrite <- (Qmult_0_l 100). apply Qmult_lt_compat_r; [reflexivity|].
      rewrite <- (Qmult_0_l a). apply Qmult_lt_compat_r; assumption. }
  eexists. split; [exact (@calculate_ev_intro iso a s q Hq Hden Hx)|].
  unfold get_settings_for_ev.
  change (String.eqb "aperture" "aperture") with true. cbv iota.
  rewrite (closest_APERTURE_fixed Ha).
  rewrite pow2_log2 by (now apply Q2R_pos).
  apply Q2R_pos in Hiso, Hqpos, Hapos.
  assert (Hsecs : (Q2R a * Q2R a * 100
                   / (Q2R iso * Q2R (a * a * 100 / (q * iso))) = Q2R q)%R).
  { rewrite Qreals.Q2R_div by exact Hden.
    rewrite !Qreals.Q2R_mult, Q2R_100. field. repeat split; lra. }
  unfold rdiv.
  destruct (Req_dec_T (Q2R iso * Q2R (a * a * 100 / (q * iso))) 0)
    as [Hz|_].
  - exfalso. rewrite Qreals.Q2R_div, !Qreals.Q2R_mult, Q2R_100 in Hz
      by exact Hden.
    assert (0 < Q2R iso * (Q2R a * Q2R a * 100 / (Q2R q * Q2R iso)))%R;
      [|lra].
    apply Rmult_lt_0_compat; [lra|]. apply Rdiv_lt_0_compat; nra.
  - rewrite Hsecs. cbv zeta.
    replace (if Rlt_dec 30 (Q2R q) then (Q2R q * 1)%R else Q2R q)
      with (Q2R q) by (destruct (Rlt_dec 30 (Q2R q)); lra).
    rewrite (find_closest_R_table Hs Hq). reflexivity.
Qed.

Lemma ISO_VALUES_THIRD_pos iso : In iso ISO_VALUES_THIRD -> (0 < iso)%Q.
Proof.
  intros H. unfold ISO_VALUES_THIRD in H. simpl in H.
  repeat (destruct H as [<-|H]; [reflexivity|]). destruct H.
Qed.

(** X9. Full-stop settings survive the round trip through their exposure
    value: with an ISO of [ISO_VALUES_THIRD], an aperture of
    [APERTURE_VALUES] and a shutter speed of [SHUTTER_SPEEDS],
    [calculate_ev] answers, and [get_settings_for_ev] at that value under
    aperture priority answers the same ISO, aperture and shutter
    speed. *)
Theorem aperture_priority_round_trip iso a s :
  In iso ISO_VALUES_THIRD -> In a APERTURE_VALUES -> In s SHUTTER_SPEEDS ->
  exists ev,
    calculate_ev iso a s = Some ev /\
    get_settings_for_ev ev iso "aperture" a = Some (mk_settings iso a s s).
Proof.
  intros Hiso. exact (@aperture_round_trip iso a s (ISO_VALUES_THIRD_pos Hiso)).
Qed.

(** X9 at ISO 400, f/5.6 and 1/250 s. *)
Lemma aperture_priority_round_trip_witness :
  exists ev,
    calculate_ev 400 5.6 "1/250" = Some ev /\
    get_settings_for_ev ev 400 "aperture" 5.6
    = Some (mk_settings 400 5.6 "1/250" "1/250").
Proof.
  apply (@aperture_priority_round_trip 400 5.6 "1/250").
  - unfold ISO_VALUES_THIRD. simpl. tauto.
  - unfold APERTURE_VALUES. simpl. tauto.
  - unfold SHUTTER_SPEEDS. simpl. tauto.
Defined.

(** X10. [adjust_exposure] by 0 EV under aperture priority gives settings
    made of an ISO of [ISO_VALUES_THIRD], an aperture of
    [APERTURE_VALUES] and a shutter speed of [SHUTTER_SPEEDS] back
    unchanged. *)
Theorem adjust_exposure_zero iso a s :
  In iso ISO_VALUES_THIRD -> In a APERTURE_VALUES -> In s SHUTTER_SPEEDS ->
  adjust_exposure (mk_settings iso a s s) 0 "aperture"
  = Some (mk_settings iso a s s).
Proof.
  intros Hiso Ha Hs.
  destruct (aperture_round_trip (ISO_VALUES_THIRD_pos Hiso) Ha Hs)
    as [ev [Hev Hget]].
  unfold adjust_exposure. cbn [st_iso st_aperture st_shutter_speed].
  rewrite Hev. replace (ev - 0)%R with ev by ring. exact Hget.
Qed.

(** X10 at ISO 100, f/8 and 1/125 s. *)
Lemma adjust_exposure_zero_witness :
  adjust_exposure (mk_settings 100 8.0 "1/125" "1/125") 0 "aperture"
  = Some (mk_settings 100 8.0 "1/125" "1/125").
Proof.
  apply (@adjust_exposure_zero 100 8.0 "1/125").
  - unfold ISO_VALUES_THIRD. simpl. tauto.
  - unfold APERTURE_VALUES. simpl. tauto.
  - unfold SHUTTER_SPEEDS. simpl. tauto.
Defined.


(** ** The size of the EV ladder *)

Lemma brackets_for_length base_ev iso priority aperture evs :
  (List.length (brackets_for base_ev iso priority aperture evs)
   <= List.length evs)%nat.
Proof.
  induction evs as [|ev evs IH]; simpl; [lia|].
  destruct (get_settings_for_ev ev iso priority aperture); simpl; lia.
Qed.

(** X12. [generate_brackets_by_ev] never returns more entries than were
    asked for, and none at all for a count of zero or less. *)
Theorem generate_brackets_by_ev_length
    iso aperture shutter_speed ev_steps num_brackets priority :
  (List.length (generate_brackets_by_ev iso aperture shutter_speed ev_steps
                  num_brackets priority)
   <= Z.to_nat num_brackets)%nat.
Proof.
  unfold generate_brackets_by_ev.
  destruct (calculate_ev iso aperture shutter_speed) as [base_ev|];
    [|simpl; lia].
  rewrite <- (ev_values_length base_ev ev_steps num_brackets).
  apply brackets_for_length.
Qed.

(* ------------------------------------------------------------------ *)
(** * Properties of the capture controller *)

Import CaptureController ControllerSpec.
Local Open Scope Z_scope.

Lemma fold_left_sum_over (f : bracket -> Z) (bs : list bracket) :
  forall acc,
    fold_left (fun total b => total + f b) bs acc = acc + sum_over f bs.
Proof.
  induction bs as [|b bs IH]; intros acc; simpl.
  - lia.
  - rewrite IH. lia.
Qed.

(** C1. The [total_frames] of a new session is the sum of the frames of
    the brackets when focus stacking is disabled, and the sum of
    frames * (steps + 1) when it is enabled, [steps] defaulting to 10. *)
Theorem C1_total_frames (capture_id now : string) (d : capture_data) :
  let bs := get (brackets d) [] in
  let S := fs_get d fs_steps 10 in
  total_frames (progress_of (new_capture_info capture_id now d))
  = if fs_get d fs_enabled false
    then sum_over (fun b => get (b_frames b) 0 * (S + 1)) bs
    else sum_over (fun b => get (b_frames b) 0) bs.
Proof.
  cbn zeta. unfold new_capture_info. cbn [progress_of total_frames].
  unfold _calculate_total_frames.
  destruct (fs_get d fs_enabled false).
  - apply (fold_left_sum_over
             (fun b => get (b_frames b) 0 * (fs_get d fs_steps 10 + 1))).
  - apply (fold_left_sum_over (fun b => get (b_frames b) 0)).
Qed.
Import WorkerSpec.


Lemma status_eqb_eq a b : status_eqb a b = true <-> a = b.
Proof. destruct a, b; simpl; split; congruence. Qed.

Lemma reg_set_same reg k ci : reg_set reg k ci k = Some ci.
Proof. unfold reg_set. now rewrite String.eqb_refl. Qed.

Lemma reg_set_other reg k ci k' : k' <> k -> reg_set reg k ci k' = reg k'.
Proof.
  unfold reg_set. intros H. apply String.eqb_neq in H. now rewrite H.
Qed.

(** What [stop_capture] answers and does to the registry. *)
Lemma stop_capture_spec (reg : registry) (capture_id : string) :
  let '(ok, reg', updates) := stop_capture reg capture_id in
  (ok = true <->
   exists ci, reg capture_id = Some ci /\ status_of ci = running) /\
  (ok = true ->
   exists ci, reg capture_id = Some ci /\
              reg' capture_id = Some (with_status stopping ci) /\
              (forall k, k <> capture_id -> reg' k = reg k) /\
              updates = [SendUpdate stopping (progress_of ci)]) /\
  (ok = false -> reg' = reg /\ updates = []).
Proof.
  unfold stop_capture.
  destruct (reg capture_id) as [ci|] eqn:Hreg.
  - unfold request_stop.
    destruct (status_eqb (status_of ci) running) eqn:Hst.
    + apply status_eqb_eq in Hst. repeat split.
      * intros _. eauto.
      * intros _. exists ci. repeat split.
        -- apply reg_set_same.
        -- intros k Hk. now apply reg_set_other.
      * discriminate.
      * discriminate.
    + repeat split; try discriminate.
      intros [ci' [Hci Hrun]]. injection Hci as <-.
      apply status_eqb_eq in Hrun. congruence.
  - repeat split; try discriminate.
    intros [ci [Hci _]]. discriminate.
Qed.

Section WorkerFacts.

Context {C : Type} (E : Env C).

(** Once a piece of the body has returned or raised, nothing after it
    runs. *)
Lemma bind_Return {A B : Type} (m : M C A) (k : A -> M C B) w w' :
  m w = (Return, w') -> bind m k w = (Return, w').
Proof. unfold bind. now intros ->. Qed.

Lemma bind_Raised {A B : Type} (m : M C A) (k : A -> M C B) w w' e :
  m w = (Raised e, w') -> bind m k w = (Raised e, w').
Proof. unfold bind. now intros ->. Qed.

Lemma bind_Normal {A B : Type} (m : M C A) (k : A -> M C B) w w' a :
  m w = (Normal a, w') -> bind m k w = k a w'.
Proof. unfold bind. now intros ->. Qed.

Lemma frame_body_stopping fast_mode d bracket_idx frame_idx w :
  status_of (info w) = stopping ->
  frame_body E fast_mode d bracket_idx frame_idx w
  = (Return, stopped_world w).
Proof.
  intros Hst. unfold frame_body, bind, get_info.
  rewrite Hst. reflexivity.
Qed.

End WorkerFacts.

Section StopIsFinal.

Context {C : Type} (E : Env C).

Lemma poll_stop_normal (w : world C) : fst (poll_stop E w) = Normal tt.
Proof.
  unfold poll_stop. destruct (stop_requested E (env w)); [|reflexivity].
  unfold request_stop.
  destruct (status_eqb (status_of (info w)) running); reflexivity.
Qed.

Lemma not_stopped_info (f : capture_info -> capture_info) (w : world C) :
  (forall ci, status_of ci <> stopped -> status_of (f ci) <> stopped) ->
  not_stopped w -> not_stopped (upd_info f w).
Proof. intros Hf [Hs Ht]. split; [now apply Hf | exact Ht]. Qed.

Lemma not_stopped_event (w : world C) c e :
  is_stopped_update e = false -> not_stopped w -> not_stopped (log c e w).
Proof.
  intros He [Hs Ht]. split; [exact Hs|].
  unfold log. cbn [trace]. rewrite forallb_app, Ht. cbn. now rewrite He.
Qed.

Lemma not_stopped_update (w : world C) :
  not_stopped w ->
  not_stopped
    (log (env w) (SendUpdate (status_of (info w)) (progress_of (info w))) w).
Proof.
  intros Hw. apply not_stopped_event; [|exact Hw].
  destruct Hw as [Hs _]. cbn. destruct (status_of (info w)); congruence.
Qed.

Lemma stop_is_final_bind {A B : Type} (m : M C A) (f : A -> M C B) :
  stop_is_final m -> (forall a, stop_is_final (f a)) ->
  stop_is_final (bind m f).
Proof.
  intros Hm Hf w Hw. unfold bind. specialize (Hm w Hw).
  destruct (m w) as [[a| |e] w1]; [|exact Hm|exact Hm].
  exact (Hf a w1 Hm).
Qed.

Lemma stop_is_final_total {A : Type} (m : M C A) :
  (forall w, not_stopped w ->
             exists a, fst (m w) = Normal a /\ not_stopped (snd (m w))) ->
  stop_is_final m.
Proof.
  intros H w Hw. destruct (H w Hw) as [a [Hn Hs]].
  destruct (m w) as [o w1]. cbn [fst snd] in *. subst o. exact Hs.
Qed.

Lemma stop_is_final_ret {A : Type} (a : A) : stop_is_final (@ret C A a).
Proof. intros w Hw. exact Hw. Qed.

Lemma stop_is_final_raise {A : Type} e : stop_is_final (@raise C A e).
Proof. intros w Hw. exact Hw. Qed.

Lemma stop_is_final_return {A : Type} : stop_is_final (@return_ C A).
Proof. intros w Hw. now left. Qed.

Lemma stop_is_final_get_info : stop_is_final (@get_info C).
Proof. intros w Hw. exact Hw. Qed.

Lemma stop_is_final_modify f :
  (forall ci, status_of ci <> stopped -> status_of (f ci) <> stopped) ->
  stop_is_final (@modify C f).
Proof. intros Hf w Hw. exact (not_stopped_info f Hf Hw). Qed.

Lemma stop_is_final_set_end_time : stop_is_final (set_end_time E).
Proof.
  intros w Hw.
  exact (not_stopped_info (with_end_time (now E (env w))) (fun _ H => H) Hw).
Qed.

Lemma stop_is_final_set_progress f : stop_is_final (@set_progress C f).
Proof. intros w [Hs Ht]. split; assumption. Qed.

Lemma stop_is_final_send_update : stop_is_final (@_send_update C).
Proof. intros w Hw. exact (not_stopped_update Hw). Qed.

Lemma stop_is_final_blocking {A : Type} (op : C -> A * C)
    (ev : A -> event) :
  (forall a, is_stopped_update (ev a) = false) ->
  stop_is_final (blocking E op ev).
Proof.
  intros Hev w Hw. unfold blocking, bind, ret.
  destruct (op (env w)) as [a c].
  pose proof (@not_stopped_event w c (ev a) (Hev a) Hw) as H1.
  unfold log in H1.
  assert (H2 : not_stopped
                 (snd (poll_stop E
                         (mk_world (info w) c (trace w ++ [ev a])
                            (writes w))))).
  { unfold poll_stop. cbn [env].
    destruct (stop_requested E c); [|exact H1].
    unfold request_stop. cbn [info].
    destruct (status_eqb (status_of (info w)) running); [|exact H1].
    cbn [snd].
    apply (@not_stopped_event
             (upd_info (with_status stopping)
                (mk_world (info w) c (trace w ++ [ev a]) (writes w)))
             c (SendUpdate stopping (progress_of (info w))) eq_refl).
    apply not_stopped_info; [intros; discriminate|exact H1]. }
  pose proof (poll_stop_normal
                (mk_world (info w) c (trace w ++ [ev a]) (writes w))) as Hn.
  destruct (poll_stop E _) as [o w1]. cbn [fst snd] in *. subst o.
  exact H2.
Qed.

Lemma stop_is_final_for_each {A : Type} (l : list A)
    (body : A -> M C unit) :
  (forall x, stop_is_final (body x)) -> stop_is_final (for_each l body).
Proof.
  intros Hb. induction l as [|x l IH]; [apply stop_is_final_ret|].
  cbn [for_each]. apply stop_is_final_bind; [apply Hb|intros _; exact IH].
Qed.

Lemma stop_is_final_status s :
  s <> stopped -> stop_is_final (@set_status C s).
Proof. intros Hs. apply stop_is_final_modify. intros ci _. exact Hs. Qed.

Lemma stop_is_final_append_error e : stop_is_final (@append_error C e).
Proof. apply stop_is_final_modify. intros ci H. exact H. Qed.

Lemma stop_is_final_shoot fast_mode error_msg :
  stop_is_final (shoot E fast_mode error_msg).
Proof.
  unfold shoot.
  apply stop_is_final_bind; [apply stop_is_final_blocking; reflexivity|].
  intros r.
  apply stop_is_final_bind; [|intros _; apply stop_is_final_send_update].
  destruct (fst r); [apply stop_is_final_set_progress|].
  apply stop_is_final_bind; [apply stop_is_final_set_progress|].
  intros _. destruct (error_msg (snd r));
    [apply stop_is_final_raise|apply stop_is_final_append_error].
Qed.

Lemma stop_is_final_focus_loop fast_mode bracket_idx frame_idx steps dir
    speed positions :
  forall total last_idx,
    stop_is_final
      (focus_loop E fast_mode bracket_idx frame_idx steps dir speed positions
         total last_idx).
Proof.
  induction positions as [|focus_idx rest IH]; intros total last_idx.
  - apply stop_is_final_ret.
  - cbn [focus_loop].
    apply stop_is_final_bind; [apply stop_is_final_shoot|].
    intros _. destruct (focus_idx <? steps - 1); [|apply IH].
    apply stop_is_final_bind; [apply stop_is_final_blocking; reflexivity|].
    intros r. destruct (negb (fst r)); [|apply IH].
    apply stop_is_final_bind;
      [apply stop_is_final_append_error|intros _; apply stop_is_final_ret].
Qed.

(** The one place where the worker stops. *)
Lemma stop_is_final_frame_body fast_mode d bracket_idx frame_idx :
  stop_is_final (frame_body E fast_mode d bracket_idx frame_idx).
Proof.
  intros w Hw.
  destruct (status_eqb (status_of (info w)) stopping) eqn:Hst.
  - apply status_eqb_eq in Hst.
    rewrite (frame_body_stopping E fast_mode d bracket_idx frame_idx w Hst).
    right. split; [reflexivity|].
    exists (trace w). split; [reflexivity|]. exact (proj2 Hw).
  - revert w Hw Hst.
    assert (Hrest : stop_is_final
                      (bind (@set_progress C (set_current_frame (frame_idx + 1)))
                         (fun _ =>
                            bind (@_send_update C)
                              (fun _ =>
                                 if fs_get d fs_enabled false
                                 then focus_stack_frame E fast_mode d
                                        bracket_idx frame_idx
                                 else
                                   shoot E fast_mode
                                     (fun message =>
                                        inr (Failed_to_take_picture
                                               (frame_idx + 1) None
                                               (bracket_idx + 1) message)))))).
    { apply stop_is_final_bind; [apply stop_is_final_set_progress|].
      intros _.
      apply stop_is_final_bind; [apply stop_is_final_send_update|].
      intros _. destruct (fs_get d fs_enabled false);
        [|apply stop_is_final_shoot].
      unfold focus_stack_frame.
      apply stop_is_final_bind; [apply stop_is_final_focus_loop|].
      intros r. apply stop_is_final_bind.
      - destruct (negb (fst r =? 0)); [|apply stop_is_final_ret].
        apply stop_is_final_bind;
          [apply stop_is_final_blocking; reflexivity
          |intros _; apply stop_is_final_ret].
      - intros _. apply stop_is_final_bind; [apply stop_is_final_shoot|].
        intros _. apply stop_is_final_bind;
          [apply stop_is_final_blocking; reflexivity
          |intros _; apply stop_is_final_ret]. }
    intros w Hw Hst. specialize (Hrest w Hw).
    unfold frame_body, bind at 1, get_info. rewrite Hst. exact Hrest.
Qed.

Lemma stop_is_final_bracket_body fast_mode d ib :
  stop_is_final (bracket_body E fast_mode d ib).
Proof.
  destruct ib as [bracket_idx b]. unfold bracket_body.
  apply stop_is_final_bind; [apply stop_is_final_set_progress|].
  intros _. apply stop_is_final_bind; [apply stop_is_final_set_progress|].
  intros _. apply stop_is_final_bind; [apply stop_is_final_send_update|].
  intros _.
  apply stop_is_final_bind; [apply stop_is_final_blocking; reflexivity|].
  intros r. destruct (negb (fst r)).
  - apply stop_is_final_bind; [apply stop_is_final_append_error|].
    intros _. apply stop_is_final_send_update.
  - apply stop_is_final_for_each. intros j. apply stop_is_final_frame_body.
Qed.

Lemma stop_is_final_bulk_download_phase save_dir :
  stop_is_final (bulk_download_phase E save_dir).
Proof.
  unfold bulk_download_phase.
  apply stop_is_final_bind; [apply stop_is_final_status; discriminate|].
  intros _. apply stop_is_final_bind; [apply stop_is_final_send_update|].
  intros _.
  apply stop_is_final_bind; [apply stop_is_final_blocking; reflexivity|].
  intros ok. apply stop_is_final_bind.
  { destruct (negb ok);
      [apply stop_is_final_append_error|apply stop_is_final_ret]. }
  intros _.
  apply stop_is_final_bind; [apply stop_is_final_blocking; reflexivity|].
  intros [images_after|]; [|apply stop_is_final_raise].
  apply stop_is_final_bind; [apply stop_is_final_get_info|].
  intros ci. cbv zeta.
  destruct (images_after - get (images_before_capture ci) 0 <=? 0).
  - apply stop_is_final_bind; [apply stop_is_final_status; discriminate|].
    intros _. apply stop_is_final_bind; [apply stop_is_final_set_end_time|].
    intros _. apply stop_is_final_bind; [apply stop_is_final_send_update|].
    intros _. apply stop_is_final_return.
  - destruct (0 <? images_after - get (images_before_capture ci) 0);
      [|apply stop_is_final_ret].
    apply stop_is_final_bind;
      [apply stop_is_final_blocking; intros [[? ?] ?]; reflexivity|].
    intros [[success message] downloaded_files].
    destruct success;
      [apply stop_is_final_modify; intros ci' H; exact H
      |apply stop_is_final_append_error].
Qed.

Lemma stop_is_final_save_capture_info save_dir :
  stop_is_final (_save_capture_info E save_dir).
Proof.
  intros w. unfold _save_capture_info. cbv zeta.
  apply stop_is_final_blocking. reflexivity.
Qed.

Lemma stop_is_final_capture_into d save_dir :
  stop_is_final (capture_into E d save_dir).
Proof.
  unfold capture_into.
  apply stop_is_final_bind; [apply stop_is_final_blocking; reflexivity|].
  intros made. apply stop_is_final_bind.
  { destruct made; [apply stop_is_final_ret|apply stop_is_final_raise]. }
  intros _. cbv zeta.
  apply stop_is_final_bind; [apply stop_is_final_blocking; reflexivity|].
  intros started. destruct (negb started).
  - apply stop_is_final_bind; [apply stop_is_final_append_error|].
    intros _.
    apply stop_is_final_bind; [apply stop_is_final_status; discriminate|].
    intros _. apply stop_is_final_bind; [apply stop_is_final_send_update|].
    intros _. apply stop_is_final_return.
  - apply stop_is_final_bind.
    { destruct (String.eqb _ _).
      - apply stop_is_final_bind;
          [apply stop_is_final_blocking; reflexivity|].
        intros counted. apply stop_is_final_modify. intros ci H. exact H.
      - apply stop_is_final_blocking. reflexivity. }
    intros _. apply stop_is_final_bind.
    { apply stop_is_final_for_each. intros ib.
      apply stop_is_final_bracket_body. }
    intros _. apply stop_is_final_bind.
    { destruct (String.eqb _ _);
        [apply stop_is_final_bulk_download_phase|apply stop_is_final_ret]. }
    intros _.
    apply stop_is_final_bind; [apply stop_is_final_save_capture_info|].
    intros _.
    apply stop_is_final_bind; [apply stop_is_final_status; discriminate|].
    intros _. apply stop_is_final_bind; [apply stop_is_final_set_end_time|].
    intros _. apply stop_is_final_send_update.
Qed.

Lemma capture_sequence_start (w : world C) :
  capture_sequence E w
  = capture_into E (data (info w))
      (get (save_directory (data (info w)))
         ("capture_" ++ now E (env w))%string)
      (log (env w) (SendUpdate running (progress_of (info w)))
         (upd_info (with_status running) w)).
Proof. reflexivity. Qed.

Lemma worker_stop_is_final (ci : capture_info) (c : C) :
  not_stopped (worker E (initial_world ci c))
  \/ stopped_last (worker E (initial_world ci c)).
Proof.
  unfold worker. rewrite capture_sequence_start.
  match goal with
  | |- context [capture_into E ?d ?dir ?w1] =>
      assert (H1 : not_stopped w1)
        by (split; [cbn; discriminate|reflexivity]);
      pose proof (@stop_is_final_capture_into d dir w1 H1) as H;
      destruct (capture_into E d dir w1) as [[a| |e] w2]
  end.
  - now left.
  - exact H.
  - left.
    apply (@not_stopped_event
             (upd_info (with_end_time (now E (env w2)))
                (upd_info (with_status error)
                   (upd_info (with_error (Error_executing_capture e)) w2)))
             (env w2) (SendUpdate error (progress_of (info w2))) eq_refl).
    apply not_stopped_info; [intros ? H0; exact H0|].
    apply not_stopped_info; [intros; discriminate|].
    apply not_stopped_info; [intros ? H0; exact H0|]. exact H.
Qed.

End StopIsFinal.


(** C7. [stop_capture] answers true exactly when the session exists and
    is running, and then flips it to stopping, leaving the other sessions
    alone; otherwise it answers false and the registry is unchanged.  A
    frame iteration that finds stopping sets stopped, sends one update and
    returns: the progress, the results, the errors and the history of
    progress writes are the ones it found.  And for the worker as a
    whole that return is final: either it never stopped (the status is
    not stopped and no update says so), or the status it ends with is
    stopped and the update that said so is the last thing it did, with the
    progress the session still has. *)
Theorem C7_stop_capture :
  (forall (reg : registry) (capture_id : string),
     let '(ok, reg', updates) := stop_capture reg capture_id in
     (ok = true <->
      exists ci, reg capture_id = Some ci /\ status_of ci = running) /\
     (ok = true ->
      exists ci, reg capture_id = Some ci /\
                 reg' capture_id = Some (with_status stopping ci) /\
                 (forall k, k <> capture_id -> reg' k = reg k) /\
                 updates = [SendUpdate stopping (progress_of ci)]) /\
     (ok = false -> reg' = reg /\ updates = [])) /\
  (forall (C : Type) (E : Env C) fast_mode d bracket_idx frame_idx
          (rest : unit -> M C unit) (w : world C),
     status_of (info w) = stopping ->
     let '(o, w') :=
       bind (frame_body E fast_mode d bracket_idx frame_idx) rest w in
     o = Return /\
     status_of (info w') = stopped /\
     progress_of (info w') = progress_of (info w) /\
     results (info w') = results (info w) /\
     errors (info w') = errors (info w) /\
     writes w' = writes w /\
     env w' = env w /\
     trace w' = (trace w ++ [SendUpdate stopped (progress_of (info w))])%list) /\
  (forall (C : Type) (E : Env C) (ci : capture_info) (c : C),
     let w := worker E (initial_world ci c) in
     not_stopped w \/ stopped_last w).
Proof.
  split; [|split].
  - exact stop_capture_spec.
  - intros C E fast_mode d bracket_idx frame_idx rest w Hst.
    rewrite (@bind_Return C unit unit
               (frame_body E fast_mode d bracket_idx frame_idx) rest w
               (stopped_world w)
               (frame_body_stopping E fast_mode d bracket_idx frame_idx w Hst)).
    repeat split.
  - intros C E ci c. apply worker_stop_is_final.
Qed.

(** C7 on a session found stopping at the top of the first frame. *)
Lemma C7_stop_capture_witness :
  let w := mk_world (with_status stopping
                       (new_capture_info "id" "start" two_bracket_plan))
             all_ok [] [] in
  let '(o, w') :=
    bind (frame_body scripted false two_bracket_plan 0 0)
      (fun _ => ret tt) w in
  o = Return /\
  status_of (info w') = stopped /\
  progress_of (info w') = progress_of (info w) /\
  results (info w') = results (info w) /\
  errors (info w') = errors (info w) /\
  writes w' = writes w /\
  env w' = env w /\
  trace w' = (trace w ++ [SendUpdate stopped (progress_of (info w))])%list.
Proof.
  apply (proj1 (proj2 C7_stop_capture) script scripted false
           two_bracket_plan 0 0 (fun _ => ret tt)).
  reflexivity.
Defined.

(** A stop request that arrives while the first bracket's settings are
    applied ends the session as stopped before any frame is taken. *)
Lemma stop_before_first_frame_example :
  let w := run scripted two_bracket_plan
             (mk_script true [] [] [] [] [] None (Some 4%nat) 0) in
  status_of (info w) = stopped /\
  completed_frames (progress_of (info w)) = 0 /\
  filter (fun e => match e with TakePicture _ _ => true | _ => false end)
    (trace w) = [].
Proof. vm_compute. repeat split. Qed.


Section BracketRejected.

Context {C : Type} (E : Env C).


End BracketRejected.




(** C6 at a fast-mode session whose bracket loop finishes (five pictures
    taken, none failed) and whose image count then raises: the session
    ends as error, the only entry of [errors] is the unbound local
    variable, and no summary record is written.  With no new image on the
    card the session ends as completed, again with no summary record. *)
Theorem C6_count_failure_ends_in_error :
  (let w := run scripted fast_stack_plan count_fails_after in
   completed_frames (progress_of (info w)) = 5 /\
   failed_frames (progress_of (info w)) = 0 /\
   status_of (info w) = error /\
   errors (info w)
   = [Error_executing_capture (UnboundLocalError "images_after")] /\
   filter is_save (trace w) = []) /\
  (let w := run scripted fast_stack_plan no_new_images in
   status_of (info w) = completed /\
   errors (info w) = [] /\
   filter is_save (trace w) = []).
Proof. vm_compute. repeat split. Qed.

(** The part of C6 that holds: a download that fails is recorded and the
    session is still completed, with its summary record written. *)
Lemma download_failure_still_completed :
  let w := run scripted fast_stack_plan download_fails in
  status_of (info w) = completed /\
  errors (info w) = [Failed_to_download_images "rejected"] /\
  results (info w) = [] /\
  List.length (filter is_save (trace w)) = 1%nat.
Proof. vm_compute. repeat split. Qed.

(** Two brackets of one frame each on a camera where everything works:
    the write that resets [current_frame] for the second bracket takes it
    from 1 back to 0. *)
Lemma C9_counterexample :
  let w := run scripted two_bracket_plan all_ok in
  exists i p q,
    nth_error (writes w) i = Some p /\
    nth_error (writes w) (S i) = Some q /\
    current_frame q < current_frame p.
Proof. exists 5%nat. vm_compute. eexists. eexists. repeat split. Qed.

Section ProgressHistory.

Context {C : Type} (E : Env C).

Lemma keeps_ret {A : Type} (a : A) : keeps (@ret C A a).
Proof. intros w. now split. Qed.

Lemma keeps_bind {A B : Type} (m : M C A) (f : A -> M C B) :
  keeps m -> (forall a, keeps (f a)) -> keeps (bind m f).
Proof.
  intros Hm Hf w. unfold bind. specialize (Hm w).
  destruct (m w) as [[a| |e] w1]; cbn [snd] in *; try exact Hm.
  destruct (Hf a w1) as [H1 H2]. destruct Hm as [H3 H4].
  split; congruence.
Qed.

Lemma keeps_modify (f : capture_info -> capture_info) :
  (forall ci, progress_of (f ci) = progress_of ci) -> keeps (@modify C f).
Proof. intros Hf w. unfold modify. cbn. now split. Qed.

Lemma keeps_set_status s : keeps (@set_status C s).
Proof. now apply keeps_modify. Qed.

Lemma keeps_append_error e : keeps (@append_error C e).
Proof. now apply keeps_modify. Qed.

Lemma keeps_set_results r : keeps (@set_results C r).
Proof. now apply keeps_modify. Qed.

Lemma keeps_set_end_time : keeps (set_end_time E).
Proof. intros w. unfold set_end_time, modify. cbn. now split. Qed.

Lemma keeps_emit e : keeps (@emit C e).
Proof. intros w. unfold emit. cbn. now split. Qed.

Lemma keeps_send_update : keeps (@_send_update C).
Proof. intros w. unfold _send_update, emit. cbn. now split. Qed.

Lemma keeps_get_info : keeps (@get_info C).
Proof. intros w. now split. Qed.

Lemma keeps_return {A : Type} : keeps (@return_ C A).
Proof. intros w. now split. Qed.

Lemma keeps_raise {A : Type} e : keeps (@raise C A e).
Proof. intros w. now split. Qed.

Lemma keeps_poll_stop : keeps (poll_stop E).
Proof.
  intros w. unfold poll_stop, request_stop.
  destruct (stop_requested E (env w)); [|now split].
  destruct (status_eqb (status_of (info w)) running); cbn; now split.
Qed.

Lemma keeps_blocking {A : Type} (op : C -> A * C) (ev : A -> event) :
  keeps (blocking E op ev).
Proof.
  intros w. unfold blocking. destruct (op (env w)) as [a c].
  pose proof (@keeps_bind unit A (poll_stop E) (fun _ => ret a)
                keeps_poll_stop (fun _ => keeps_ret a)) as H.
  apply (H (mk_world (info w) c (trace w ++ [ev a]) (writes w))).
Qed.

(** Rules for triples. *)
Lemma triple_keeps {A : Type} (m : M C A) (P Qx : assertion) :
  keeps m -> (forall l p, P l p -> Qx l p) -> triple P m P Qx.
Proof.
  intros Hk Himp w HP. destruct (Hk w) as [H1 H2]. unfold holds in *.
  destruct (m w) as [[a| |e] w']; cbn [snd] in *; rewrite H1, H2; auto.
Qed.

Lemma triple_bind {A B : Type} (m : M C A) (f : A -> M C B)
    (P Q R Qx : assertion) :
  triple P m Q Qx -> (forall a, triple Q (f a) R Qx) ->
  triple P (bind m f) R Qx.
Proof.
  intros Hm Hf w HP. unfold bind. specialize (Hm w HP).
  destruct (m w) as [[a| |e] w1]; try exact Hm.
  apply (Hf a w1 Hm).
Qed.

Lemma triple_weaken {A : Type} (m : M C A) (P P' Q Q' Qx Qx' : assertion) :
  triple P m Q Qx ->
  (forall l p, P' l p -> P l p) ->
  (forall l p, Q l p -> Q' l p) ->
  (forall l p, Qx l p -> Qx' l p) ->
  triple P' m Q' Qx'.
Proof.
  intros Hm HP HQ HQx w Hw. specialize (Hm w (HP _ _ Hw)).
  destruct (m w) as [[a| |e] w1]; unfold holds in *; auto.
Qed.

Lemma triple_for_each {A : Type} (l : list A) (body : A -> M C unit)
    (Qx : assertion) :
  forall (I : nat -> assertion),
    (forall i x, nth_error l i = Some x ->
                 triple (I i) (body x) (I (S i)) Qx) ->
    triple (I 0%nat) (for_each l body) (I (List.length l)) Qx.
Proof.
  induction l as [|x l IH]; intros I Hbody.
  - intros w Hw. exact Hw.
  - cbn [for_each List.length].
    apply triple_bind with (Q := I 1%nat).
    + apply (Hbody 0%nat x). reflexivity.
    + intros _. apply (IH (fun i => I (S i))).
      intros i y Hy. apply (Hbody (S i) y). exact Hy.
Qed.

(** A write that takes nothing back keeps the history good. *)
Lemma chain_snoc (R : progress -> progress -> Prop) hist p q :
  chain R (hist ++ [p]) -> R p q -> chain R ((hist ++ [p]) ++ [q]).
Proof.
  intros Hc HR i a b Ha Hb.
  assert (List.length (hist ++ [p]) = S (List.length hist)) as Hlen
    by (rewrite length_app; simpl; lia).
  destruct (Nat.lt_ge_cases (S i) (List.length (hist ++ [p]))) as [Hlt|Hge].
  - rewrite nth_error_app1 in Ha, Hb by lia. eapply Hc; eauto.
  - assert (i = List.length hist) as ->.
    { assert (S i < List.length ((hist ++ [p]) ++ [q]))%nat
        by (apply nth_error_Some; congruence).
      rewrite length_app in H; simpl in H. lia. }
    rewrite nth_error_app1 in Ha by lia.
    rewrite nth_error_app2, Nat.sub_diag in Ha by lia.
    rewrite nth_error_app2 in Hb by lia.
    replace (S (List.length hist) - List.length (hist ++ [p]))%nat
      with 0%nat in Hb by lia.
    cbn in Ha, Hb. congruence.
Qed.

Lemma triple_set_progress (f : progress -> progress) (P Q Qx : assertion) :
  (forall hist p, P (hist ++ [p])%list p ->
                  advances_or_resets p (f p) /\
                  Q ((hist ++ [p]) ++ [f p])%list (f p)) ->
  (forall l p, P l p -> exists hist, l = (hist ++ [p])%list) ->
  triple P (@set_progress C f) Q Qx.
Proof.
  intros Hstep Hlast w HP. unfold set_progress, holds in *. cbn.
  destruct (Hlast _ _ HP) as [hist Hh]. rewrite Hh in *.
  apply (Hstep hist _ HP).
Qed.

End ProgressHistory.

Section ProgressTriples.

Context {C : Type} (E : Env C).

Lemma triple_write (f : progress -> progress) (B B' : progress -> Prop)
    (b b' : bool) (Qx : assertion) :
  (forall p, B p -> advances_or_resets p (f p) /\ B' (f p)) ->
  (forall hist p,
     B p -> written b (hist ++ [p]) -> written b' ((hist ++ [p]) ++ [f p])) ->
  triple (fun l p => history b l p /\ B p) (@set_progress C f)
    (fun l p => history b' l p /\ B' p) Qx.
Proof.
  intros Hf Hw. apply triple_set_progress.
  - intros hist p [[Hc [Hwr _]] HB]. destruct (Hf p HB) as [HR HB'].
    split; [exact HR|]. split; [|exact HB']. split; [|split].
    + now apply chain_snoc.
    + now apply Hw.
    + now exists (hist ++ [p])%list.
  - intros l p [[_ [_ Hh]] _]. exact Hh.
Qed.

Lemma bounded_good b f l p : bounded b f l p -> good l p.
Proof. now intros [H _]. Qed.

Lemma bracket_bounded_good b l p : bracket_bounded b l p -> good l p.
Proof. now intros [H _]. Qed.

Lemma advances_refl_but (p q : progress) :
  current_bracket p <= current_bracket q ->
  completed_frames p <= completed_frames q ->
  failed_frames p <= failed_frames q ->
  total_brackets p = total_brackets q ->
  total_frames p = total_frames q ->
  (current_frame p <= current_frame q \/ current_frame q = 0) ->
  advances_or_resets p q.
Proof. intros. repeat split; assumption. Qed.

Lemma triple_incr_completed b f Qx :
  triple (bounded b f) (@set_progress C incr_completed) (bounded b f) Qx.
Proof.
  apply (@triple_write incr_completed
           (fun p => current_bracket p <= b /\ current_frame p <= f)
           (fun p => current_bracket p <= b /\ current_frame p <= f)
           false false).
  - intros p [Hb Hf]. split; [|now split].
    apply advances_refl_but; cbn; try lia.
  - intros hist p _ Hw. now apply written_completed.
Qed.

Lemma triple_incr_failed b f Qx :
  triple (bounded b f) (@set_progress C incr_failed) (bounded b f) Qx.
Proof.
  apply (@triple_write incr_failed
           (fun p => current_bracket p <= b /\ current_frame p <= f)
           (fun p => current_bracket p <= b /\ current_frame p <= f)
           false false).
  - intros p [Hb Hf]. split; [|now split].
    apply advances_refl_but; cbn; try lia.
  - intros hist p _ Hw. now apply written_failed.
Qed.

Lemma triple_next_frame b j Qx :
  triple (bounded b j) (@set_progress C (set_current_frame (j + 1)))
    (bounded b (j + 1)) Qx.
Proof.
  apply (@triple_write (set_current_frame (j + 1))
           (fun p => current_bracket p <= b /\ current_frame p <= j)
           (fun p => current_bracket p <= b /\ current_frame p <= j + 1)
           false false).
  - intros p [Hb Hf]. split; [|split; cbn; lia].
    apply advances_refl_but; cbn; try lia.
  - intros hist p [_ Hf] Hw. apply written_frame; [exact Hw | lia].
Qed.

Lemma triple_next_bracket i Qx :
  triple (bracket_bounded i)
    (@set_progress C (set_current_bracket (i + 1)))
    (bracket_started (i + 1)) Qx.
Proof.
  apply (@triple_write (set_current_bracket (i + 1))
           (fun p => current_bracket p <= i)
           (fun p => current_bracket p <= i + 1)
           false true).
  - intros p Hb. split; [|cbn; lia].
    apply advances_refl_but; cbn; try lia.
  - intros hist p Hb Hw. apply written_bracket; [exact Hw | lia].
Qed.

Lemma triple_reset_frame b Qx :
  triple (bracket_started b) (@set_progress C (set_current_frame 0))
    (bounded b 0) Qx.
Proof.
  apply (@triple_write (set_current_frame 0)
           (fun p => current_bracket p <= b)
           (fun p => current_bracket p <= b /\ current_frame p <= 0)
           true false).
  - intros p Hb. split; [|split; cbn; lia].
    apply advances_refl_but; cbn; try lia.
  - intros hist p _ Hw. now apply written_reset.
Qed.

Lemma triple_kept {A : Type} (m : M C A) b f :
  keeps m -> triple (bounded b f) m (bounded b f) good.
Proof. intros Hk. apply triple_keeps; [exact Hk | apply bounded_good]. Qed.

Lemma triple_shoot fast_mode error_msg b f :
  triple (bounded b f) (shoot E fast_mode error_msg) (bounded b f) good.
Proof.
  unfold shoot.
  apply triple_bind with (Q := bounded b f);
    [apply triple_kept, keeps_blocking|].
  intros r.
  apply triple_bind with (Q := bounded b f);
    [|intros _; apply triple_kept, keeps_send_update].
  destruct (fst r).
  - apply triple_incr_completed.
  - apply triple_bind with (Q := bounded b f);
      [apply triple_incr_failed|].
    intros _. apply triple_kept.
    destruct (error_msg (snd r)); [apply keeps_raise | apply keeps_append_error].
Qed.

Lemma triple_focus_loop fast_mode bracket_idx frame_idx steps dir speed b f
    positions :
  forall total last_idx,
    triple (bounded b f)
      (focus_loop E fast_mode bracket_idx frame_idx steps dir speed
         positions total last_idx)
      (bounded b f) good.
Proof.
  induction positions as [|focus_idx rest IH]; intros total last_idx.
  - apply triple_kept, keeps_ret.
  - cbn [focus_loop].
    apply triple_bind with (Q := bounded b f); [apply triple_shoot|].
    intros _. destruct (focus_idx <? steps - 1); [|apply IH].
    apply triple_bind with (Q := bounded b f);
      [apply triple_kept, keeps_blocking|].
    intros r. destruct (negb (fst r)); [|apply IH].
    apply triple_kept, keeps_bind;
      [apply keeps_append_error | intros _; apply keeps_ret].
Qed.

Lemma triple_focus_stack_frame fast_mode d bracket_idx frame_idx b f :
  triple (bounded b f)
    (focus_stack_frame E fast_mode d bracket_idx frame_idx)
    (bounded b f) good.
Proof.
  unfold focus_stack_frame. cbv zeta.
  apply triple_bind with (Q := bounded b f); [apply triple_focus_loop|].
  intros r.
  apply triple_bind with (Q := bounded b f).
  - destruct (negb (fst r =? 0)).
    + apply triple_kept, keeps_bind;
        [apply keeps_blocking | intros _; apply keeps_ret].
    + apply triple_kept, keeps_ret.
  - intros _.
    apply triple_bind with (Q := bounded b f); [apply triple_shoot|].
    intros _. apply triple_kept, keeps_bind;
      [apply keeps_blocking | intros _; apply keeps_ret].
Qed.

Lemma triple_frame_body fast_mode d bracket_idx b j :
  triple (bounded b j) (frame_body E fast_mode d bracket_idx j)
    (bounded b (j + 1)) good.
Proof.
  unfold frame_body.
  apply triple_bind with (Q := bounded b j);
    [apply triple_kept, keeps_get_info|].
  intros ci. destruct (status_eqb (status_of ci) stopping).
  - apply triple_weaken with (P := bounded b j) (Q := bounded b j)
                             (Qx := good); auto.
    + apply triple_kept. apply keeps_bind; [apply keeps_set_status|].
      intros _. apply keeps_bind; [apply keeps_send_update|].
      intros _. apply keeps_return.
    + intros l p [Hg [Hb Hf]]. split; [exact Hg|]. split; lia.
  - apply triple_bind with (Q := bounded b (j + 1));
      [apply triple_next_frame|].
    intros _.
    apply triple_bind with (Q := bounded b (j + 1));
      [apply triple_kept, keeps_send_update|].
    intros _. destruct (fs_get d fs_enabled false).
    + apply triple_focus_stack_frame.
    + apply triple_shoot.
Qed.

Lemma nth_error_range n i x :
  nth_error (Py.range n) i = Some x -> x = Z.of_nat i.
Proof.
  unfold Py.range. rewrite nth_error_map.
  destruct (nth_error (seq 0 (Z.to_nat n)) i) as [k|] eqn:Hk; [|discriminate].
  intros H. injection H as <-.
  assert (i < List.length (seq 0 (Z.to_nat n)))%nat as Hlt
    by (apply nth_error_Some; congruence).
  rewrite length_seq in Hlt.
  rewrite nth_error_seq in Hk.
  destruct (Nat.ltb_spec i (Z.to_nat n)); [|lia].
  injection Hk as <-. reflexivity.
Qed.

Lemma triple_frames fast_mode d bracket_idx b n :
  triple (bounded b 0)
    (for_each (Py.range n) (frame_body E fast_mode d bracket_idx))
    (bracket_bounded b) good.
Proof.
  apply triple_weaken
    with (P := bounded b (Z.of_nat 0))
         (Q := bounded b (Z.of_nat (List.length (Py.range n))))
         (Qx := good); auto.
  - apply (@triple_for_each C Z (Py.range n)
             (frame_body E fast_mode d bracket_idx) good
             (fun i => bounded b (Z.of_nat i))).
    intros i x Hx. apply nth_error_range in Hx. subst x.
    apply triple_weaken with (P := bounded b (Z.of_nat i))
                             (Q := bounded b (Z.of_nat i + 1))
                             (Qx := good); auto.
    + apply triple_frame_body.
    + intros l p [Hg [Hb Hf]]. split; [exact Hg|]. split; lia.
  - intros l p [Hg [Hb _]]. now split.
Qed.

Lemma triple_bracket_body fast_mode d i b :
  triple (bracket_bounded i) (bracket_body E fast_mode d (i, b))
    (bracket_bounded (i + 1)) good.
Proof.
  unfold bracket_body.
  apply triple_bind with (Q := bracket_started (i + 1));
    [apply triple_next_bracket|].
  intros _.
  apply triple_bind with (Q := bounded (i + 1) 0);
    [apply triple_reset_frame|].
  intros _.
  apply triple_bind with (Q := bounded (i + 1) 0);
    [apply triple_kept, keeps_send_update|].
  intros _. cbv zeta.
  apply triple_bind with (Q := bounded (i + 1) 0);
    [apply triple_kept, keeps_blocking|].
  intros r. destruct (negb (fst r)).
  - apply triple_weaken with (P := bounded (i + 1) 0)
                             (Q := bounded (i + 1) 0) (Qx := good); auto.
    + apply triple_kept, keeps_bind;
        [apply keeps_append_error | intros _; apply keeps_send_update].
    + intros l p [Hg [Hb _]]. now split.
  - apply triple_frames.
Qed.

End ProgressTriples.

Section ProgressOfTheWorker.

Context {C : Type} (E : Env C).

Lemma nth_error_enumerate {A : Type} (l : list A) i k x :
  nth_error (enumerate l) i = Some (k, x) -> k = Z.of_nat i.
Proof.
  unfold enumerate. intros H.
  assert (nth_error (Py.range (Z.of_nat (List.length l))) i = Some k) as Hk.
  { revert i H.
    generalize (Py.range (Z.of_nat (List.length l))) as ks.
    induction l as [|y l IH]; intros ks i H.
    - destruct ks; destruct i; discriminate.
    - destruct ks as [|k0 ks]; [destruct i; discriminate|].
      destruct i as [|i]; cbn in *.
      + congruence.
      + eapply IH; eauto. }
  now apply nth_error_range in Hk.
Qed.

Lemma triple_brackets fast_mode d (bs : list bracket) :
  triple (bracket_bounded 0)
    (for_each (enumerate bs) (bracket_body E fast_mode d))
    good good.
Proof.
  apply triple_weaken
    with (P := bracket_bounded (Z.of_nat 0))
         (Q := bracket_bounded (Z.of_nat (List.length (enumerate bs))))
         (Qx := good); auto.
  - apply (@triple_for_each C (Z * bracket) (enumerate bs)
             (bracket_body E fast_mode d) good
             (fun i => bracket_bounded (Z.of_nat i))).
    intros i [k b] Hx. apply nth_error_enumerate in Hx. subst k.
    apply triple_weaken with (P := bracket_bounded (Z.of_nat i))
                             (Q := bracket_bounded (Z.of_nat i + 1))
                             (Qx := good); auto.
    + apply triple_bracket_body.
    + intros l p [Hg Hb]. split; [exact Hg | lia].
  - intros l p [Hg _]. exact Hg.
Qed.

Lemma triple_good_kept {A : Type} (m : M C A) :
  keeps m -> triple good m good good.
Proof. intros Hk. apply triple_keeps; auto. Qed.

Lemma keeps_bulk_download_phase save_dir :
  keeps (bulk_download_phase E save_dir).
Proof.
  unfold bulk_download_phase.
  apply keeps_bind; [apply keeps_set_status | intros _].
  apply keeps_bind; [apply keeps_send_update | intros _].
  apply keeps_bind; [apply keeps_blocking | intros ok].
  apply keeps_bind;
    [destruct (negb ok); [apply keeps_append_error | apply keeps_ret]
    | intros _].
  apply keeps_bind; [apply keeps_blocking | intros counted].
  destruct counted as [images_after|]; [|apply keeps_raise].
  apply keeps_bind; [apply keeps_get_info | intros ci]. cbv zeta.
  destruct (_ <=? 0).
  - apply keeps_bind; [apply keeps_set_status | intros _].
    apply keeps_bind; [apply keeps_set_end_time | intros _].
    apply keeps_bind; [apply keeps_send_update | intros _].
    apply keeps_return.
  - destruct (0 <? _); [|apply keeps_ret].
    apply keeps_bind; [apply keeps_blocking | intros [[success message] files]].
    destruct success; [apply keeps_set_results | apply keeps_append_error].
Qed.

Lemma keeps_save_capture_info save_dir : keeps (_save_capture_info E save_dir).
Proof. intros w. unfold _save_capture_info. apply keeps_blocking. Qed.

Lemma triple_capture_into capture_data save_dir :
  triple (bracket_bounded 0) (capture_into E capture_data save_dir) good good.
Proof.
  unfold capture_into.
  apply triple_bind with (Q := bracket_bounded 0);
    [apply triple_keeps;
       [apply keeps_blocking | apply bracket_bounded_good] |].
  intros made.
  apply triple_bind with (Q := bracket_bounded 0);
    [apply triple_keeps;
       [destruct made; [apply keeps_ret | apply keeps_raise]
       | apply bracket_bounded_good] |].
  intros _. cbv zeta.
  apply triple_bind with (Q := bracket_bounded 0);
    [apply triple_keeps;
       [apply keeps_blocking | apply bracket_bounded_good] |].
  intros started. destruct (negb started).
  - apply triple_weaken with (P := good) (Q := good) (Qx := good); auto.
    + apply triple_good_kept.
      apply keeps_bind; [apply keeps_append_error | intros _].
      apply keeps_bind; [apply keeps_set_status | intros _].
      apply keeps_bind; [apply keeps_send_update | intros _].
      apply keeps_return.
    + apply bracket_bounded_good.
  - apply triple_bind with (Q := bracket_bounded 0).
    + apply triple_keeps; [|apply bracket_bounded_good].
      destruct (String.eqb _ _).
      * apply keeps_bind; [apply keeps_blocking | intros counted].
        now apply keeps_modify.
      * apply keeps_blocking.
    + intros _.
      apply triple_bind with (Q := good); [apply triple_brackets|].
      intros _. apply triple_good_kept.
      apply keeps_bind;
        [destruct (String.eqb _ _);
           [apply keeps_bulk_download_phase | apply keeps_ret]
        | intros _].
      apply keeps_bind; [apply keeps_save_capture_info | intros _].
      apply keeps_bind; [apply keeps_set_status | intros _].
      apply keeps_bind; [apply keeps_set_end_time | intros _].
      apply keeps_send_update.
Qed.

Lemma triple_capture_sequence :
  triple (bracket_bounded 0) (capture_sequence E) good good.
Proof.
  unfold capture_sequence.
  apply triple_bind with (Q := bracket_bounded 0);
    [apply triple_keeps;
       [apply keeps_set_status | apply bracket_bounded_good] |].
  intros _.
  apply triple_bind with (Q := bracket_bounded 0);
    [apply triple_keeps;
       [apply keeps_send_update | apply bracket_bounded_good] |].
  intros _.
  apply triple_bind with (Q := bracket_bounded 0);
    [apply triple_keeps;
       [apply keeps_get_info | apply bracket_bounded_good] |].
  intros ci w Hw. cbv zeta. apply triple_capture_into. exact Hw.
Qed.

Lemma worker_good (w : world C) :
  holds (bracket_bounded 0) w -> holds good (worker E w).
Proof.
  intros Hw. unfold worker.
  pose proof (@triple_capture_sequence w Hw) as H.
  destruct (capture_sequence E w) as [[a| |e] w']; exact H.
Qed.

Lemma new_session_bounded capture_id now d (c : C) :
  holds (bracket_bounded 0)
    (initial_world (new_capture_info capture_id now d) c).
Proof.
  unfold holds, initial_world, bracket_bounded, good, history. cbn.
  split; [split; [|split]|lia].
  - intros i p q Hp Hq. destruct i; cbn in Hq; [discriminate|].
    destruct i; discriminate.
  - apply written_first.
  - now exists [].
Qed.

End ProgressOfTheWorker.

(** What a history the loops can build looks like, write by write. *)
Section WrittenHistories.

Lemma nth_error_snoc_old {A : Type} (l : list A) (x a : A) i :
  nth_error l i = Some a -> nth_error (l ++ [x]) i = Some a.
Proof.
  intros H. rewrite nth_error_app1; [exact H|].
  apply nth_error_Some. congruence.
Qed.

Lemma snoc_pair (hist : list progress) p q i a b :
  nth_error ((hist ++ [p]) ++ [q]) i = Some a ->
  nth_error ((hist ++ [p]) ++ [q]) (S i) = Some b ->
  (nth_error (hist ++ [p]) i = Some a /\
   nth_error (hist ++ [p]) (S i) = Some b) \/
  (i = List.length hist /\ a = p /\ b = q).
Proof.
  intros Ha Hb.
  assert (List.length (hist ++ [p]) = S (List.length hist)) as Hlen
    by (rewrite length_app; simpl; lia).
  destruct (Nat.lt_ge_cases (S i) (List.length (hist ++ [p]))) as [Hlt|Hge].
  - left. rewrite nth_error_app1 in Ha, Hb by lia. now split.
  - right.
    assert (i = List.length hist) as ->.
    { assert (S i < List.length ((hist ++ [p]) ++ [q]))%nat
        by (apply nth_error_Some; congruence).
      rewrite length_app in H; simpl in H. lia. }
    rewrite nth_error_app1 in Ha by lia.
    rewrite nth_error_app2, Nat.sub_diag in Ha by lia.
    rewrite nth_error_app2 in Hb by lia.
    replace (S (List.length hist) - List.length (hist ++ [p]))%nat
      with 0%nat in Hb by lia.
    cbn in Ha, Hb. split; [reflexivity|]. split; congruence.
Qed.

Lemma resets_in_place_first p : resets_in_place false [p].
Proof.
  split; [|split].
  - intros i a b _ Hb. destruct i; cbn in Hb; [discriminate|].
    destruct i; discriminate.
  - intros i a b _ Hb. destruct i; cbn in Hb; [discriminate|].
    destruct i; discriminate.
  - discriminate.
Qed.

(** A write that neither raises [current_bracket] nor lowers
    [current_frame]. *)
Lemma resets_in_place_plain hist p q :
  resets_in_place false (hist ++ [p]) ->
  current_bracket q = current_bracket p ->
  current_frame p <= current_frame q ->
  resets_in_place false ((hist ++ [p]) ++ [q]).
Proof.
  intros [Hlow [Hfol _]] Hb Hf. split; [|split].
  - intros i a b Ha Hb' Hlt.
    destruct (snoc_pair _ _ _ _ Ha Hb') as [[Ha1 Hb1]|[-> [-> ->]]]; [|lia].
    destruct (Hlow i a b Ha1 Hb1 Hlt) as [Hq [k [o [Hi [Ho Hlt']]]]].
    split; [exact Hq|]. exists k, o. split; [exact Hi|].
    split; [|exact Hlt']. now apply nth_error_snoc_old.
  - intros i a b Ha Hb' Hlt.
    destruct (snoc_pair _ _ _ _ Ha Hb') as [[Ha1 Hb1]|[-> [-> ->]]]; [|lia].
    apply nth_error_snoc_old. exact (Hfol i a b Ha1 Hb1 Hlt).
  - discriminate.
Qed.

Lemma resets_in_place_bracket hist p n :
  resets_in_place false (hist ++ [p]) ->
  current_bracket p < n ->
  resets_in_place true ((hist ++ [p]) ++ [set_current_bracket n p]).
Proof.
  intros [Hlow [Hfol _]] Hn. split; [|split].
  - intros i a b Ha Hb' Hlt.
    destruct (snoc_pair _ _ _ _ Ha Hb') as [[Ha1 Hb1]|[-> [-> ->]]];
      [|cbn in Hlt; lia].
    destruct (Hlow i a b Ha1 Hb1 Hlt) as [Hq [k [o [Hi [Ho Hlt']]]]].
    split; [exact Hq|]. exists k, o. split; [exact Hi|].
    split; [|exact Hlt']. now apply nth_error_snoc_old.
  - intros i a b Ha Hb' Hlt Hin.
    destruct (snoc_pair _ _ _ _ Ha Hb') as [[Ha1 Hb1]|[-> [-> ->]]].
    + apply nth_error_snoc_old. exact (Hfol i a b Ha1 Hb1 Hlt).
    + exfalso. rewrite !length_app in Hin. simpl in Hin. lia.
  - intros _. exists hist, p, (set_current_bracket n p). split; [reflexivity|].
    cbn. exact Hn.
Qed.

Lemma resets_in_place_reset hist p :
  resets_in_place true (hist ++ [p]) ->
  resets_in_place false ((hist ++ [p]) ++ [set_current_frame 0 p]).
Proof.
  intros [Hlow [Hfol Hlast]].
  destruct (Hlast eq_refl) as [h [o [p' [Heq Hlt0]]]].
  apply app_inj_tail in Heq. destruct Heq as [-> <-].
  assert (List.length ((h ++ [o]) ++ [p]) = S (S (List.length h))) as Hlen
    by (rewrite !length_app; simpl; lia).
  assert (nth_error ((h ++ [o]) ++ [p]) (List.length h) = Some o) as Ho.
  { rewrite nth_error_app1 by (rewrite length_app; simpl; lia).
    rewrite nth_error_app2, Nat.sub_diag by lia. reflexivity. }
  assert (nth_error ((h ++ [o]) ++ [p]) (S (List.length h)) = Some p) as Hp.
  { assert (List.length (h ++ [o]) = S (List.length h)) as Hl
      by (rewrite length_app; simpl; lia).
    rewrite nth_error_app2 by lia.
    rewrite Hl, Nat.sub_diag. reflexivity. }
  split; [|split].
  - intros i a b Ha Hb' Hlt.
    destruct (snoc_pair _ _ _ _ Ha Hb') as [[Ha1 Hb1]|[-> [-> ->]]].
    + destruct (Hlow i a b Ha1 Hb1 Hlt) as [Hq [k [o' [Hi [Ho' Hlt']]]]].
      split; [exact Hq|]. exists k, o'. split; [exact Hi|].
      split; [|exact Hlt']. now apply nth_error_snoc_old.
    + split; [reflexivity|]. exists (List.length h), o.
      split; [rewrite length_app; simpl; lia|].
      split; [|exact Hlt0]. now apply nth_error_snoc_old.
  - intros i a b Ha Hb' Hlt.
    destruct (snoc_pair _ _ _ _ Ha Hb') as [[Ha1 Hb1]|[-> [-> ->]]];
      [|cbn in Hlt; lia].
    assert (S i < List.length ((h ++ [o]) ++ [p]))%nat as Hi
      by (apply nth_error_Some; congruence).
    destruct (Nat.lt_ge_cases (S (S i)) (List.length ((h ++ [o]) ++ [p])))
      as [Hin|Hout].
    + apply nth_error_snoc_old. exact (Hfol i a b Ha1 Hb1 Hlt Hin).
    + assert (i = List.length h) as -> by lia.
      assert (b = p) as -> by congruence.
      rewrite nth_error_app2 by lia.
      rewrite Hlen, Nat.sub_diag. reflexivity.
  - discriminate.
Qed.

Lemma written_resets_in_place pending l :
  written pending l -> resets_in_place pending l.
Proof.
  induction 1 as [p|hist p n _ IH Hn|hist p _ IH|hist p n _ IH Hn
                 |hist p _ IH|hist p _ IH].
  - apply resets_in_place_first.
  - now apply resets_in_place_bracket.
  - now apply resets_in_place_reset.
  - apply resets_in_place_plain; [exact IH | reflexivity | cbn; lia].
  - apply resets_in_place_plain; [exact IH | reflexivity | cbn; lia].
  - apply resets_in_place_plain; [exact IH | reflexivity | cbn; lia].
Qed.

Lemma written_reset_follows l :
  written false l -> reset_follows_bracket l.
Proof.
  intros H. apply written_resets_in_place in H.
  destruct H as [_ [H _]]. exact H.
Qed.

Lemma written_lowered_only l :
  written false l -> lowered_only_by_reset l.
Proof.
  intros H. apply written_resets_in_place in H. exact (proj1 H).
Qed.

End WrittenHistories.

(** C9, as the code has it.  Over the whole run of a session as
    [start_capture] creates it, with any camera and any stop request:
    no write to the progress dictionary lowers [current_bracket],
    [completed_frames] or [failed_frames] or changes [total_brackets] or
    [total_frames], and [current_frame] is either not lowered or set to
    0; the writes are exactly of the kinds [written] lists, a bracket
    starting with the write that raises [current_bracket] and the reset
    of [current_frame] right after it; so every write that raises
    [current_bracket] is followed at once by that reset, and a write that
    lowers [current_frame] is that reset and nothing else. *)
Theorem C9_progress_writes (C : Type) (E : Env C) (d : capture_data) (c : C) :
  chain advances_or_resets (writes (run E d c)) /\
  chain advances (writes (run E d c)) /\
  written false (writes (run E d c)) /\
  reset_follows_bracket (writes (run E d c)) /\
  lowered_only_by_reset (writes (run E d c)).
Proof.
  assert (good (writes (run E d c)) (progress_of (info (run E d c)))) as Hg.
  { unfold run.
    exact (@worker_good C E _ (new_session_bounded "id" "start" d c)). }
  destruct Hg as [H [Hw _]].
  split; [exact H|]. split; [|split; [exact Hw|split]].
  - intros i p q Hp Hq. exact (proj1 (H i p q Hp Hq)).
  - now apply written_reset_follows.
  - now apply written_lowered_only.
Qed.

Section FocusStack.

Context {C : Type} (E : Env C).

Lemma adds_refl (w : world C) : adds w w [].
Proof. exists []. now rewrite app_nil_r. Qed.

Lemma adds_trans (w w1 w2 : world C) cs1 cs2 :
  adds w w1 cs1 -> adds w1 w2 cs2 -> adds w w2 (cs1 ++ cs2).
Proof.
  intros [n1 [H1 D1]] [n2 [H2 D2]]. exists (n1 ++ n2)%list. split.
  - now rewrite H2, H1, app_assoc.
  - unfold device_calls in *. now rewrite filter_app, D1, D2.
Qed.

(** A blocking call answers what the collaborator answers and adds its
    one event. *)
Lemma blocking_adds {A : Type} (op : C -> A * C) (ev : A -> event) w :
  (forall a, is_call (ev a) = true) ->
  exists w1,
    blocking E op ev w = (Normal (fst (op (env w))), w1) /\
    adds w w1 [ev (fst (op (env w)))].
Proof.
  intros Hev. destruct w as [ci c0 t ws]. unfold blocking.
  cbn [env info trace writes].
  destruct (op c0) as [a c] eqn:Hop. cbn [fst].
  unfold bind, poll_stop, ret, request_stop. cbn [env info trace writes].
  destruct (stop_requested E c);
    [destruct (status_eqb (status_of ci) running)|];
    eexists; (split; [reflexivity|]); eexists; cbn [trace]; split.
  - now rewrite <- app_assoc.
  - unfold device_calls. cbn [filter app is_call]. now rewrite Hev.
  - reflexivity.
  - unfold device_calls. cbn [filter]. now rewrite Hev.
  - reflexivity.
  - unfold device_calls. cbn [filter]. now rewrite Hev.
Qed.

Lemma silent_modify f : silent (@modify C f).
Proof. intros w. unfold modify. cbn. exists []. now rewrite app_nil_r. Qed.

Lemma silent_set_progress f : silent (@set_progress C f).
Proof.
  intros w. unfold set_progress. cbn. exists []. now rewrite app_nil_r.
Qed.

Lemma silent_send_update : silent (@_send_update C).
Proof. intros w. unfold _send_update, emit. cbn. eexists. now split. Qed.

Lemma silent_ret {A : Type} (a : A) : silent (@ret C A a).
Proof. intros w. apply adds_refl. Qed.

Lemma silent_raise {A : Type} e : silent (@raise C A e).
Proof. intros w. apply adds_refl. Qed.

Lemma silent_bind {A B : Type} (m : M C A) (f : A -> M C B) :
  silent m -> (forall a, silent (f a)) -> silent (bind m f).
Proof.
  intros Hm Hf w. unfold bind. specialize (Hm w).
  destruct (m w) as [[a| |e] w1]; cbn [snd] in *; try exact Hm.
  exact (adds_trans Hm (Hf a w1)).
Qed.

Lemma silent_run {A : Type} (m : M C A) w o w' :
  silent m -> m w = (o, w') -> adds w w' [].
Proof. intros Hs Hm. specialize (Hs w). now rewrite Hm in Hs. Qed.

(** An exposure: one [TakePicture] call, whatever the outcome; it falls
    through unless formatting the error raises. *)
Lemma shoot_adds fast_mode error_msg w o w' :
  shoot E fast_mode error_msg w = (o, w') ->
  exists ok,
    adds w w' [TakePicture fast_mode ok] /\
    ((forall m, exists e, error_msg m = inr e) -> o = Normal tt).
Proof.
  unfold shoot.
  destruct (@blocking_adds (bool * string) (take_picture E fast_mode)
              (fun r => TakePicture fast_mode (fst r)) w (fun _ => eq_refl))
    as [w1 [Hb Hadd]].
  rewrite (@bind_Normal C _ _ _ _ _ _ _ Hb).
  set (r := fst (take_picture E fast_mode (env w))) in *.
  intros Hrest. exists (fst r). split.
  - rewrite <- (app_nil_r [TakePicture fast_mode (fst r)]).
    apply (adds_trans Hadd). revert Hrest. apply silent_run.
    apply silent_bind; [|intros _; apply silent_send_update].
    destruct (fst r); [apply silent_set_progress|].
    apply silent_bind; [apply silent_set_progress|]. intros _.
    destruct (error_msg (snd r)); [apply silent_raise | apply silent_modify].
  - intros Hmsg. revert Hrest.
    unfold bind, set_progress, _send_update, emit, append_error, modify.
    destruct (fst r); [congruence|].
    destruct (Hmsg (snd r)) as [e ->]. congruence.
Qed.

Lemma ends_at_failure_nil : ends_at_failure [].
Proof. intros pre e post H. destruct pre; discriminate. Qed.

Lemma ends_at_failure_cons e cs :
  is_failed_move e = false -> ends_at_failure cs -> ends_at_failure (e :: cs).
Proof.
  intros He Hcs pre x post Heq Hx. destruct pre as [|y pre]; cbn in Heq.
  - injection Heq as -> ->. congruence.
  - injection Heq as -> ->. eapply Hcs; eauto.
Qed.

Lemma ends_at_failure_one e : ends_at_failure [e].
Proof.
  intros pre x post Heq _. destruct pre as [|y pre]; cbn in Heq.
  - now injection Heq as _ <-.
  - injection Heq as _ Heq. destruct pre; discriminate.
Qed.

(** The loop over the focus positions: it always falls through; the
    total it yields is the total it started from plus the moves that
    succeeded; its calls are exposures and moves, and a failed move is the
    last of them. *)
Lemma focus_loop_adds fast_mode bracket_idx frame_idx steps dir speed
    positions :
  forall total last_idx w o w',
    focus_loop E fast_mode bracket_idx frame_idx steps dir speed positions
      total last_idx w = (o, w') ->
    exists cs last',
      adds w w' cs /\
      o = Normal (total + total_applied cs, last') /\
      forallb is_stack_call cs = true /\
      ends_at_failure cs.
Proof.
  induction positions as [|focus_idx rest IH]; intros total last_idx w o w' Hrun.
  - cbn in Hrun. injection Hrun as <- <-. exists [], last_idx.
    repeat split.
    + apply adds_refl.
    + cbn. now rewrite Z.add_0_r.
    + apply ends_at_failure_nil.
  - cbn [focus_loop] in Hrun.
    destruct (shoot E fast_mode
                (fun message =>
                   inr (Failed_to_take_picture (frame_idx + 1)
                          (Some (focus_idx + 1)) (bracket_idx + 1) message))
                w) as [o1 w1] eqn:Hshoot.
    destruct (shoot_adds _ _ _ Hshoot) as [ok [Hadd1 Hnormal]].
    assert (o1 = Normal tt) as -> by (apply Hnormal; intros m; eauto).
    rewrite (@bind_Normal C _ _ _ _ _ _ _ Hshoot) in Hrun.
    destruct (focus_idx <? steps - 1).
    + set (step_value := step_value_of dir speed) in *.
      destruct (@blocking_adds (bool * string) (adjust_focus E step_value)
                  (fun r => AdjustFocus step_value (fst r)) w1
                  (fun _ => eq_refl)) as [w2 [Hb Hadd2]].
      rewrite (@bind_Normal C _ _ _ _ _ _ _ Hb) in Hrun.
      destruct (fst (adjust_focus E step_value (env w1))) as [moved message].
      cbn [fst snd negb] in Hrun, Hadd2.
      destruct moved; cbn [negb] in Hrun.
      * destruct (IH _ _ _ _ _ Hrun) as [cs [last' [Hadd [Ho [Hall Hend]]]]].
        exists (TakePicture fast_mode ok :: AdjustFocus step_value true :: cs),
               last'.
        repeat split.
        -- exact (adds_trans Hadd1 (adds_trans Hadd2 Hadd)).
        -- rewrite Ho. f_equal. f_equal. unfold total_applied.
           cbn [fold_right applied_move]. lia.
        -- cbn. exact Hall.
        -- now repeat apply ends_at_failure_cons.
      * unfold bind, append_error, modify, ret in Hrun.
        injection Hrun as <- <-.
        exists [TakePicture fast_mode ok; AdjustFocus step_value false],
               (Some focus_idx).
        repeat split.
        -- pose proof (adds_trans Hadd1 Hadd2) as H. cbn in H.
           destruct H as [new [Ht Hd]]. exists new. now split.
        -- unfold total_applied. cbn [fold_right applied_move].
           now rewrite !Z.add_0_r.
        -- apply ends_at_failure_cons; [reflexivity|].
           apply ends_at_failure_one.
    + destruct (IH _ _ _ _ _ Hrun) as [cs [last' [Hadd [Ho [Hall Hend]]]]].
      exists (TakePicture fast_mode ok :: cs), last'.
      repeat split.
      * exact (adds_trans Hadd1 Hadd).
      * rewrite Ho. reflexivity.
      * cbn. exact Hall.
      * now apply ends_at_failure_cons.
Qed.

End FocusStack.

(** C4. In the focus stack of one frame the calls made are, in order: the
    exposures and moves of the stack, where a failed move is the last
    call; then one compensating move of minus the sum of the moves that
    succeeded (no call is made when that sum is 0); then one more
    exposure, the one at the reset position; then at most the neutral move
    of 0 (it is missing only when the worker raises on the failed reset
    exposure). *)
Theorem C4_focus_stack_compensation
    (C : Type) (E : Env C) (fast_mode : bool) (d : capture_data)
    (bracket_idx frame_idx : Z) (w : world C) :
  let '(o, w') := focus_stack_frame E fast_mode d bracket_idx frame_idx w in
  exists stack compensation ok tail,
    adds w w' (stack ++ compensation ++ TakePicture fast_mode ok :: tail) /\
    forallb is_stack_call stack = true /\
    ends_at_failure stack /\
    (total_applied stack = 0 /\ compensation = [] \/
     total_applied stack <> 0 /\
     exists moved,
       compensation = [AdjustFocus (- total_applied stack) moved]) /\
    (tail = [] \/ exists moved, tail = [AdjustFocus 0 moved]).
Proof.
  destruct (focus_stack_frame E fast_mode d bracket_idx frame_idx w)
    as [o w'] eqn:Hrun.
  unfold focus_stack_frame in Hrun. cbv zeta in Hrun.
  destruct (focus_loop E fast_mode bracket_idx frame_idx
              (fs_get d fs_steps 10)
              (if String.eqb (fs_get d fs_direction "near"%string) "near"
               then fs_get d fs_step_size 3 else - fs_get d fs_step_size 3)
              (fs_get d fs_speed 2) (Py.range (fs_get d fs_steps 10)) 0 None
              w) as [o1 w1] eqn:Hloop.
  pose proof Hloop as Hloop'. apply focus_loop_adds in Hloop'.
  destruct Hloop' as [stack [last' [Hstack [Ho1 [Hall Hend]]]]].
  subst o1. rewrite (@bind_Normal C _ _ _ _ _ _ _ Hloop) in Hrun.
  cbn [fst snd] in Hrun. rewrite Z.add_0_l in Hrun.
  set (total := total_applied stack) in *.
  assert (exists w2 compensation,
             (total = 0 /\ compensation = [] \/
              total <> 0 /\
              exists moved, compensation = [AdjustFocus (- total) moved]) /\
             adds w1 w2 compensation /\
             (if negb (total =? 0)
              then bind (blocking E (adjust_focus E (- total))
                           (fun r => AdjustFocus (- total) (fst r)))
                     (fun _ => ret tt)
              else ret tt) w1 = (Normal tt, w2))
    as [w2 [compensation [Hcomp [Hadd2 Hstep]]]].
  { destruct (Z.eqb_spec total 0) as [Hz|Hnz]; cbn [negb].
    - exists w1, []. repeat split; auto. apply adds_refl.
    - destruct (@blocking_adds C E (bool * string) (adjust_focus E (- total))
                  (fun r => AdjustFocus (- total) (fst r)) w1
                  (fun _ => eq_refl)) as [w2 [Hb Hadd]].
      exists w2, [AdjustFocus (- total)
                    (fst (fst (adjust_focus E (- total) (env w1))))].
      repeat split.
      + right. split; [exact Hnz|]. eauto.
      + exact Hadd.
      + now rewrite (@bind_Normal C _ _ _ _ _ _ _ Hb). }
  rewrite (@bind_Normal C _ _ _ _ _ _ _ Hstep) in Hrun.
  match type of Hrun with
  | bind (shoot E fast_mode ?msg) _ w2 = _ =>
      destruct (shoot E fast_mode msg w2) as [o3 w3] eqn:Hshoot
  end.
  pose proof Hshoot as Hshoot'. apply shoot_adds in Hshoot'.
  destruct Hshoot' as [ok [Hadd3 _]].
  exists stack, compensation, ok.
  destruct o3 as [[]| |e].
  - rewrite (@bind_Normal C _ _ _ _ _ _ _ Hshoot) in Hrun.
    destruct (@blocking_adds C E (bool * string) (adjust_focus E 0)
                (fun r => AdjustFocus 0 (fst r)) w3 (fun _ => eq_refl))
      as [w4 [Hb Hadd4]].
    rewrite (@bind_Normal C _ _ _ _ _ _ _ Hb) in Hrun.
    unfold ret in Hrun. injection Hrun as <- <-.
    exists [AdjustFocus 0 (fst (fst (adjust_focus E 0 (env w3))))].
    repeat split; auto.
    + exact (adds_trans Hstack
               (adds_trans Hadd2 (adds_trans Hadd3 Hadd4))).
    + right. eauto.
  - rewrite (@bind_Return C _ _ _ _ _ _ Hshoot) in Hrun.
    injection Hrun as <- <-. exists [].
    repeat split; auto.
    exact (adds_trans Hstack (adds_trans Hadd2 Hadd3)).
  - rewrite (@bind_Raised C _ _ _ _ _ _ _ Hshoot) in Hrun.
    injection Hrun as <- <-. exists [].
    repeat split; auto.
    exact (adds_trans Hstack (adds_trans Hadd2 Hadd3)).
Qed.

(** Scenario D: four positions, step size 3, direction near, default
    speed 2, on a camera where everything works: three moves of +2, then
    one move of -6, one more exposure and the neutral move. *)
Lemma scenario_D_focus_stack :
  let w := initial_world (new_capture_info "id" "start" fast_stack_plan)
             all_ok in
  device_calls
    (trace (snd (focus_stack_frame scripted true fast_stack_plan 0 0 w)))
  = [TakePicture true true; AdjustFocus 2 true;
     TakePicture true true; AdjustFocus 2 true;
     TakePicture true true; AdjustFocus 2 true;
     TakePicture true true;
     AdjustFocus (-6) true;
     TakePicture true true;
     AdjustFocus 0 true].
Proof. vm_compute. reflexivity. Qed.

(** A move that fails: the second move of the stack is rejected, the
    remaining positions are abandoned and the compensation is -2, the one
    move that succeeded. *)
Lemma focus_move_failure_example :
  let w := initial_world (new_capture_info "id" "start" fast_stack_plan)
             (mk_script true [] [] [] [] [true; false] (Some []) None 0) in
  device_calls
    (trace (snd (focus_stack_frame scripted true fast_stack_plan 0 0 w)))
  = [TakePicture true true; AdjustFocus 2 true;
     TakePicture true true; AdjustFocus 2 false;
     AdjustFocus (-2) true;
     TakePicture true true;
     AdjustFocus 0 true].
Proof. vm_compute. reflexivity. Qed.
(* ------------------------------------------------------------------ *)
(** * Further properties of the capture controller *)

Import WorkerSpec.

(** ** Pieces of the worker and what they keep *)

Section HoareRules.

Context {C : Type} (E : Env C).

Lemma hoare_bind {A B : Type} (m : M C A) (f : A -> M C B)
    (P Q R Qx : world C -> Prop) :
  hoare P m Q Qx -> (forall a, hoare Q (f a) R Qx) ->
  hoare P (bind m f) R Qx.
Proof.
  intros Hm Hf w HP. unfold bind. specialize (Hm w HP).
  destruct (m w) as [[a| |e] w1]; [|exact Hm|exact Hm].
  exact (Hf a w1 Hm).
Qed.

Lemma hoare_ret {A : Type} (a : A) (P Qx : world C -> Prop) :
  hoare P (@ret C A a) P Qx.
Proof. intros w HP. exact HP. Qed.

Lemma hoare_return {A : Type} (P Qn Qx : world C -> Prop) :
  (forall w, P w -> Qx w) -> hoare P (@return_ C A) Qn Qx.
Proof. intros H w HP. exact (H w HP). Qed.

Lemma hoare_raise {A : Type} e (P Qn Qx : world C -> Prop) :
  (forall w, P w -> Qx w) -> hoare P (@raise C A e) Qn Qx.
Proof. intros H w HP. exact (H w HP). Qed.

Lemma hoare_get_info (P Qx : world C -> Prop) :
  hoare P (@get_info C) P Qx.
Proof. intros w HP. exact HP. Qed.

Lemma hoare_weaken {A : Type} (m : M C A) (P Q Q' Qx Qx' : world C -> Prop) :
  hoare P m Q Qx ->
  (forall w, Q w -> Q' w) -> (forall w, Qx w -> Qx' w) ->
  hoare P m Q' Qx'.
Proof.
  intros Hm HQ HX w HP. specialize (Hm w HP).
  destruct (m w) as [[a| |e] w1]; auto.
Qed.

Lemma hoare_pre {A : Type} (m : M C A) (P P' Q Qx : world C -> Prop) :
  (forall w, P' w -> P w) -> hoare P m Q Qx -> hoare P' m Q Qx.
Proof. intros HP Hm w Hw. exact (Hm w (HP w Hw)). Qed.

Lemma hoare_if {A : Type} (b : bool) (m1 m2 : M C A)
    (P Q Qx : world C -> Prop) :
  (b = true -> hoare P m1 Q Qx) -> (b = false -> hoare P m2 Q Qx) ->
  hoare P (if b then m1 else m2) Q Qx.
Proof. destruct b; auto. Qed.

Lemma hoare_for_each {A : Type} (l : list A) (body : A -> M C unit)
    (P Qx : world C -> Prop) :
  (forall x, In x l -> hoare P (body x) P Qx) ->
  hoare P (for_each l body) P Qx.
Proof.
  induction l as [|x l IH]; intros Hbody.
  - apply hoare_ret.
  - cbn [for_each]. eapply hoare_bind.
    + apply Hbody. now left.
    + intros _. apply IH. intros y Hy. apply Hbody. now right.
Qed.

End HoareRules.

Section InvariantRules.

Context {C : Type} (E : Env C) (fast_mode : bool) (I X : world C -> Prop).
Hypothesis HI : worker_invariant E fast_mode I X.

Lemma inv_set_status s : s <> completed -> hoare I (@set_status C s) I X.
Proof. intros Hs w Hw. exact (wi_status HI w Hs Hw). Qed.

Lemma inv_append_error e : hoare I (@append_error C e) I X.
Proof. intros w Hw. exact (wi_error HI w e Hw). Qed.

Lemma inv_send_update : hoare I (@_send_update C) I X.
Proof.
  intros w Hw.
  exact (wi_event HI w (env w)
           (SendUpdate (status_of (info w)) (progress_of (info w)))
           eq_refl Hw).
Qed.

Lemma inv_poll_stop : hoare I (poll_stop E) I X.
Proof.
  intros w Hw. unfold poll_stop.
  destruct (stop_requested E (env w)); [|exact Hw].
  unfold request_stop.
  destruct (status_eqb (status_of (info w)) running); [|exact Hw].
  assert (Hs : stopping <> completed) by discriminate.
  exact (wi_event HI (upd_info (with_status stopping) w) (env w)
           (SendUpdate stopping (progress_of (info w))) eq_refl
           (wi_status HI w Hs Hw)).
Qed.

Lemma inv_blocking {A : Type} (op : C -> A * C) (ev : A -> event) :
  (forall a, plain_event fast_mode (ev a) = true) ->
  hoare I (blocking E op ev) I X.
Proof.
  intros Hev w Hw. unfold blocking.
  destruct (op (env w)) as [a c] eqn:Hop.
  pose proof (wi_event HI w c (ev a) (Hev a) Hw) as H1.
  pose proof inv_poll_stop as H2. specialize (H2 _ H1).
  unfold bind, ret. unfold log in H1, H2.
  destruct (poll_stop E _) as [[[]| |e] w1]; exact H2.
Qed.

Lemma inv_set_frame n : hoare I (@set_progress C (set_current_frame n)) I X.
Proof. intros w Hw. exact (wi_frame HI w n Hw). Qed.

Lemma inv_set_bracket n :
  hoare I (@set_progress C (set_current_bracket n)) I X.
Proof. intros w Hw. exact (wi_bracket HI w n Hw). Qed.

(** The way out of the worker: a status, the time, an update. *)
Lemma exit_set_status s : hoare X (@set_status C s) X X.
Proof. intros w Hw. exact (wi_x_status HI w s Hw). Qed.

Lemma exit_append_error e : hoare X (@append_error C e) X X.
Proof. intros w Hw. exact (wi_x_error HI w e Hw). Qed.

Lemma exit_set_end_time : hoare X (set_end_time E) X X.
Proof. intros w Hw. exact (wi_x_end_time HI w (now E (env w)) Hw). Qed.

Lemma exit_send_update : hoare X (@_send_update C) X X.
Proof.
  intros w Hw.
  exact (wi_x_update HI w (status_of (info w)) (progress_of (info w)) Hw).
Qed.

Lemma inv_exit_hoare {A : Type} (m : M C A) :
  hoare I m I X -> hoare I m X X.
Proof.
  intros H. eapply hoare_weaken; [exact H| |auto]. apply (wi_exit HI).
Qed.

Lemma inv_focus_loop bracket_idx frame_idx steps dir speed positions :
  forall total last_idx,
    hoare I (focus_loop E fast_mode bracket_idx frame_idx steps dir speed
               positions total last_idx) I X.
Proof.
  induction positions as [|focus_idx rest IH]; intros total last_idx.
  - apply hoare_ret.
  - cbn [focus_loop]. eapply hoare_bind; [apply (wi_shoot HI)|].
    intros _. destruct (focus_idx <? steps - 1).
    + eapply hoare_bind; [apply inv_blocking; reflexivity|].
      intros r. destruct (negb (fst r)).
      * eapply hoare_bind; [apply inv_append_error|].
        intros _. apply hoare_ret.
      * apply IH.
    + apply IH.
Qed.

Lemma inv_focus_stack_frame d bracket_idx frame_idx :
  hoare I (focus_stack_frame E fast_mode d bracket_idx frame_idx) I X.
Proof.
  unfold focus_stack_frame.
  eapply hoare_bind; [apply inv_focus_loop|].
  intros r. eapply hoare_bind.
  - destruct (negb (fst r =? 0)).
    + eapply hoare_bind; [apply inv_blocking; reflexivity|].
      intros _. apply hoare_ret.
    + apply hoare_ret.
  - intros _. eapply hoare_bind; [apply (wi_shoot HI)|].
    intros _. eapply hoare_bind; [apply inv_blocking; reflexivity|].
    intros _. apply hoare_ret.
Qed.

Lemma inv_frame_body d bracket_idx frame_idx :
  hoare I (frame_body E fast_mode d bracket_idx frame_idx) I X.
Proof.
  unfold frame_body.
  eapply hoare_bind; [apply hoare_get_info|].
  intros ci. destruct (status_eqb (status_of ci) stopping).
  - eapply hoare_bind;
      [apply inv_exit_hoare, inv_set_status; discriminate|].
    intros _. eapply hoare_bind; [apply exit_send_update|].
    intros _. apply hoare_return. auto.
  - eapply hoare_bind; [apply inv_set_frame|].
    intros _. eapply hoare_bind; [apply inv_send_update|].
    intros _. destruct (fs_get d fs_enabled false).
    + apply inv_focus_stack_frame.
    + apply (wi_shoot HI).
Qed.

Lemma inv_bracket_body d ib :
  hoare I (bracket_body E fast_mode d ib) I X.
Proof.
  destruct ib as [bracket_idx b]. unfold bracket_body.
  eapply hoare_bind; [apply inv_set_bracket|].
  intros _. eapply hoare_bind; [apply inv_set_frame|].
  intros _. eapply hoare_bind; [apply inv_send_update|].
  intros _. eapply hoare_bind; [apply inv_blocking; reflexivity|].
  intros r. destruct (negb (fst r)).
  - eapply hoare_bind; [apply inv_append_error|].
    intros _. apply inv_send_update.
  - apply hoare_for_each. intros j _. apply inv_frame_body.
Qed.

Lemma inv_brackets d (bs : list bracket) :
  hoare I (for_each (enumerate bs) (bracket_body E fast_mode d)) I X.
Proof. apply hoare_for_each. intros ib _. apply inv_bracket_body. Qed.

Lemma inv_bulk_download_phase save_dir :
  fast_mode = true ->
  hoare I (bulk_download_phase E save_dir) I X.
Proof.
  intros Hfast. unfold bulk_download_phase.
  eapply hoare_bind; [apply inv_set_status; discriminate|].
  intros _. eapply hoare_bind; [apply inv_send_update|].
  intros _. eapply hoare_bind; [apply inv_blocking; reflexivity|].
  intros ok. eapply hoare_bind.
  { destruct (negb ok); [apply inv_append_error|apply hoare_ret]. }
  intros _. eapply hoare_bind;
    [apply inv_blocking; intros a; cbn; exact Hfast|].
  intros [images_after|].
  - eapply hoare_bind; [apply hoare_get_info|].
    intros ci. cbv zeta.
    destruct (images_after - get (images_before_capture ci) 0 <=? 0).
    + eapply hoare_bind;
        [eapply hoare_pre; [apply (wi_exit HI)|apply exit_set_status]|].
      intros _. eapply hoare_bind; [apply exit_set_end_time|].
      intros _. eapply hoare_bind; [apply exit_send_update|].
      intros _. apply hoare_return. auto.
    + destruct (0 <? images_after - get (images_before_capture ci) 0).
      * eapply hoare_bind;
          [apply inv_blocking; intros a; cbn; exact Hfast|].
        intros [[success message] downloaded_files].
        destruct success.
        -- intros w Hw. exact (wi_results HI Hfast w downloaded_files Hw).
        -- apply inv_append_error.
      * apply hoare_ret.
  - apply hoare_raise. apply (wi_exit HI).
Qed.

Lemma inv_capture_into d save_dir :
  fast_mode_of d = fast_mode ->
  hoare I (capture_into E d save_dir) X X.
Proof.
  intros Hmode. unfold capture_into. fold (fast_mode_of d). rewrite Hmode.
  eapply hoare_bind; [apply inv_blocking; reflexivity|].
  intros made. eapply hoare_bind.
  { destruct made; [apply hoare_ret|apply hoare_raise, (wi_exit HI)]. }
  intros _. eapply hoare_bind; [apply inv_blocking; reflexivity|].
  intros started. destruct (negb started).
  - eapply hoare_bind; [apply inv_exit_hoare, inv_append_error|].
    intros _. eapply hoare_bind; [apply exit_set_status|].
    intros _. eapply hoare_bind; [apply exit_send_update|].
    intros _. apply hoare_return. auto.
  - eapply hoare_bind.
    { apply hoare_if; intros Hfast.
      - eapply hoare_bind;
          [apply inv_blocking; intros a; cbn; exact Hfast|].
        intros counted w Hw.
        exact (wi_images HI Hfast w (get counted 0) Hw).
      - apply inv_blocking. reflexivity. }
    intros _. eapply hoare_bind; [apply inv_brackets|].
    intros _. eapply hoare_bind.
    { apply hoare_if; intros Hfast.
      - apply inv_bulk_download_phase. exact Hfast.
      - apply hoare_ret. }
    intros _. eapply hoare_bind; [apply inv_exit_hoare, (wi_save HI)|].
    intros _. eapply hoare_bind; [apply exit_set_status|].
    intros _. eapply hoare_bind; [apply exit_set_end_time|].
    intros _. apply exit_send_update.
Qed.

Lemma inv_capture_sequence ci :
  fast_mode_of (data ci) = fast_mode ->
  hoare (fun w => I w /\ data (info w) = data ci) (capture_sequence E) X X.
Proof.
  intros Hmode w [Hw Hd]. unfold capture_sequence.
  assert (Hr : running <> completed) by discriminate.
  pose proof (wi_status HI w Hr Hw) as H1.
  pose proof inv_send_update as H2. specialize (H2 _ H1).
  unfold bind, set_status, modify, _send_update, emit, get_info in *.
  cbn [info env trace writes status_of progress_of with_status data] in *.
  apply inv_capture_into; [|exact H2].
  cbn. rewrite Hd. exact Hmode.
Qed.

Lemma inv_worker ci w :
  fast_mode_of (data ci) = fast_mode ->
  I w -> data (info w) = data ci -> X (worker E w).
Proof.
  intros Hmode Hw Hd. unfold worker.
  pose proof (@inv_capture_sequence ci Hmode w (conj Hw Hd)) as H.
  destruct (capture_sequence E w) as [[[]| |e] w1]; [exact H|exact H|].
  apply (wi_x_update HI). apply (wi_x_end_time HI).
  apply (wi_x_status HI). apply (wi_x_error HI). exact H.
Qed.

End InvariantRules.

(** ** Every exposure is counted once *)

Lemma pictures_taken_snoc ok t e :
  pictures_taken ok (t ++ [e])
  = pictures_taken ok t + (if is_picture ok e then 1 else 0).
Proof.
  unfold pictures_taken. rewrite filter_app, length_app. cbn [filter].
  destruct (is_picture ok e); cbn [List.length]; lia.
Qed.

Lemma pictures_taken_plain ok fast_mode t e :
  plain_event fast_mode e = true ->
  pictures_taken ok (t ++ [e]) = pictures_taken ok t.
Proof.
  intros He. rewrite pictures_taken_snoc.
  destruct e; try discriminate; cbn [is_picture]; lia.
Qed.

Section Accounting.

Context {C : Type} (E : Env C) (fast_mode : bool).

Lemma accounted_info (f : capture_info -> capture_info) (w : world C) :
  (forall ci, progress_of (f ci) = progress_of ci) ->
  accounted w -> accounted (upd_info f w).
Proof.
  intros Hf [Hc Hx]. unfold accounted, upd_info.
  cbn [info trace]. rewrite Hf. auto.
Qed.

Lemma accounted_event (w : world C) c e :
  is_picture true e = false -> is_picture false e = false ->
  accounted w -> accounted (log c e w).
Proof.
  intros H1 H2 [Hc Hx]. unfold accounted, log. cbn [info trace].
  rewrite !pictures_taken_snoc, H1, H2. lia.
Qed.

Lemma accounted_poll_stop (w : world C) :
  accounted w -> accounted (snd (poll_stop E w)).
Proof.
  intros Hw. unfold poll_stop.
  destruct (stop_requested E (env w)); [|exact Hw].
  unfold request_stop.
  destruct (status_eqb (status_of (info w)) running); [|exact Hw].
  cbn [snd].
  exact (@accounted_event (upd_info (with_status stopping) w) (env w)
           (SendUpdate stopping (progress_of (info w))) eq_refl eq_refl
           (@accounted_info (with_status stopping) w (fun _ => eq_refl) Hw)).
Qed.

Lemma accounted_shoot error_msg :
  hoare accounted (shoot E fast_mode error_msg) accounted accounted.
Proof.
  intros w [Hc Hx]. unfold shoot, blocking, bind.
  destruct (take_picture E fast_mode (env w)) as [[ok message] c].
  cbn [fst snd].
  assert (H1 : completed_frames
                 (progress_of (info (log c (TakePicture fast_mode ok) w)))
               + (if ok then 1 else 0)
               = pictures_taken true
                   (trace (log c (TakePicture fast_mode ok) w)) /\
               failed_frames
                 (progress_of (info (log c (TakePicture fast_mode ok) w)))
               + (if ok then 0 else 1)
               = pictures_taken false
                   (trace (log c (TakePicture fast_mode ok) w))).
  { unfold log. cbn [info trace]. rewrite !pictures_taken_snoc.
    cbn [is_picture]. destruct ok; cbn [Bool.eqb]; lia. }
  fold (log c (TakePicture fast_mode ok) w).
  generalize dependent (log c (TakePicture fast_mode ok) w).
  intros w1 [H1c H1x].
  assert (H2 : let w2 := snd (poll_stop E w1) in
               fst (poll_stop E w1) = Normal tt /\
               progress_of (info w2) = progress_of (info w1) /\
               pictures_taken true (trace w2) = pictures_taken true (trace w1) /\
               pictures_taken false (trace w2)
               = pictures_taken false (trace w1)).
  { unfold poll_stop. destruct (stop_requested E (env w1)); [|cbn; auto].
    unfold request_stop.
    destruct (status_eqb (status_of (info w1)) running); [|cbn; auto].
    cbn [fst snd info trace progress_of with_status].
    rewrite !pictures_taken_snoc. cbn [is_picture]. repeat split; lia. }
  destruct (poll_stop E w1) as [o w2]. cbn [fst snd] in H2.
  destruct H2 as [-> [Hp [Ht Hf]]]. unfold ret.
  unfold accounted.
  destruct ok; cbn [fst snd].
  - unfold set_progress, _send_update, emit.
    cbn [info trace progress_of with_progress incr_completed
           completed_frames failed_frames].
    rewrite !pictures_taken_snoc. cbn [is_picture]. rewrite Hp. lia.
  - unfold set_progress, append_error, modify, raise, _send_update, emit.
    destruct (error_msg message) as [x|e];
      cbn [info trace progress_of with_progress with_error incr_failed
             completed_frames failed_frames];
      rewrite ?pictures_taken_snoc; cbn [is_picture]; rewrite Hp; lia.
Qed.

Lemma accounted_blocking {A : Type} (op : C -> A * C) (ev : A -> event) :
  (forall a, is_picture true (ev a) = false) ->
  (forall a, is_picture false (ev a) = false) ->
  hoare accounted (blocking E op ev) accounted accounted.
Proof.
  intros Ht Hf w Hw. unfold blocking, bind, ret.
  destruct (op (env w)) as [a c].
  pose proof (@accounted_event w c (ev a) (Ht a) (Hf a) Hw) as H1.
  apply accounted_poll_stop in H1. unfold log in H1.
  destruct (poll_stop E _) as [[[]| |e] w2]; exact H1.
Qed.

Lemma accounted_save dir :
  hoare accounted (_save_capture_info E dir) accounted accounted.
Proof.
  intros w Hw. unfold _save_capture_info. cbv zeta.
  refine (@accounted_blocking unit _ _ _ _ w Hw); intros; reflexivity.
Qed.

Lemma accounted_invariant :
  worker_invariant E fast_mode accounted accounted.
Proof.
  constructor.
  - auto.
  - intros w s _. apply accounted_info. reflexivity.
  - intros w e. apply accounted_info. reflexivity.
  - intros w c e He. apply accounted_event; destruct e; try reflexivity;
      discriminate.
  - intros w n [Hc Hx]. split; [exact Hc|exact Hx].
  - intros w n [Hc Hx]. split; [exact Hc|exact Hx].
  - apply accounted_shoot.
  - apply accounted_save.
  - intros _ w n. apply accounted_info. reflexivity.
  - intros _ w r. apply accounted_info. reflexivity.
  - intros w s. apply accounted_info. reflexivity.
  - intros w e. apply accounted_info. reflexivity.
  - intros w t. apply accounted_info. reflexivity.
  - intros w s p. apply accounted_event; reflexivity.
Qed.

End Accounting.

(** X14. Every exposure is counted exactly once.  When the worker is done,
    whatever the camera answered and however the session ended,
    [completed_frames] is the number of [take_picture] calls that
    succeeded and [failed_frames] the number of those that failed. *)
Theorem frames_are_accounted_for
    (C : Type) (E : Env C) (d : capture_data) (c : C) :
  let w := run E d c in
  completed_frames (progress_of (info w)) = pictures_taken true (trace w) /\
  failed_frames (progress_of (info w)) = pictures_taken false (trace w).
Proof.
  unfold run.
  apply (@inv_worker C E (fast_mode_of d) accounted accounted
           (accounted_invariant E (fast_mode_of d))
           (new_capture_info "id" "start" d)).
  - reflexivity.
  - split; reflexivity.
  - reflexivity.
Qed.

(** ** Invariants that an exposure does not disturb *)

Section PlainInvariants.

Context {C : Type} (E : Env C) (fast_mode : bool) (I X : world C -> Prop).

Hypothesis P_exit : forall w, I w -> X w.
Hypothesis P_stopping : forall w, I w -> I (upd_info (with_status stopping) w).
Hypothesis P_error : forall w e, I w -> I (upd_info (with_error e) w).
Hypothesis P_update :
  forall w s p, I w -> I (log (env w) (SendUpdate s p) w).
Hypothesis P_picture :
  forall w c ok, I w -> I (log c (TakePicture fast_mode ok) w).
Hypothesis P_completed :
  forall w, I w -> I (snd (@set_progress C incr_completed w)).
Hypothesis P_failed :
  forall w, I w -> I (snd (@set_progress C incr_failed w)).

Lemma plain_poll_stop w : I w -> I (snd (poll_stop E w)).
Proof.
  intros Hw. unfold poll_stop.
  destruct (stop_requested E (env w)); [|exact Hw].
  unfold request_stop.
  destruct (status_eqb (status_of (info w)) running); [|exact Hw].
  exact (P_update stopping (progress_of (info w)) (P_stopping Hw)).
Qed.

Lemma plain_shoot error_msg : hoare I (shoot E fast_mode error_msg) I X.
Proof.
  intros w Hw. unfold shoot, blocking, bind.
  destruct (take_picture E fast_mode (env w)) as [[ok message] c].
  cbn [fst snd].
  pose proof (plain_poll_stop (P_picture c ok Hw)) as H1.
  pose proof (poll_stop_normal E (log c (TakePicture fast_mode ok) w)) as Hn.
  unfold log in H1, Hn.
  destruct (poll_stop E _) as [o w2]. cbn [fst snd] in H1, Hn. subst o.
  unfold ret. destruct ok; cbn [fst snd].
  - pose proof (P_completed H1) as H2.
    unfold set_progress in *. cbn [snd] in H2.
    exact (P_update _ _ H2).
  - pose proof (P_failed H1) as H2.
    unfold set_progress in *. cbn [snd] in H2.
    destruct (error_msg message) as [x|e].
    + unfold raise. apply P_exit. exact H2.
    + unfold append_error, modify.
      exact (P_update _ _ (P_error e H2)).
Qed.

End PlainInvariants.

Section PlainSave.

Context {C : Type} (E : Env C) (I X : world C -> Prop).

Hypothesis P_exit : forall w, I w -> X w.
Hypothesis P_stopping : forall w, I w -> I (upd_info (with_status stopping) w).
Hypothesis P_update :
  forall w s p, I w -> I (log (env w) (SendUpdate s p) w).
Hypothesis P_save :
  forall w c dir, I w -> I (log c (SaveCaptureInfo dir (summary_record E w)) w).

Lemma plain_save dir : hoare I (_save_capture_info E dir) I X.
Proof.
  intros w Hw. unfold _save_capture_info, blocking, bind. cbn [fst snd].
  pose proof (@plain_poll_stop C E I P_stopping P_update _
                (P_save (write_capture_info E dir (summary_record E w) (env w))
                   dir Hw)) as H1.
  pose proof (poll_stop_normal E
                (log (write_capture_info E dir (summary_record E w) (env w))
                   (SaveCaptureInfo dir (summary_record E w)) w)) as Hn.
  unfold log, summary_record in H1, Hn.
  destruct (poll_stop E _) as [o w2]. cbn [fst snd] in H1, Hn. subst o.
  exact H1.
Qed.

End PlainSave.

(** ** Standard mode keeps away from the card *)

Section OffTheCard.

Context {C : Type} (E : Env C).

Lemma off_the_card_info (f : capture_info -> capture_info) (w : world C) :
  (forall ci, results (f ci) = results ci /\
              images_before_capture (f ci) = images_before_capture ci) ->
  off_the_card w -> off_the_card (upd_info f w).
Proof.
  intros Hf [Hr [Hi Ht]]. unfold off_the_card, upd_info. cbn [info trace].
  destruct (Hf (info w)) as [-> ->]. auto.
Qed.

Lemma off_the_card_event (w : world C) c e :
  fast_only e = false -> off_the_card w -> off_the_card (log c e w).
Proof.
  intros He [Hr [Hi Ht]]. unfold off_the_card, log. cbn [info trace].
  rewrite forallb_app, Ht. cbn. rewrite He. auto.
Qed.

Lemma off_the_card_progress (f : progress -> progress) (w : world C) :
  off_the_card w -> off_the_card (snd (@set_progress C f w)).
Proof. intros [Hr [Hi Ht]]. repeat split; assumption. Qed.

Lemma off_the_card_invariant :
  worker_invariant E false off_the_card off_the_card.
Proof.
  assert (Hstatus : forall (w : world C) s,
             off_the_card w -> off_the_card (upd_info (with_status s) w))
    by (intros w s; apply off_the_card_info; intros; split; reflexivity).
  assert (Herror : forall (w : world C) e,
             off_the_card w -> off_the_card (upd_info (with_error e) w))
    by (intros w e; apply off_the_card_info; intros; split; reflexivity).
  assert (Hupdate : forall (w : world C) s p,
             off_the_card w -> off_the_card (log (env w) (SendUpdate s p) w))
    by (intros w s p; apply off_the_card_event; reflexivity).
  constructor.
  - auto.
  - intros w s _. apply Hstatus.
  - exact Herror.
  - intros w c e He. apply off_the_card_event.
    destruct e; try reflexivity; discriminate.
  - intros w n. apply off_the_card_progress.
  - intros w n. apply off_the_card_progress.
  - intros error_msg. apply plain_shoot; auto; intros;
      first [apply off_the_card_event; [reflexivity|assumption]
            |apply off_the_card_progress; assumption].
  - intros dir. apply plain_save; auto; intros.
    apply off_the_card_event; [reflexivity|assumption].
  - discriminate.
  - discriminate.
  - exact Hstatus.
  - exact Herror.
  - intros w t. apply off_the_card_info. intros; split; reflexivity.
  - exact Hupdate.
Qed.

End OffTheCard.

(** X15. A plan that does not ask for fast mode keeps away from the card:
    the worker never counts the images on it and never downloads from it,
    and the session record ends with an empty [results] list and no
    [images_before_capture], whatever pictures were taken. *)
Theorem standard_mode_records_no_results
    (C : Type) (E : Env C) (d : capture_data) (c : C) :
  fast_mode_of d = false ->
  let w := run E d c in
  results (info w) = [] /\
  images_before_capture (info w) = None /\
  filter fast_only (trace w) = [].
Proof.
  intros Hmode.
  pose proof (@inv_worker C E false off_the_card off_the_card
                (off_the_card_invariant E)
                (new_capture_info "id" "start" d)
                (initial_world (new_capture_info "id" "start" d) c)
                Hmode) as H.
  destruct H as [Hr [Hi Ht]].
  - repeat split.
  - reflexivity.
  - cbv zeta. unfold run. split; [exact Hr|]. split; [exact Hi|].
    induction (trace _) as [|e t IH]; [reflexivity|].
    cbn [forallb filter] in *. apply andb_true_iff in Ht as [He Ht].
    apply negb_true_iff in He. rewrite He. now apply IH.
Qed.

(** X15 on the standard plan of two brackets. *)
Lemma standard_mode_records_no_results_witness :
  let w := run scripted two_bracket_plan all_ok in
  results (info w) = [] /\
  images_before_capture (info w) = None /\
  filter fast_only (trace w) = [].
Proof.
  apply (@standard_mode_records_no_results script scripted two_bracket_plan
           all_ok).
  reflexivity.
Defined.

(** ** The summary record is written before completion *)

Section SavesPrecedeCompletion.

Context {C : Type} (E : Env C) (fast_mode : bool).

Lemma saves_event (w : world C) c e :
  saved_before_completion e = true ->
  saves_precede_completion w -> saves_precede_completion (log c e w).
Proof.
  intros He Hw. unfold saves_precede_completion, log in *. cbn [trace].
  rewrite forallb_app, Hw. cbn. now rewrite He.
Qed.

Lemma not_yet_info (f : capture_info -> capture_info) (w : world C) :
  (forall ci, status_of (f ci) = status_of ci) ->
  not_yet_completed w -> not_yet_completed (upd_info f w).
Proof.
  intros Hf [Hs Ht]. split; [|exact Ht].
  unfold upd_info. cbn [info]. now rewrite Hf.
Qed.

Lemma not_yet_event (w : world C) c e :
  saved_before_completion e = true ->
  not_yet_completed w -> not_yet_completed (log c e w).
Proof.
  intros He [Hs Ht]. split; [exact Hs|]. now apply saves_event.
Qed.

Lemma not_yet_invariant :
  worker_invariant E fast_mode not_yet_completed saves_precede_completion.
Proof.
  assert (Hstatus : forall (w : world C) s,
             s <> completed -> not_yet_completed w ->
             not_yet_completed (upd_info (with_status s) w))
    by (intros w s Hs [_ Ht]; split; [exact Hs|exact Ht]).
  assert (Herror : forall (w : world C) e,
             not_yet_completed w ->
             not_yet_completed (upd_info (with_error e) w))
    by (intros w e; apply not_yet_info; reflexivity).
  assert (Hupdate : forall (w : world C) s p,
             not_yet_completed w ->
             not_yet_completed (log (env w) (SendUpdate s p) w))
    by (intros w s p; apply not_yet_event; reflexivity).
  assert (Hprogress : forall (w : world C) f,
             not_yet_completed w ->
             not_yet_completed (snd (@set_progress C f w)))
    by (intros w f [Hs Ht]; split; assumption).
  assert (Hstopping : forall w : world C,
             not_yet_completed w ->
             not_yet_completed (upd_info (with_status stopping) w))
    by (intros w; apply Hstatus; discriminate).
  constructor.
  - intros w [_ Ht]. exact Ht.
  - exact Hstatus.
  - exact Herror.
  - intros w c e He. apply not_yet_event.
    destruct e; try reflexivity; discriminate.
  - intros w n. apply Hprogress.
  - intros w n. apply Hprogress.
  - intros error_msg.
    apply plain_shoot;
      [intros w [_ Ht]; exact Ht | exact Hstopping | exact Herror
      | exact Hupdate
      | intros w c ok; apply not_yet_event; reflexivity
      | intros w; apply Hprogress | intros w; apply Hprogress].
  - intros dir.
    apply plain_save; [exact Hstopping | exact Hupdate|].
    intros w c dir' [Hs Ht]. apply not_yet_event; [|split; assumption].
    cbn. apply negb_true_iff.
    destruct (status_eqb (status_of (info w)) completed) eqn:Hc;
      [|reflexivity].
    apply status_eqb_eq in Hc. contradiction.
  - intros _ w n. apply not_yet_info. reflexivity.
  - intros _ w r. apply not_yet_info. reflexivity.
  - intros w s Ht. exact Ht.
  - intros w e Ht. exact Ht.
  - intros w t Ht. exact Ht.
  - intros w s p. apply saves_event. reflexivity.
Qed.

End SavesPrecedeCompletion.

(** X16. The summary record never says [completed]: [_save_capture_info]
    runs before the status is set, so whatever [capture_info.json] the
    worker writes carries the status of the moment (running, stopping or
    downloading), also for a session that ends as completed. *)
Theorem summary_record_is_never_completed
    (C : Type) (E : Env C) (d : capture_data) (c : C) :
  forallb saved_before_completion (trace (run E d c)) = true.
Proof.
  unfold run.
  apply (@inv_worker C E (fast_mode_of d) not_yet_completed
           saves_precede_completion
           (not_yet_invariant E (fast_mode_of d))
           (new_capture_info "id" "start" d)).
  - reflexivity.
  - split; [discriminate|reflexivity].
  - reflexivity.
Qed.

(** ** What the worker leaves of the session record *)

Section SameSession.

Context {C : Type} (E : Env C) (fast_mode : bool) (ci : capture_info).

Lemma same_session_info (f : capture_info -> capture_info) (w : world C) :
  (forall x, id (f x) = id x /\ start_time (f x) = start_time x /\
             data (f x) = data x /\ progress_of (f x) = progress_of x /\
             exists more, errors (f x) = (errors x ++ more)%list) ->
  same_session ci w -> same_session ci (upd_info f w).
Proof.
  intros Hf [Hi [Hs [Hd [Hb [Ht [more He]]]]]].
  destruct (Hf (info w)) as [Fi [Fs [Fd [Fp [more' Fe]]]]].
  unfold same_session, upd_info. cbn [info].
  rewrite Fi, Fs, Fd, Fp, Fe, He.
  repeat split; try assumption.
  exists (more ++ more')%list. now rewrite app_assoc.
Qed.

Lemma same_session_progress (f : progress -> progress) (w : world C) :
  (forall p, total_brackets (f p) = total_brackets p /\
             total_frames (f p) = total_frames p) ->
  same_session ci w -> same_session ci (snd (@set_progress C f w)).
Proof.
  intros Hf [Hi [Hs [Hd [Hb [Ht He]]]]].
  destruct (Hf (progress_of (info w))) as [Fb Ft].
  unfold same_session, set_progress.
  cbn [snd info id start_time data progress_of errors with_progress].
  rewrite Fb, Ft. repeat split; assumption.
Qed.

Lemma same_session_event (w : world C) c e :
  same_session ci w -> same_session ci (log c e w).
Proof. intros H. exact H. Qed.

Lemma same_session_invariant :
  worker_invariant E fast_mode (same_session ci) (same_session ci).
Proof.
  assert (Hkeep : forall (f : capture_info -> capture_info),
             (forall x, id (f x) = id x /\ start_time (f x) = start_time x /\
                        data (f x) = data x /\
                        progress_of (f x) = progress_of x /\
                        errors (f x) = errors x) ->
             forall w : world C,
               same_session ci w -> same_session ci (upd_info f w)).
  { intros f Hf w. apply same_session_info. intros x.
    destruct (Hf x) as [? [? [? [? He]]]]. repeat split; try assumption.
    exists []. now rewrite app_nil_r. }
  assert (Herror : forall (w : world C) e,
             same_session ci w -> same_session ci (upd_info (with_error e) w)).
  { intros w e. apply same_session_info. intros x.
    repeat split. exists [e]. reflexivity. }
  assert (Hprogress : forall (w : world C) f,
             (forall p, total_brackets (f p) = total_brackets p /\
                        total_frames (f p) = total_frames p) ->
             same_session ci w ->
             same_session ci (snd (@set_progress C f w)))
    by (intros w f; apply same_session_progress).
  constructor.
  - auto.
  - intros w s _. apply Hkeep. intros; repeat split.
  - exact Herror.
  - intros w c e _. apply same_session_event.
  - intros w n. apply Hprogress. intros; split; reflexivity.
  - intros w n. apply Hprogress. intros; split; reflexivity.
  - intros error_msg.
    apply plain_shoot;
      [auto | intros w; apply Hkeep; intros; repeat split | exact Herror
      | auto | auto
      | intros w; apply Hprogress; intros; split; reflexivity
      | intros w; apply Hprogress; intros; split; reflexivity].
  - intros dir.
    apply plain_save;
      [intros w; apply Hkeep; intros; repeat split | auto | auto].
  - intros _ w n. apply Hkeep. intros; repeat split.
  - intros _ w r. apply Hkeep. intros; repeat split.
  - intros w s. apply Hkeep. intros; repeat split.
  - exact Herror.
  - intros w t. apply Hkeep. intros; repeat split.
  - auto.
Qed.

Lemma worker_same_session (c : C) :
  fast_mode_of (data ci) = fast_mode ->
  same_session ci (worker E (initial_world ci c)).
Proof.
  intros Hmode.
  apply (@inv_worker C E fast_mode (same_session ci) (same_session ci)
           same_session_invariant ci); [exact Hmode| |reflexivity].
  repeat split. exists []. cbn. now rewrite app_nil_r.
Qed.

End SameSession.

(** X17. The worker of one session touches that session only.  For an id
    the registry does not know, [_execute_capture_sequence] does nothing.
    For a known one, every other session of the registry is left as it
    was, and in the session's own record the id, the start time, the plan
    and the two totals of the progress are unchanged and the errors
    recorded before are still there, in place, before the new ones. *)
Theorem worker_touches_only_its_session
    (C : Type) (E : Env C) (reg : registry) (capture_id : string) (c : C) :
  let '(reg', ow) := _execute_capture_sequence E reg capture_id c in
  (forall k, k <> capture_id -> reg' k = reg k) /\
  match reg capture_id with
  | None => reg' = reg /\ ow = None
  | Some ci =>
      exists w, ow = Some w /\ reg' capture_id = Some (info w) /\
                same_session ci w
  end.
Proof.
  unfold _execute_capture_sequence.
  destruct (reg capture_id) as [ci|] eqn:Hreg.
  - split.
    + intros k Hk. now apply reg_set_other.
    + eexists. split; [reflexivity|]. split; [apply reg_set_same|].
      now apply (@worker_same_session C E (fast_mode_of (data ci)) ci c).
  - split; [reflexivity|split; reflexivity].
Qed.

(** ** The worker ends in a terminal status *)

Section TerminalStatus.

Context {C : Type} (E : Env C).

Lemma leaves_bind {A B : Type} (m : M C A) (f : A -> M C B) :
  leaves_terminal m -> (forall a, leaves_terminal (f a)) ->
  leaves_terminal (bind m f).
Proof.
  intros Hm Hf w. unfold bind. specialize (Hm w).
  destruct (m w) as [[a| |e] w1]; cbn [fst snd] in *.
  - apply Hf.
  - intros _. exact (Hm eq_refl).
  - discriminate.
Qed.

Lemma leaves_no_return {A : Type} (m : M C A) :
  (forall w, fst (m w) <> Return) -> leaves_terminal m.
Proof. intros H w Hr. now apply H in Hr. Qed.

Lemma leaves_modify f : leaves_terminal (@modify C f).
Proof. apply leaves_no_return. discriminate. Qed.

Lemma leaves_set_progress f : leaves_terminal (@set_progress C f).
Proof. apply leaves_no_return. discriminate. Qed.

Lemma leaves_send_update : leaves_terminal (@_send_update C).
Proof. apply leaves_no_return. discriminate. Qed.

Lemma leaves_ret {A : Type} (a : A) : leaves_terminal (@ret C A a).
Proof. apply leaves_no_return. discriminate. Qed.

Lemma leaves_raise {A : Type} e : leaves_terminal (@raise C A e).
Proof. apply leaves_no_return. discriminate. Qed.

Lemma leaves_get_info : leaves_terminal (@get_info C).
Proof. apply leaves_no_return. discriminate. Qed.

Lemma leaves_set_end_time : leaves_terminal (set_end_time E).
Proof. apply leaves_no_return. discriminate. Qed.

Lemma leaves_blocking {A : Type} (op : C -> A * C) (ev : A -> event) :
  leaves_terminal (blocking E op ev).
Proof.
  apply leaves_no_return. intros w. unfold blocking, bind, ret.
  destruct (op (env w)) as [a c].
  pose proof (poll_stop_normal E
                (mk_world (info w) c (trace w ++ [ev a]) (writes w))) as Hn.
  destruct (poll_stop E _) as [o w1]. cbn [fst] in Hn. subst o.
  discriminate.
Qed.

Lemma leaves_for_each {A : Type} (l : list A) (body : A -> M C unit) :
  (forall x, leaves_terminal (body x)) -> leaves_terminal (for_each l body).
Proof.
  intros Hb. induction l as [|x l IH]; [apply leaves_ret|].
  cbn [for_each]. apply leaves_bind; [apply Hb|intros _; exact IH].
Qed.

(** The three places where the worker returns early. *)
Lemma leaves_exit s :
  terminal s = true ->
  leaves_terminal
    (bind (@set_status C s) (fun _ => bind (@_send_update C)
                                        (fun _ => @return_ C unit))).
Proof. intros Hs w _. exact Hs. Qed.

Lemma leaves_exit_timed s :
  terminal s = true ->
  leaves_terminal
    (bind (@set_status C s)
       (fun _ => bind (set_end_time E)
                   (fun _ => bind (@_send_update C)
                               (fun _ => @return_ C unit)))).
Proof. intros Hs w _. exact Hs. Qed.

Lemma leaves_shoot fast_mode error_msg :
  leaves_terminal (shoot E fast_mode error_msg).
Proof.
  unfold shoot. apply leaves_bind; [apply leaves_blocking|].
  intros r. apply leaves_bind; [|intros _; apply leaves_send_update].
  destruct (fst r); [apply leaves_set_progress|].
  apply leaves_bind; [apply leaves_set_progress|].
  intros _. destruct (error_msg (snd r));
    [apply leaves_raise|apply leaves_modify].
Qed.

Lemma leaves_focus_loop fast_mode bracket_idx frame_idx steps dir speed
    positions :
  forall total last_idx,
    leaves_terminal
      (focus_loop E fast_mode bracket_idx frame_idx steps dir speed positions
         total last_idx).
Proof.
  induction positions as [|focus_idx rest IH]; intros total last_idx.
  - apply leaves_ret.
  - cbn [focus_loop]. apply leaves_bind; [apply leaves_shoot|].
    intros _. destruct (focus_idx <? steps - 1); [|apply IH].
    apply leaves_bind; [apply leaves_blocking|].
    intros r. destruct (negb (fst r)); [|apply IH].
    apply leaves_bind; [apply leaves_modify|intros _; apply leaves_ret].
Qed.

Lemma leaves_frame_body fast_mode d bracket_idx frame_idx :
  leaves_terminal (frame_body E fast_mode d bracket_idx frame_idx).
Proof.
  unfold frame_body. apply leaves_bind; [apply leaves_get_info|].
  intros ci. destruct (status_eqb (status_of ci) stopping).
  - apply leaves_exit. reflexivity.
  - apply leaves_bind; [apply leaves_set_progress|].
    intros _. apply leaves_bind; [apply leaves_send_update|].
    intros _. destruct (fs_get d fs_enabled false); [|apply leaves_shoot].
    unfold focus_stack_frame.
    apply leaves_bind; [apply leaves_focus_loop|].
    intros r. apply leaves_bind.
    + destruct (negb (fst r =? 0)); [|apply leaves_ret].
      apply leaves_bind; [apply leaves_blocking|intros _; apply leaves_ret].
    + intros _. apply leaves_bind; [apply leaves_shoot|].
      intros _. apply leaves_bind;
        [apply leaves_blocking|intros _; apply leaves_ret].
Qed.

Lemma leaves_bracket_body fast_mode d ib :
  leaves_terminal (bracket_body E fast_mode d ib).
Proof.
  destruct ib as [bracket_idx b]. unfold bracket_body.
  apply leaves_bind; [apply leaves_set_progress|].
  intros _. apply leaves_bind; [apply leaves_set_progress|].
  intros _. apply leaves_bind; [apply leaves_send_update|].
  intros _. apply leaves_bind; [apply leaves_blocking|].
  intros r. destruct (negb (fst r)).
  - apply leaves_bind; [apply leaves_modify|].
    intros _. apply leaves_send_update.
  - apply leaves_for_each. intros j. apply leaves_frame_body.
Qed.

Lemma leaves_bulk_download_phase save_dir :
  leaves_terminal (bulk_download_phase E save_dir).
Proof.
  unfold bulk_download_phase.
  apply leaves_bind; [apply leaves_modify|].
  intros _. apply leaves_bind; [apply leaves_send_update|].
  intros _. apply leaves_bind; [apply leaves_blocking|].
  intros ok. apply leaves_bind.
  { destruct (negb ok); [apply leaves_modify|apply leaves_ret]. }
  intros _. apply leaves_bind; [apply leaves_blocking|].
  intros [images_after|]; [|apply leaves_raise].
  apply leaves_bind; [apply leaves_get_info|].
  intros ci. cbv zeta.
  destruct (images_after - get (images_before_capture ci) 0 <=? 0).
  - apply leaves_exit_timed. reflexivity.
  - destruct (0 <? images_after - get (images_before_capture ci) 0);
      [|apply leaves_ret].
    apply leaves_bind; [apply leaves_blocking|].
    intros [[success message] downloaded_files].
    destruct success; apply leaves_modify.
Qed.

Lemma leaves_save_capture_info save_dir :
  leaves_terminal (_save_capture_info E save_dir).
Proof.
  intros w. unfold _save_capture_info. cbv zeta. apply leaves_blocking.
Qed.

Lemma leaves_capture_into d save_dir :
  leaves_terminal (capture_into E d save_dir).
Proof.
  unfold capture_into.
  apply leaves_bind; [apply leaves_blocking|].
  intros made. apply leaves_bind.
  { destruct made; [apply leaves_ret|apply leaves_raise]. }
  intros _. cbv zeta. apply leaves_bind; [apply leaves_blocking|].
  intros started. destruct (negb started).
  - apply leaves_bind; [apply leaves_modify|].
    intros _. apply leaves_exit. reflexivity.
  - apply leaves_bind.
    { destruct (String.eqb _ _).
      - apply leaves_bind; [apply leaves_blocking|].
        intros counted. apply leaves_modify.
      - apply leaves_blocking. }
    intros _. apply leaves_bind.
    { apply leaves_for_each. intros ib. apply leaves_bracket_body. }
    intros _. apply leaves_bind.
    { destruct (String.eqb _ _);
        [apply leaves_bulk_download_phase|apply leaves_ret]. }
    intros _. apply leaves_bind; [apply leaves_save_capture_info|].
    intros _. apply leaves_bind; [apply leaves_modify|].
    intros _. apply leaves_bind; [apply leaves_set_end_time|].
    intros _. apply leaves_send_update.
Qed.

Lemma falls_bind {A B : Type} (m : M C A) (f : A -> M C B) :
  (forall a, falls_completed (f a)) -> falls_completed (bind m f).
Proof.
  intros Hf w b. unfold bind.
  destruct (m w) as [[a| |e] w1]; cbn [fst snd]; try discriminate.
  apply Hf.
Qed.

Lemma falls_return {A : Type} : falls_completed (@return_ C A).
Proof. intros w a H. discriminate. Qed.

Lemma falls_capture_into d save_dir :
  falls_completed (capture_into E d save_dir).
Proof.
  unfold capture_into.
  apply falls_bind. intros made. apply falls_bind. intros _. cbv zeta.
  apply falls_bind. intros started. destruct (negb started).
  - do 3 (apply falls_bind; intros _). apply falls_return.
  - do 4 (apply falls_bind; intros _).
    intros w a _. reflexivity.
Qed.

Lemma capture_sequence_ends w :
  match fst (capture_sequence E w) with
  | Normal _ => status_of (info (snd (capture_sequence E w))) = completed
  | Return => terminal (status_of (info (snd (capture_sequence E w)))) = true
  | Raised _ => True
  end.
Proof.
  unfold capture_sequence, bind, set_status, modify, _send_update, emit,
    get_info.
  cbn [info env trace writes].
  match goal with
  | |- context [capture_into E ?d ?dir ?w1] =>
      pose proof (@leaves_capture_into d dir w1) as Hl;
      pose proof (@falls_capture_into d dir w1) as Hf;
      destruct (capture_into E d dir w1) as [[a| |e] w2];
      cbn [fst snd] in *
  end.
  - exact (Hf a eq_refl).
  - exact (Hl eq_refl).
  - exact I.
Qed.

End TerminalStatus.

(** X18. The worker always ends in a terminal status.  Whatever the plan,
    the record it starts from and the answers of the camera, when
    [_execute_capture_sequence] is done the status is [completed],
    [error] or [stopped], the three a caller polling
    [get_capture_status] waits for. *)
Theorem worker_ends_in_terminal_status
    (C : Type) (E : Env C) (ci : capture_info) (c : C) :
  terminal (status_of (info (worker E (initial_world ci c)))) = true.
Proof.
  unfold worker.
  pose proof (capture_sequence_ends E (initial_world ci c)) as H.
  destruct (capture_sequence E (initial_world ci c)) as [[[]| |e] w1];
    cbn [fst snd] in H.
  - now rewrite H.
  - exact H.
  - reflexivity.
Qed.

(** ** The exposures stay within the planned total *)

Section ExposureBudget.

Context {C : Type} (E : Env C).

Lemma at_most_keeps {A : Type} (m : M C A) : keeps m -> at_most 0 m.
Proof.
  intros Hk w. destruct (Hk w) as [_ Hp]. unfold shots. rewrite Hp. lia.
Qed.

Lemma at_most_bind {A B : Type} (m : M C A) (f : A -> M C B) k1 k2 :
  0 <= k2 ->
  at_most k1 m -> (forall a, at_most k2 (f a)) -> at_most (k1 + k2) (bind m f).
Proof.
  intros Hk Hm Hf w. unfold bind. specialize (Hm w).
  destruct (m w) as [[a| |e] w1]; cbn [snd] in *; try lia.
  specialize (Hf a w1). lia.
Qed.

Lemma at_most_mono {A : Type} (m : M C A) k k' :
  k <= k' -> at_most k m -> at_most k' m.
Proof. intros Hk Hm w. specialize (Hm w). lia. Qed.

Lemma at_most_position (f : progress -> progress) :
  (forall p, completed_frames (f p) = completed_frames p /\
             failed_frames (f p) = failed_frames p) ->
  at_most 0 (@set_progress C f).
Proof.
  intros Hf w. unfold shots, set_progress.
  cbn [snd info progress_of with_progress].
  destruct (Hf (progress_of (info w))) as [-> ->]. lia.
Qed.

Lemma at_most_shoot fast_mode error_msg :
  at_most 1 (shoot E fast_mode error_msg).
Proof.
  unfold shoot.
  apply (@at_most_bind _ _ _ _ 0 1); [lia|apply at_most_keeps, keeps_blocking|].
  intros r.
  apply (@at_most_bind _ _ _ _ 1 0);
    [lia| |intros _; apply at_most_keeps, keeps_send_update].
  destruct (fst r).
  - intros w. unfold shots, set_progress.
    cbn [snd info progress_of with_progress incr_completed
           completed_frames failed_frames]. lia.
  - apply (@at_most_bind _ _ _ _ 1 0); [lia| |].
    + intros w. unfold shots, set_progress.
      cbn [snd info progress_of with_progress incr_failed
             completed_frames failed_frames]. lia.
    + intros _. apply at_most_keeps.
      destruct (error_msg (snd r));
        [apply keeps_raise|apply keeps_append_error].
Qed.

Lemma at_most_focus_loop fast_mode bracket_idx frame_idx steps dir speed
    positions :
  forall total last_idx,
    at_most (Z.of_nat (List.length positions))
      (focus_loop E fast_mode bracket_idx frame_idx steps dir speed positions
         total last_idx).
Proof.
  induction positions as [|focus_idx rest IH]; intros total last_idx.
  - apply at_most_keeps, keeps_ret.
  - cbn [focus_loop List.length]. rewrite Nat2Z.inj_succ.
    replace (Z.succ (Z.of_nat (List.length rest)))
      with (1 + Z.of_nat (List.length rest)) by lia.
    apply at_most_bind; [lia|apply at_most_shoot|].
    intros _. destruct (focus_idx <? steps - 1); [|apply IH].
    replace (Z.of_nat (List.length rest))
      with (0 + Z.of_nat (List.length rest)) by lia.
    apply at_most_bind; [lia|apply at_most_keeps, keeps_blocking|].
    intros r. destruct (negb (fst r)); [|apply IH].
    apply (@at_most_mono _ _ 0); [lia|].
    apply at_most_keeps, keeps_bind;
      [apply keeps_append_error|intros _; apply keeps_ret].
Qed.

Lemma length_range n : Z.of_nat (List.length (Py.range n)) = Z.max 0 n.
Proof. unfold Py.range. rewrite length_map, length_seq. lia. Qed.

Lemma at_most_frame_body fast_mode d bracket_idx frame_idx :
  at_most (if fs_get d fs_enabled false
           then Z.max 0 (fs_get d fs_steps 10) + 1 else 1)
    (frame_body E fast_mode d bracket_idx frame_idx).
Proof.
  assert (Hk : 0 <= (if fs_get d fs_enabled false
                     then Z.max 0 (fs_get d fs_steps 10) + 1 else 1))
    by (destruct (fs_get d fs_enabled false); lia).
  unfold frame_body.
  match goal with |- at_most ?k _ => replace k with (0 + k) by lia end.
  apply at_most_bind; [exact Hk|apply at_most_keeps, keeps_get_info|].
  intros ci. destruct (status_eqb (status_of ci) stopping).
  - apply (@at_most_mono _ _ 0); [exact Hk|].
    apply at_most_keeps.
    apply keeps_bind; [apply keeps_set_status|].
    intros _. apply keeps_bind; [apply keeps_send_update|].
    intros _. apply keeps_return.
  - match goal with |- at_most ?k _ => replace k with (0 + k) by lia end.
    apply at_most_bind; [exact Hk|apply at_most_position; now split|].
    intros _.
    match goal with |- at_most ?k _ => replace k with (0 + k) by lia end.
    apply at_most_bind; [exact Hk|apply at_most_keeps, keeps_send_update|].
    intros _. destruct (fs_get d fs_enabled false); [|apply at_most_shoot].
    unfold focus_stack_frame. cbv zeta.
    rewrite <- length_range.
    apply at_most_bind; [lia|apply at_most_focus_loop|].
    intros r.
    replace 1 with (0 + 1) by lia.
    apply at_most_bind; [lia| |].
    + apply at_most_keeps. destruct (negb (fst r =? 0)); [|apply keeps_ret].
      apply keeps_bind; [apply keeps_blocking|intros _; apply keeps_ret].
    + intros _. replace 1 with (1 + 0) by lia.
      apply at_most_bind; [lia|apply at_most_shoot|].
      intros _. apply at_most_keeps.
      apply keeps_bind; [apply keeps_blocking|intros _; apply keeps_ret].
Qed.

Lemma at_most_for_each_const {A : Type} (l : list A) (body : A -> M C unit) k :
  0 <= k -> (forall x, at_most k (body x)) ->
  at_most (Z.of_nat (List.length l) * k) (for_each l body).
Proof.
  intros Hk Hb. induction l as [|x l IH].
  - apply at_most_keeps, keeps_ret.
  - cbn [for_each List.length]. rewrite Nat2Z.inj_succ.
    replace (Z.succ (Z.of_nat (List.length l)) * k)
      with (k + Z.of_nat (List.length l) * k) by lia.
    apply at_most_bind; [nia|apply Hb|intros _; exact IH].
Qed.

Lemma exposures_of_nonneg d b : 0 <= exposures_of d b.
Proof.
  unfold exposures_of. destruct (fs_get d fs_enabled false); nia.
Qed.

Lemma at_most_bracket_body fast_mode d ib :
  at_most (exposures_of d (snd ib)) (bracket_body E fast_mode d ib).
Proof.
  destruct ib as [bracket_idx b]. cbn [snd].
  pose proof (exposures_of_nonneg d b) as Hk.
  unfold bracket_body.
  match goal with |- at_most ?k _ => replace k with (0 + k) by lia end.
  apply at_most_bind; [exact Hk|apply at_most_position; now split|].
  intros _.
  match goal with |- at_most ?k _ => replace k with (0 + k) by lia end.
  apply at_most_bind; [exact Hk|apply at_most_position; now split|].
  intros _.
  match goal with |- at_most ?k _ => replace k with (0 + k) by lia end.
  apply at_most_bind; [exact Hk|apply at_most_keeps, keeps_send_update|].
  intros _.
  match goal with |- at_most ?k _ => replace k with (0 + k) by lia end.
  apply at_most_bind; [exact Hk|apply at_most_keeps, keeps_blocking|].
  intros r. destruct (negb (fst r)).
  - apply (@at_most_mono _ _ 0); [exact Hk|].
    apply at_most_keeps, keeps_bind;
      [apply keeps_append_error|intros _; apply keeps_send_update].
  - unfold exposures_of. rewrite <- length_range.
    apply at_most_for_each_const;
      [destruct (fs_get d fs_enabled false); lia|].
    intros j. apply at_most_frame_body.
Qed.

Lemma at_most_for_each_sum {A : Type} (g : A -> Z) (l : list A)
    (body : A -> M C unit) :
  (forall x, 0 <= g x) -> (forall x, at_most (g x) (body x)) ->
  at_most (fold_right (fun x acc => g x + acc) 0 l) (for_each l body).
Proof.
  intros Hg Hb. induction l as [|x l IH].
  - apply at_most_keeps, keeps_ret.
  - cbn [for_each fold_right]. apply at_most_bind; [|apply Hb|intros _; exact IH].
    clear IH. induction l as [|y l IH]; cbn [fold_right]; [lia|].
    pose proof (Hg y). lia.
Qed.

Lemma sum_over_enumerate (f : bracket -> Z) (bs : list bracket) :
  fold_right (fun (ib : Z * bracket) acc => f (snd ib) + acc) 0 (enumerate bs)
  = sum_over f bs.
Proof.
  unfold enumerate, Py.range. rewrite Nat2Z.id.
  generalize 0%nat. induction bs as [|b bs IH]; intros n; [reflexivity|].
  cbn [List.length seq map combine fold_right sum_over snd].
  f_equal. apply IH.
Qed.

Lemma sum_over_nonneg (f : bracket -> Z) (bs : list bracket) :
  (forall b, 0 <= f b) -> 0 <= sum_over f bs.
Proof.
  intros Hf. induction bs as [|b bs IH]; cbn; [lia|].
  pose proof (Hf b). unfold sum_over in IH. lia.
Qed.

Lemma at_most_capture_into d save_dir :
  at_most (sum_over (exposures_of d) (get (brackets d) []))
    (capture_into E d save_dir).
Proof.
  pose proof (sum_over_nonneg (exposures_of d) (get (brackets d) [])
                (exposures_of_nonneg d)) as Hk.
  unfold capture_into.
  match goal with |- at_most ?k _ => replace k with (0 + k) by lia end.
  apply at_most_bind; [exact Hk|apply at_most_keeps, keeps_blocking|].
  intros made.
  match goal with |- at_most ?k _ => replace k with (0 + k) by lia end.
  apply at_most_bind; [exact Hk| |].
  { apply at_most_keeps. destruct made; [apply keeps_ret|apply keeps_raise]. }
  intros _. cbv zeta.
  match goal with |- at_most ?k _ => replace k with (0 + k) by lia end.
  apply at_most_bind; [exact Hk|apply at_most_keeps, keeps_blocking|].
  intros started. destruct (negb started).
  - apply (@at_most_mono _ _ 0); [exact Hk|]. apply at_most_keeps.
    apply keeps_bind; [apply keeps_append_error|].
    intros _. apply keeps_bind; [apply keeps_set_status|].
    intros _. apply keeps_bind; [apply keeps_send_update|].
    intros _. apply keeps_return.
  - match goal with |- at_most ?k _ => replace k with (0 + k) by lia end.
    apply at_most_bind; [exact Hk| |].
    { apply at_most_keeps. destruct (String.eqb _ _).
      - apply keeps_bind; [apply keeps_blocking|].
        intros counted. apply keeps_modify. reflexivity.
      - apply keeps_blocking. }
    intros _.
    match goal with |- at_most ?k _ => replace k with (k + 0) by lia end.
    apply at_most_bind; [lia| |].
    { rewrite <- sum_over_enumerate.
      apply at_most_for_each_sum.
      - intros ib. apply exposures_of_nonneg.
      - intros ib. apply at_most_bracket_body. }
    intros _. apply at_most_keeps.
    apply keeps_bind.
    { destruct (String.eqb _ _);
        [apply keeps_bulk_download_phase|apply keeps_ret]. }
    intros _. apply keeps_bind; [apply keeps_save_capture_info|].
    intros _. apply keeps_bind; [apply keeps_set_status|].
    intros _. apply keeps_bind; [apply keeps_set_end_time|].
    intros _. apply keeps_send_update.
Qed.

Lemma worker_budget (ci : capture_info) (c : C) :
  shots (worker E (initial_world ci c))
  <= shots (initial_world ci c)
     + sum_over (exposures_of (data ci)) (get (brackets (data ci)) []).
Proof.
  unfold worker, capture_sequence.
  set (w := initial_world ci c).
  unfold bind at 1. unfold set_status at 1. unfold modify at 1.
  unfold bind at 1. unfold _send_update at 1. unfold emit at 1.
  unfold bind at 1. unfold get_info at 1.
  cbn [info env trace writes data with_status].
  match goal with
  | |- context [capture_into E ?d ?dir ?w1] =>
      pose proof (@at_most_capture_into d dir w1) as H;
      change (shots w1) with (shots w) in H;
      destruct (capture_into E d dir w1) as [[a| |e] w2]; cbn [snd] in H
  end.
  - exact H.
  - exact H.
  - exact H.
Qed.

End ExposureBudget.

Lemma sane_plan_total d :
  sane_plan d ->
  sum_over (exposures_of d) (get (brackets d) []) = _calculate_total_frames d.
Proof.
  intros [Hframes Hsteps]. unfold _calculate_total_frames. cbv zeta.
  unfold exposures_of.
  destruct (fs_get d fs_enabled false).
  - specialize (Hsteps eq_refl).
    rewrite (fold_left_sum_over
               (fun b => get (b_frames b) 0 * (fs_get d fs_steps 10 + 1))).
    induction Hframes as [|b bs Hb _ IH]; cbn; [reflexivity|].
    unfold sum_over in IH. rewrite IH. lia.
  - rewrite (fold_left_sum_over (fun b => get (b_frames b) 0)).
    induction Hframes as [|b bs Hb _ IH]; cbn; [reflexivity|].
    unfold sum_over in IH. rewrite IH. lia.
Qed.

(** X19. Progress never passes 100 %.  For a plan whose frame counts (and
    step count, when stacking) are not negative, the exposures counted
    when the worker is done, completed and failed together, are at most
    the [total_frames] computed when the session was created. *)
Theorem exposures_within_total_frames
    (C : Type) (E : Env C) (d : capture_data) (c : C) :
  sane_plan d ->
  let p := progress_of (info (run E d c)) in
  completed_frames p + failed_frames p <= total_frames p.
Proof.
  intros Hsane. cbv zeta. unfold run.
  pose proof (worker_budget E (new_capture_info "id" "start" d) c) as Hb.
  pose proof (@worker_same_session C E (fast_mode_of d)
                (new_capture_info "id" "start" d) c eq_refl)
    as [_ [_ [_ [_ [Ht _]]]]].
  rewrite Ht. cbn [new_capture_info progress_of total_frames data] in *.
  rewrite (sane_plan_total Hsane) in Hb.
  unfold shots at 2 in Hb. cbn in Hb. unfold shots in Hb. lia.
Qed.

(** X19 on the fast plan with a focus stack of four positions. *)
Lemma exposures_within_total_frames_witness :
  let p := progress_of (info (run scripted fast_stack_plan all_ok)) in
  completed_frames p + failed_frames p <= total_frames p.
Proof.
  apply (@exposures_within_total_frames script scripted fast_stack_plan
           all_ok).
  split.
  - repeat constructor; discriminate.
  - intros _. discriminate.
Defined.
(** ** Failures before the first bracket *)

Section Startup.

Context {C : Type} (E : Env C).

Lemma poll_stop_cases (w : world C) :
  exists st more,
    poll_stop E w
    = (Normal tt,
       mk_world (with_status st (info w)) (env w) (trace w ++ more)
         (writes w)) /\
    device_calls more = [] /\
    (status_of (info w) = running -> st = running \/ st = stopping) /\
    (status_of (info w) <> running -> st = status_of (info w)).
Proof.
  unfold poll_stop.
  assert (Hsame : w = mk_world (with_status (status_of (info w)) (info w))
                        (env w) (trace w ++ []) (writes w)).
  { destruct w as [[] c0 t ws]. cbn. now rewrite app_nil_r. }
  destruct (stop_requested E (env w)).
  - unfold request_stop.
    destruct (status_eqb (status_of (info w)) running) eqn:Hst.
    + exists stopping, [SendUpdate stopping (progress_of (info w))].
      apply status_eqb_eq in Hst.
      repeat split; auto. intros Hn. contradiction.
    + exists (status_of (info w)), []. split; [now rewrite <- Hsame|].
      split; [reflexivity|]. split; auto.
  - exists (status_of (info w)), []. split; [now rewrite <- Hsame|].
    split; [reflexivity|]. split; auto.
Qed.

End Startup.

Section StartupFailures.

Context {C : Type} (E : Env C).

Lemma bind_modify {B : Type} f (k : unit -> M C B) (w : world C) :
  bind (@modify C f) k w = k tt (upd_info f w).
Proof. reflexivity. Qed.

Lemma bind_send_update {B : Type} (k : unit -> M C B) (w : world C) :
  bind (@_send_update C) k w
  = k tt (log (env w)
            (SendUpdate (status_of (info w)) (progress_of (info w))) w).
Proof. reflexivity. Qed.

(** A call that blocks: the answer, and what the other thread may have
    done to the status meanwhile. *)
Lemma blocking_run {A : Type} (op : C -> A * C) (ev : A -> event)
    (w : world C) :
  exists st more,
    blocking E op ev w
    = (Normal (fst (op (env w))),
       mk_world (with_status st (info w)) (snd (op (env w)))
         (trace w ++ ev (fst (op (env w))) :: more) (writes w)) /\
    device_calls more = [] /\
    (status_of (info w) = running -> st = running \/ st = stopping) /\
    (status_of (info w) <> running -> st = status_of (info w)).
Proof.
  unfold blocking. destruct (op (env w)) as [a c]. cbn [fst snd].
  destruct (poll_stop_cases E
              (mk_world (info w) c (trace w ++ [ev a]) (writes w)))
    as [st [more [Hp [Hm [H1 H2]]]]].
  exists st, more. unfold bind. rewrite Hp. cbn [info env trace writes].
  rewrite <- app_assoc. cbn [app]. auto.
Qed.

Lemma capture_into_makedirs_failure d dir (w : world C) :
  fst (makedirs E dir (env w)) = false ->
  exists st more,
    capture_into E d dir w
    = (Raised OSError,
       mk_world (with_status st (info w)) (snd (makedirs E dir (env w)))
         (trace w ++ MakeDirs dir false :: more) (writes w)) /\
    device_calls more = [].
Proof.
  intros Hmade. unfold capture_into.
  destruct (blocking_run (makedirs E dir) (MakeDirs dir) w)
    as [st [more [Hb [Hm _]]]].
  rewrite Hmade in Hb.
  exists st, more. split; [|exact Hm].
  rewrite (@bind_Normal C _ _ _ _ _ _ _ Hb). reflexivity.
Qed.

Lemma capture_into_session_failure d dir (w : world C) :
  fst (makedirs E dir (env w)) = true ->
  fst (start_capture_session E (snd (makedirs E dir (env w)))) = false ->
  exists st more c2,
    capture_into E d dir w
    = (Return,
       mk_world
         (with_status error
            (with_error Failed_to_start_capture_session
               (with_status st (info w))))
         c2 (trace w ++ more) (writes w)) /\
    device_calls more = [MakeDirs dir true; StartSession false].
Proof.
  intros Hmade Hstarted. unfold capture_into.
  destruct (blocking_run (makedirs E dir) (MakeDirs dir) w)
    as [st1 [more1 [Hb1 [Hm1 _]]]].
  rewrite Hmade in Hb1. rewrite (@bind_Normal C _ _ _ _ _ _ _ Hb1).
  unfold bind at 1. unfold ret at 1. cbv zeta.
  match type of Hb1 with
  | _ = (_, ?w1) =>
      destruct (blocking_run (start_capture_session E) StartSession w1)
        as [st2 [more2 [Hb2 [Hm2 _]]]]
  end.
  cbn [info env trace writes] in Hb2. rewrite Hstarted in Hb2.
  rewrite (@bind_Normal C _ _ _ _ _ _ _ Hb2). cbn [negb].
  unfold append_error, set_status.
  rewrite bind_modify, bind_modify, bind_send_update.
  unfold return_, upd_info, log. cbn [info env trace writes].
  exists st2, (MakeDirs dir true :: more1 ++ StartSession false :: more2
               ++ [SendUpdate error (progress_of (info w))])%list.
  eexists. split.
  - rewrite <- !app_assoc. cbn [app]. reflexivity.
  - unfold device_calls in *. cbn [filter is_call].
    rewrite filter_app, Hm1. cbn [app filter is_call].
    rewrite filter_app, Hm2. reflexivity.
Qed.

End StartupFailures.

(** X22. A camera session that cannot be started ends the capture before
    anything is done.  When the save directory is there and
    [start_capture_session] answers false, the worker makes no other call:
    no settings are applied, no picture is taken, no summary record is
    written.  The session ends as [error] with the one error
    "Failed to start capture session", its counters untouched, and with
    no [end_time]. *)
Theorem session_start_failure
    (C : Type) (E : Env C) (d : capture_data) (c : C) :
  let dir := get (save_directory d) ("capture_" ++ now E c)%string in
  fst (makedirs E dir c) = true ->
  fst (start_capture_session E (snd (makedirs E dir c))) = false ->
  let w := run E d c in
  status_of (info w) = error /\
  errors (info w) = [Failed_to_start_capture_session] /\
  end_time (info w) = None /\
  device_calls (trace w) = [MakeDirs dir true; StartSession false] /\
  progress_of (info w) = progress_of (new_capture_info "id" "start" d).
Proof.
  intros dir Hmade Hstarted. cbv zeta. unfold run, worker.
  rewrite capture_sequence_start.
  destruct (@capture_into_session_failure C E d dir
              (log c (SendUpdate running
                        (progress_of (new_capture_info "id" "start" d)))
                 (upd_info (with_status running)
                    (initial_world (new_capture_info "id" "start" d) c)))
              Hmade Hstarted)
    as [st [more [c2 [Hrun Hcalls]]]].
  cbn [info env data initial_world new_capture_info] in *.
  fold dir. rewrite Hrun. cbn [info trace]. repeat split.
  unfold device_calls in *. cbn [log trace initial_world app].
  cbn [filter is_call]. exact Hcalls.
Qed.

(** X22 on a camera whose first session fails. *)
Lemma session_start_failure_witness :
  let w := run scripted two_bracket_plan
             (mk_script true [false] [] [] [] [] (Some []) None 0) in
  status_of (info w) = error /\
  errors (info w) = [Failed_to_start_capture_session] /\
  end_time (info w) = None /\
  device_calls (trace w) = [MakeDirs "dir" true; StartSession false] /\
  progress_of (info w)
  = progress_of (new_capture_info "id" "start" two_bracket_plan).
Proof.
  apply (@session_start_failure script scripted two_bracket_plan
           (mk_script true [false] [] [] [] [] (Some []) None 0));
    reflexivity.
Defined.

(** X23. A save directory that cannot be created is an exception, and the
    handler of the worker takes it: the session ends as [error] with the
    one error that wraps the exception, no camera session is started, and
    this time [end_time] is set. *)
Theorem save_directory_failure
    (C : Type) (E : Env C) (d : capture_data) (c : C) :
  let dir := get (save_directory d) ("capture_" ++ now E c)%string in
  fst (makedirs E dir c) = false ->
  let w := run E d c in
  status_of (info w) = error /\
  errors (info w) = [Error_executing_capture OSError] /\
  end_time (info w) = Some (now E (snd (makedirs E dir c))) /\
  device_calls (trace w) = [MakeDirs dir false] /\
  progress_of (info w) = progress_of (new_capture_info "id" "start" d).
Proof.
  intros dir Hmade. cbv zeta. unfold run, worker.
  rewrite capture_sequence_start.
  destruct (@capture_into_makedirs_failure C E d dir
              (log c (SendUpdate running
                        (progress_of (new_capture_info "id" "start" d)))
                 (upd_info (with_status running)
                    (initial_world (new_capture_info "id" "start" d) c)))
              Hmade)
    as [st [more [Hrun Hcalls]]].
  cbn [info env data initial_world new_capture_info log upd_info] in *.
  fold dir. rewrite Hrun.
  unfold bind, append_error, set_status, set_end_time, _send_update, emit.
  unfold modify.
  cbn [info env trace writes snd with_error with_status with_end_time
         status_of errors end_time progress_of app log upd_info
         initial_world].
  repeat split.
  unfold device_calls in *. cbn [filter is_call].
  rewrite filter_app, Hcalls. reflexivity.
Qed.

(** X23 on a file system that refuses the directory. *)
Lemma save_directory_failure_witness :
  let w := run scripted two_bracket_plan
             (mk_script false [] [] [] [] [] (Some []) None 0) in
  status_of (info w) = error /\
  errors (info w) = [Error_executing_capture OSError] /\
  end_time (info w) = Some "now"%string /\
  device_calls (trace w) = [MakeDirs "dir" false] /\
  progress_of (info w)
  = progress_of (new_capture_info "id" "start" two_bracket_plan).
Proof.
  apply (@save_directory_failure script scripted two_bracket_plan
           (mk_script false [] [] [] [] [] (Some []) None 0)).
  reflexivity.
Defined.
